(** * BackendD3D: glyph atlas, glyph cache and cell grid

    A shallow embedding of [src/renderer/atlas/BackendD3D.cpp]: the settings
    state machine of [Render]/[_handleSettingsUpdate], the atlas sizing and
    reset of [_resetGlyphAtlas], the allocate-or-reset path of
    [_drawGlyphAtlasAllocate], the rasterisation entry points [_drawGlyph] and
    [_drawBuiltinGlyph], the double-height split and the per-frame cell grid
    written by [_drawBackground] and [_drawText].

    Conventions.
    - C++ integers are [Z]; every narrowing conversion and every 32-bit
      unsigned operation has its wrap-around written out ([u32], [u16],
      [i16], [i32]).  Signed [int] arithmetic that cannot be narrowed is left
      in [Z] (signed overflow has no defined result to model).
    - [f32] values are rationals ([Q]); [lrintf] rounds to nearest, ties to
      even.  Rounding error of binary32 arithmetic is outside the model.
    - Direct3D/Direct2D/DirectWrite calls are recorded as events of a ghost
      trace; their failure paths ([THROW_IF_FAILED]) are not modelled.
    - The file carries unresolved merge markers in [_drawGlyphAtlasAllocate]
      and [_drawGridlines]; the [Updated upstream] side is the one that agrees
      with the one-argument [_resetGlyphAtlas] defined in the file and is the
      one embedded here. *)

From Stdlib Require Import ZArith QArith Qround Lia Bool List.
From stdpp Require Import base option gmap list.

Open Scope Z_scope.

(** ** Machine integers *)

Module Int.

Definition u32 (z : Z) : Z := z mod 2 ^ 32.
Definition u16 (z : Z) : Z := z mod 2 ^ 16.
Definition u8 (z : Z) : Z := z mod 2 ^ 8.
Definition i16 (z : Z) : Z := (z + 2 ^ 15) mod 2 ^ 16 - 2 ^ 15.
Definition i32 (z : Z) : Z := (z + 2 ^ 31) mod 2 ^ 32 - 2 ^ 31.

Definition in_u16 (z : Z) : Prop := 0 <= z < 2 ^ 16.
Definition in_i16 (z : Z) : Prop := - 2 ^ 15 <= z < 2 ^ 15.
Definition in_u32 (z : Z) : Prop := 0 <= z < 2 ^ 32.

(** [til::CoordTypeMin] / [til::CoordTypeMax]: the bounds of the 32-bit
    signed coordinate type. *)
Definition CoordTypeMin : Z := - 2 ^ 31.
Definition CoordTypeMax : Z := 2 ^ 31 - 1.

(** [a << n] on a 32-bit signed operand (C++20: the result is the value
    congruent to [a * 2^n] modulo [2^32]). *)
Definition shl_i32 (a n : Z) : Z := i32 (Z.shiftl a n).

(** [1u << n] on a 32-bit unsigned operand. *)
Definition shl_u32 (a n : Z) : Z := u32 (Z.shiftl a n).

(** The file-local [clamp(val, min, max)]. *)
Definition clamp (val lo hi : Z) : Z :=
  if val <? lo then lo else if hi <? val then hi else val.

(** [_BitScanReverse(&index, mask)]: position of the highest set bit.  The
    intrinsic leaves [index] undefined for [mask = 0]; [Z.log2 0 = 0] stands
    in for that case, which [_resetGlyphAtlas] excludes by clamping. *)
Definition BitScanReverse (mask : Z) : Z := Z.log2 mask.

(** [lrintf]: round to nearest integer, ties to even (the default rounding
    mode). *)
Definition lrintf (q : Q) : Z :=
  let f := Qfloor q in
  let r := (q - inject_Z f)%Q in
  match (r ?= 1 # 2)%Q with
  | Lt => f
  | Gt => f + 1
  | Eq => if Z.even f then f else f + 1
  end.

End Int.
Export Int.

(** ** Atlas sizing ([_resetGlyphAtlas], first half) *)

Definition minArea : Z := 1024 * 1024.
(** [D3D10_REQ_TEXTURE2D_U_OR_V_DIMENSION] is 8192 in [d3d10.h]. *)
Definition D3D10_REQ_TEXTURE2D_U_OR_V_DIMENSION : Z := 8192.
Definition maxArea : Z :=
  D3D10_REQ_TEXTURE2D_U_OR_V_DIMENSION * D3D10_REQ_TEXTURE2D_U_OR_V_DIMENSION.

(** The locals of [_resetGlyphAtlas]; every operand is a [u32]. *)
Definition cellArea (cellSize : Z * Z) : Z := u32 (u32 (fst cellSize) * snd cellSize).
Definition targetArea (targetSize : Z * Z) : Z := u32 (u32 (fst targetSize) * snd targetSize).
Definition minAreaByFont (cellSize : Z * Z) : Z := u32 (cellArea cellSize * 95).
Definition minAreaByGrowth (packerWidth packerHeight : Z) : Z :=
  u32 (u32 (u32 packerWidth * packerHeight) * 2).
Definition maxAreaByFont (targetSize : Z * Z) : Z :=
  u32 (targetArea targetSize + targetArea targetSize / 4).

Definition atlasArea (cellSize targetSize : Z * Z) (packerWidth packerHeight : Z) : Z :=
  let area :=
    Z.min (maxAreaByFont targetSize)
      (Z.max (minAreaByFont cellSize) (minAreaByGrowth packerWidth packerHeight)) in
  clamp area minArea maxArea.

(** The growth policy in the words of the design: the larger of 95 cells and
    twice the current packer area, capped at 1.25 times the surface area,
    clamped into [minArea, maxArea]; over unbounded integers. *)
Definition growthPolicy (cellA packerA surfaceA : Z) : Z :=
  clamp (Z.min (5 * surfaceA / 4) (Z.max (95 * cellA) (2 * packerA))) minArea maxArea.

(** The power-of-two texture size [(u, v)] derived from [area]. *)
Definition atlasSize (area : Z) : Z * Z :=
  let index := BitScanReverse (u32 (area - 1)) in
  let u := u16 (shl_u32 1 ((index + 2) / 2)) in
  let v := u16 (shl_u32 1 ((index + 1) / 2)) in
  (u, v).

(** ** Data model *)

Inductive LineRendition :=
  | SingleWidth | DoubleWidth | DoubleHeightTop | DoubleHeightBottom.

#[global] Instance LineRendition_eq_dec : EqDecision LineRendition.
Proof. solve_decision. Defined.

(** [WI_EnumValue(lineRendition)]: the index into [glyphs[4]]. *)
Definition WI_EnumValue (r : LineRendition) : nat :=
  match r with
  | SingleWidth => 0 | DoubleWidth => 1
  | DoubleHeightTop => 2 | DoubleHeightBottom => 3
  end.

Definition LineRendition_of_index (n : nat) : option LineRendition :=
  match n with
  | 0%nat => Some SingleWidth | 1%nat => Some DoubleWidth
  | 2%nat => Some DoubleHeightTop | 3%nat => Some DoubleHeightBottom
  | _ => None
  end.

#[global] Instance LineRendition_countable : Countable LineRendition.
Proof. apply (inj_countable WI_EnumValue LineRendition_of_index). by intros []. Defined.

(** [r != LineRendition::SingleWidth] and [r >= LineRendition::DoubleHeightTop]. *)
Definition isDoubleWidth (r : LineRendition) : bool :=
  match r with SingleWidth => false | _ => true end.
Definition isDoubleHeight (r : LineRendition) : bool :=
  match r with DoubleHeightTop | DoubleHeightBottom => true | _ => false end.

Inductive ShadingType :=
  | Default | TextGrayscale | TextClearType | TextPassthrough | TextBuiltinGlyph
  | SolidLine | DottedLine | DashedLine | CurlyLine | Selection.

#[global] Instance ShadingType_eq_dec : EqDecision ShadingType.
Proof. solve_decision. Defined.

Inductive AntialiasingMode := Grayscale | ClearType | Aliased.

#[global] Instance AntialiasingMode_eq_dec : EqDecision AntialiasingMode.
Proof. solve_decision. Defined.

(** [AtlasGlyphEntry].  [offset] is a pair of 16-bit signed, [size] and
    [texcoord] pairs of 16-bit unsigned fields (the file narrows with
    [static_cast<u16>] / [static_cast<i16>] wherever it writes their like). *)
Record AtlasGlyphEntry := mkEntry {
  glyphIndex : Z;
  shadingType : ShadingType;
  overlapSplit : bool;
  offset : Z * Z;
  size : Z * Z;
  texcoord : Z * Z;
}.

#[global] Instance AtlasGlyphEntry_eq_dec : EqDecision AtlasGlyphEntry.
Proof. solve_decision. Defined.

(** The slot a fresh [insert(glyphIndex)] hands out: the key is set, the
    payload fields are those of zeroed storage. *)
Definition blankEntry (g : Z) : AtlasGlyphEntry :=
  mkEntry g Default false (0, 0) (0, 0) (0, 0).

(** A font face is identified by the address of its [IDWriteFontFace2]. *)
Definition FontFace := positive.

(** [AtlasFontFaceEntry::glyphs]: four hash sets of glyph entries, one per
    line rendition, keyed by glyph index.  One finite map keyed by
    (line rendition, glyph index) carries the four of them. *)
Abbreviation Glyphs := (gmap (LineRendition * Z) AtlasGlyphEntry).

(** One record of the structured buffer read by the compute shader. *)
Record Cell := mkCell {
  background : Z;
  foreground : Z;
  glyphX : Z;
  glyphY : Z;
}.

#[global] Instance Cell_eq_dec : EqDecision Cell.
Proof. solve_decision. Defined.

(** [(u32)-1], the "no glyph" coordinate. *)
Definition noGlyph : Z := u32 (-1).

(** The fixed extent of [_cells]. *)
Definition cellColumns : Z := 120.
Definition cellRows : Z := 30.

(** *** Settings and payload *)

Record FontSettings := {
  font_generation : Z;
  cellSize : Z * Z;
  advanceWidth : Z;
  baseline : Z;
  descender : Z;
  (** [fontFeatures]: (nameTag, parameter) *)
  fontFeatures : list (Z * Z);
  antialiasingMode : AntialiasingMode;
  colorGlyphs : bool;
  softFontPattern : list Z;
  softFontCellSize : Z * Z;
}.

Record MiscSettings := {
  misc_generation : Z;
  customPixelShaderPath : list Z;
  customPixelShaderImagePath : list Z;
  useRetroTerminalEffect : bool;
}.

Record Settings := {
  generation : Z;
  font : FontSettings;
  misc : MiscSettings;
  targetSize : Z * Z;
  viewportCellCount : Z * Z;
}.

Record FontMapping := {
  fontFace : option FontFace;
  glyphsFrom : nat;
  glyphsTo : nat;
}.

Record GlyphOffset := {
  advanceOffset : Q;
  ascenderOffset : Q;
}.

Record ShapedRow := {
  mappings : list FontMapping;
  glyphIndices : list Z;
  glyphAdvances : list Q;
  glyphOffsets : list GlyphOffset;
  lineRendition : LineRendition;
}.

Record RenderingPayload := {
  s : Settings;
  rows : list ShapedRow;
  backgroundBitmap : list Z;
  foregroundBitmap : list Z;
  colorBitmapGenerations0 : Z;
}.

(** [DWRITE_FONT_FEATURE_TAG_STANDARD_LIGATURES] = [MAKE_OPENTYPE_TAG('l','i','g','a')]. *)
Definition DWRITE_FONT_FEATURE_TAG_STANDARD_LIGATURES : Z := 0x6167696c.

(** *** Collaborators outside the file

    What the file calls but does not define: the rectangle packer
    ([stb_rect_pack]), the DirectWrite/Direct2D glyph metrics, the shader
    compiler, and three small predicates of [til] and [BuiltinGlyphs]. *)
Class Platform := {
  (** [stbrp_context] node storage *)
  stbrp_nodes : Type;
  (** [stbrp_init_target(&ctx, width, height, nodes, num_nodes)] *)
  stbrp_init_target : Z -> Z -> stbrp_nodes;
  (** [stbrp_pack_rects(&ctx, &rect, 1)] for a [w] x [h] rectangle in a
      [width] x [height] target: the new storage and [(rect.x, rect.y)], or
      [None] when the call returns 0. *)
  stbrp_pack_rects : Z -> Z -> stbrp_nodes -> Z -> Z -> option (stbrp_nodes * (Z * Z));
  (** [GetGlyphRunWorldBounds] / [ColorGlyphRunAccumulateBounds] for one
      glyph under the transform [m11, m22]: (left, top, right, bottom) *)
  glyphRunBounds : FontSettings -> FontFace -> Z -> Z -> Z -> Q * Q * (Q * Q);
  (** whether [TranslateColorGlyphRun] yields an enumerator *)
  TranslateColorGlyphRun : FontFace -> Z -> bool;
  (** whether [D3DCompileFromFile] succeeds on the path *)
  D3DCompileFromFile : list Z -> bool;
  (** whether [WIC::LoadTextureFromFile] succeeds on the path *)
  LoadTextureFromFile : list Z -> bool;
  is_leading_surrogate : Z -> bool;
  combine_surrogates : Z -> Z -> Z;
  IsSoftFontChar : Z -> bool;
}.

(** *** Backend state *)

Inductive Event :=
  | CreateRenderTargetView
  | UpdateFontDependents
  | RecreateCustomShader
  | RecreateBackgroundColorBitmap
  | RecreateCustomRenderTargetView
  | RecreateConstBuffer
  | UploadBackgroundBitmap
  | ResizeGlyphAtlas (u v : Z)
  | ResetGlyphAtlas
  | PackRects (w h : Z) (ok : bool)
  | EndDraw
  | CreateCellBuffer
  | Dispatch
  | ExecuteCustomShader.

#[global] Instance Event_eq_dec : EqDecision Event.
Proof. solve_decision. Defined.

Section Backend.
Context `{Platform}.

(** [stbrp_context]: the fields the file reads, and the node storage. *)
Record stbrp_context := {
  width : Z;
  height : Z;
  nodes : stbrp_nodes;
}.

Record BackendD3D := {
  _generation : Z;
  _fontGeneration : Z;
  _miscGeneration : Z;
  _targetSize : Z * Z;
  _viewportCellCount : Z * Z;
  _renderTargetView : bool;
  _customRenderTargetView : bool;
  _customPixelShader : bool;
  _cellBuffer : bool;
  _backgroundBitmapGeneration : Z;
  _fontChangedResetGlyphAtlas : bool;
  _textShadingType : ShadingType;
  _ligatureOverhangTriggerLeft : Z;
  _ligatureOverhangTriggerRight : Z;
  _softFontBitmap : bool;
  _d2dBeganDrawing : bool;
  _rectPacker : stbrp_context;
  _glyphAtlasMap : gmap FontFace Glyphs;
  _builtinGlyphs : Glyphs;
  _cells : list Cell;
  (** ghost: the device calls issued so far, oldest first *)
  trace : list Event;
}.


(** Field updates ([b.f = v]). *)
Definition set_renderTargetView v (b : BackendD3D) : BackendD3D :=
  {| _generation := _generation b;
     _fontGeneration := _fontGeneration b;
     _miscGeneration := _miscGeneration b;
     _targetSize := _targetSize b;
     _viewportCellCount := _viewportCellCount b;
     _renderTargetView := v;
     _customRenderTargetView := _customRenderTargetView b;
     _customPixelShader := _customPixelShader b;
     _cellBuffer := _cellBuffer b;
     _backgroundBitmapGeneration := _backgroundBitmapGeneration b;
     _fontChangedResetGlyphAtlas := _fontChangedResetGlyphAtlas b;
     _textShadingType := _textShadingType b;
     _ligatureOverhangTriggerLeft := _ligatureOverhangTriggerLeft b;
     _ligatureOverhangTriggerRight := _ligatureOverhangTriggerRight b;
     _softFontBitmap := _softFontBitmap b;
     _d2dBeganDrawing := _d2dBeganDrawing b;
     _rectPacker := _rectPacker b;
     _glyphAtlasMap := _glyphAtlasMap b;
     _builtinGlyphs := _builtinGlyphs b;
     _cells := _cells b;
     trace := trace b |}.
Definition set_customRenderTargetView v (b : BackendD3D) : BackendD3D :=
  {| _generation := _generation b;
     _fontGeneration := _fontGeneration b;
     _miscGeneration := _miscGeneration b;
     _targetSize := _targetSize b;
     _viewportCellCount := _viewportCellCount b;
     _renderTargetView := _renderTargetView b;
     _customRenderTargetView := v;
     _customPixelShader := _customPixelShader b;
     _cellBuffer := _cellBuffer b;
     _backgroundBitmapGeneration := _backgroundBitmapGeneration b;
     _fontChangedResetGlyphAtlas := _fontChangedResetGlyphAtlas b;
     _textShadingType := _textShadingType b;
     _ligatureOverhangTriggerLeft := _ligatureOverhangTriggerLeft b;
     _ligatureOverhangTriggerRight := _ligatureOverhangTriggerRight b;
     _softFontBitmap := _softFontBitmap b;
     _d2dBeganDrawing := _d2dBeganDrawing b;
     _rectPacker := _rectPacker b;
     _glyphAtlasMap := _glyphAtlasMap b;
     _builtinGlyphs := _builtinGlyphs b;
     _cells := _cells b;
     trace := trace b |}.
Definition set_customPixelShader v (b : BackendD3D) : BackendD3D :=
  {| _generation := _generation b;
     _fontGeneration := _fontGeneration b;
     _miscGeneration := _miscGeneration b;
     _targetSize := _targetSize b;
     _viewportCellCount := _viewportCellCount b;
     _renderTargetView := _renderTargetView b;
     _customRenderTargetView := _customRenderTargetView b;
     _customPixelShader := v;
     _cellBuffer := _cellBuffer b;
     _backgroundBitmapGeneration := _backgroundBitmapGeneration b;
     _fontChangedResetGlyphAtlas := _fontChangedResetGlyphAtlas b;
     _textShadingType := _textShadingType b;
     _ligatureOverhangTriggerLeft := _ligatureOverhangTriggerLeft b;
     _ligatureOverhangTriggerRight := _ligatureOverhangTriggerRight b;
     _softFontBitmap := _softFontBitmap b;
     _d2dBeganDrawing := _d2dBeganDrawing b;
     _rectPacker := _rectPacker b;
     _glyphAtlasMap := _glyphAtlasMap b;
     _builtinGlyphs := _builtinGlyphs b;
     _cells := _cells b;
     trace := trace b |}.
Definition set_cellBuffer v (b : BackendD3D) : BackendD3D :=
  {| _generation := _generation b;
     _fontGeneration := _fontGeneration b;
     _miscGeneration := _miscGeneration b;
     _targetSize := _targetSize b;
     _viewportCellCount := _viewportCellCount b;
     _renderTargetView := _renderTargetView b;
     _customRenderTargetView := _customRenderTargetView b;
     _customPixelShader := _customPixelShader b;
     _cellBuffer := v;
     _backgroundBitmapGeneration := _backgroundBitmapGeneration b;
     _fontChangedResetGlyphAtlas := _fontChangedResetGlyphAtlas b;
     _textShadingType := _textShadingType b;
     _ligatureOverhangTriggerLeft := _ligatureOverhangTriggerLeft b;
     _ligatureOverhangTriggerRight := _ligatureOverhangTriggerRight b;
     _softFontBitmap := _softFontBitmap b;
     _d2dBeganDrawing := _d2dBeganDrawing b;
     _rectPacker := _rectPacker b;
     _glyphAtlasMap := _glyphAtlasMap b;
     _builtinGlyphs := _builtinGlyphs b;
     _cells := _cells b;
     trace := trace b |}.
Definition set_backgroundBitmapGeneration v (b : BackendD3D) : BackendD3D :=
  {| _generation := _generation b;
     _fontGeneration := _fontGeneration b;
     _miscGeneration := _miscGeneration b;
     _targetSize := _targetSize b;
     _viewportCellCount := _viewportCellCount b;
     _renderTargetView := _renderTargetView b;
     _customRenderTargetView := _customRenderTargetView b;
     _customPixelShader := _customPixelShader b;
     _cellBuffer := _cellBuffer b;
     _backgroundBitmapGeneration := v;
     _fontChangedResetGlyphAtlas := _fontChangedResetGlyphAtlas b;
     _textShadingType := _textShadingType b;
     _ligatureOverhangTriggerLeft := _ligatureOverhangTriggerLeft b;
     _ligatureOverhangTriggerRight := _ligatureOverhangTriggerRight b;
     _softFontBitmap := _softFontBitmap b;
     _d2dBeganDrawing := _d2dBeganDrawing b;
     _rectPacker := _rectPacker b;
     _glyphAtlasMap := _glyphAtlasMap b;
     _builtinGlyphs := _builtinGlyphs b;
     _cells := _cells b;
     trace := trace b |}.
Definition set_fontChangedResetGlyphAtlas v (b : BackendD3D) : BackendD3D :=
  {| _generation := _generation b;
     _fontGeneration := _fontGeneration b;
     _miscGeneration := _miscGeneration b;
     _targetSize := _targetSize b;
     _viewportCellCount := _viewportCellCount b;
     _renderTargetView := _renderTargetView b;
     _customRenderTargetView := _customRenderTargetView b;
     _customPixelShader := _customPixelShader b;
     _cellBuffer := _cellBuffer b;
     _backgroundBitmapGeneration := _backgroundBitmapGeneration b;
     _fontChangedResetGlyphAtlas := v;
     _textShadingType := _textShadingType b;
     _ligatureOverhangTriggerLeft := _ligatureOverhangTriggerLeft b;
     _ligatureOverhangTriggerRight := _ligatureOverhangTriggerRight b;
     _softFontBitmap := _softFontBitmap b;
     _d2dBeganDrawing := _d2dBeganDrawing b;
     _rectPacker := _rectPacker b;
     _glyphAtlasMap := _glyphAtlasMap b;
     _builtinGlyphs := _builtinGlyphs b;
     _cells := _cells b;
     trace := trace b |}.
Definition set_textShadingType v (b : BackendD3D) : BackendD3D :=
  {| _generation := _generation b;
     _fontGeneration := _fontGeneration b;
     _miscGeneration := _miscGeneration b;
     _targetSize := _targetSize b;
     _viewportCellCount := _viewportCellCount b;
     _renderTargetView := _renderTargetView b;
     _customRenderTargetView := _customRenderTargetView b;
     _customPixelShader := _customPixelShader b;
     _cellBuffer := _cellBuffer b;
     _backgroundBitmapGeneration := _backgroundBitmapGeneration b;
     _fontChangedResetGlyphAtlas := _fontChangedResetGlyphAtlas b;
     _textShadingType := v;
     _ligatureOverhangTriggerLeft := _ligatureOverhangTriggerLeft b;
     _ligatureOverhangTriggerRight := _ligatureOverhangTriggerRight b;
     _softFontBitmap := _softFontBitmap b;
     _d2dBeganDrawing := _d2dBeganDrawing b;
     _rectPacker := _rectPacker b;
     _glyphAtlasMap := _glyphAtlasMap b;
     _builtinGlyphs := _builtinGlyphs b;
     _cells := _cells b;
     trace := trace b |}.
Definition set_softFontBitmap v (b : BackendD3D) : BackendD3D :=
  {| _generation := _generation b;
     _fontGeneration := _fontGeneration b;
     _miscGeneration := _miscGeneration b;
     _targetSize := _targetSize b;
     _viewportCellCount := _viewportCellCount b;
     _renderTargetView := _renderTargetView b;
     _customRenderTargetView := _customRenderTargetView b;
     _customPixelShader := _customPixelShader b;
     _cellBuffer := _cellBuffer b;
     _backgroundBitmapGeneration := _backgroundBitmapGeneration b;
     _fontChangedResetGlyphAtlas := _fontChangedResetGlyphAtlas b;
     _textShadingType := _textShadingType b;
     _ligatureOverhangTriggerLeft := _ligatureOverhangTriggerLeft b;
     _ligatureOverhangTriggerRight := _ligatureOverhangTriggerRight b;
     _softFontBitmap := v;
     _d2dBeganDrawing := _d2dBeganDrawing b;
     _rectPacker := _rectPacker b;
     _glyphAtlasMap := _glyphAtlasMap b;
     _builtinGlyphs := _builtinGlyphs b;
     _cells := _cells b;
     trace := trace b |}.
Definition set_d2dBeganDrawing v (b : BackendD3D) : BackendD3D :=
  {| _generation := _generation b;
     _fontGeneration := _fontGeneration b;
     _miscGeneration := _miscGeneration b;
     _targetSize := _targetSize b;
     _viewportCellCount := _viewportCellCount b;
     _renderTargetView := _renderTargetView b;
     _customRenderTargetView := _customRenderTargetView b;
     _customPixelShader := _customPixelShader b;
     _cellBuffer := _cellBuffer b;
     _backgroundBitmapGeneration := _backgroundBitmapGeneration b;
     _fontChangedResetGlyphAtlas := _fontChangedResetGlyphAtlas b;
     _textShadingType := _textShadingType b;
     _ligatureOverhangTriggerLeft := _ligatureOverhangTriggerLeft b;
     _ligatureOverhangTriggerRight := _ligatureOverhangTriggerRight b;
     _softFontBitmap := _softFontBitmap b;
     _d2dBeganDrawing := v;
     _rectPacker := _rectPacker b;
     _glyphAtlasMap := _glyphAtlasMap b;
     _builtinGlyphs := _builtinGlyphs b;
     _cells := _cells b;
     trace := trace b |}.
Definition set_rectPacker v (b : BackendD3D) : BackendD3D :=
  {| _generation := _generation b;
     _fontGeneration := _fontGeneration b;
     _miscGeneration := _miscGeneration b;
     _targetSize := _targetSize b;
     _viewportCellCount := _viewportCellCount b;
     _renderTargetView := _renderTargetView b;
     _customRenderTargetView := _customRenderTargetView b;
     _customPixelShader := _customPixelShader b;
     _cellBuffer := _cellBuffer b;
     _backgroundBitmapGeneration := _backgroundBitmapGeneration b;
     _fontChangedResetGlyphAtlas := _fontChangedResetGlyphAtlas b;
     _textShadingType := _textShadingType b;
     _ligatureOverhangTriggerLeft := _ligatureOverhangTriggerLeft b;
     _ligatureOverhangTriggerRight := _ligatureOverhangTriggerRight b;
     _softFontBitmap := _softFontBitmap b;
     _d2dBeganDrawing := _d2dBeganDrawing b;
     _rectPacker := v;
     _glyphAtlasMap := _glyphAtlasMap b;
     _builtinGlyphs := _builtinGlyphs b;
     _cells := _cells b;
     trace := trace b |}.
Definition set_glyphAtlasMap v (b : BackendD3D) : BackendD3D :=
  {| _generation := _generation b;
     _fontGeneration := _fontGeneration b;
     _miscGeneration := _miscGeneration b;
     _targetSize := _targetSize b;
     _viewportCellCount := _viewportCellCount b;
     _renderTargetView := _renderTargetView b;
     _customRenderTargetView := _customRenderTargetView b;
     _customPixelShader := _customPixelShader b;
     _cellBuffer := _cellBuffer b;
     _backgroundBitmapGeneration := _backgroundBitmapGeneration b;
     _fontChangedResetGlyphAtlas := _fontChangedResetGlyphAtlas b;
     _textShadingType := _textShadingType b;
     _ligatureOverhangTriggerLeft := _ligatureOverhangTriggerLeft b;
     _ligatureOverhangTriggerRight := _ligatureOverhangTriggerRight b;
     _softFontBitmap := _softFontBitmap b;
     _d2dBeganDrawing := _d2dBeganDrawing b;
     _rectPacker := _rectPacker b;
     _glyphAtlasMap := v;
     _builtinGlyphs := _builtinGlyphs b;
     _cells := _cells b;
     trace := trace b |}.
Definition set_builtinGlyphs v (b : BackendD3D) : BackendD3D :=
  {| _generation := _generation b;
     _fontGeneration := _fontGeneration b;
     _miscGeneration := _miscGeneration b;
     _targetSize := _targetSize b;
     _viewportCellCount := _viewportCellCount b;
     _renderTargetView := _renderTargetView b;
     _customRenderTargetView := _customRenderTargetView b;
     _customPixelShader := _customPixelShader b;
     _cellBuffer := _cellBuffer b;
     _backgroundBitmapGeneration := _backgroundBitmapGeneration b;
     _fontChangedResetGlyphAtlas := _fontChangedResetGlyphAtlas b;
     _textShadingType := _textShadingType b;
     _ligatureOverhangTriggerLeft := _ligatureOverhangTriggerLeft b;
     _ligatureOverhangTriggerRight := _ligatureOverhangTriggerRight b;
     _softFontBitmap := _softFontBitmap b;
     _d2dBeganDrawing := _d2dBeganDrawing b;
     _rectPacker := _rectPacker b;
     _glyphAtlasMap := _glyphAtlasMap b;
     _builtinGlyphs := v;
     _cells := _cells b;
     trace := trace b |}.
Definition set_cells v (b : BackendD3D) : BackendD3D :=
  {| _generation := _generation b;
     _fontGeneration := _fontGeneration b;
     _miscGeneration := _miscGeneration b;
     _targetSize := _targetSize b;
     _viewportCellCount := _viewportCellCount b;
     _renderTargetView := _renderTargetView b;
     _customRenderTargetView := _customRenderTargetView b;
     _customPixelShader := _customPixelShader b;
     _cellBuffer := _cellBuffer b;
     _backgroundBitmapGeneration := _backgroundBitmapGeneration b;
     _fontChangedResetGlyphAtlas := _fontChangedResetGlyphAtlas b;
     _textShadingType := _textShadingType b;
     _ligatureOverhangTriggerLeft := _ligatureOverhangTriggerLeft b;
     _ligatureOverhangTriggerRight := _ligatureOverhangTriggerRight b;
     _softFontBitmap := _softFontBitmap b;
     _d2dBeganDrawing := _d2dBeganDrawing b;
     _rectPacker := _rectPacker b;
     _glyphAtlasMap := _glyphAtlasMap b;
     _builtinGlyphs := _builtinGlyphs b;
     _cells := v;
     trace := trace b |}.
Definition set_trace v (b : BackendD3D) : BackendD3D :=
  {| _generation := _generation b;
     _fontGeneration := _fontGeneration b;
     _miscGeneration := _miscGeneration b;
     _targetSize := _targetSize b;
     _viewportCellCount := _viewportCellCount b;
     _renderTargetView := _renderTargetView b;
     _customRenderTargetView := _customRenderTargetView b;
     _customPixelShader := _customPixelShader b;
     _cellBuffer := _cellBuffer b;
     _backgroundBitmapGeneration := _backgroundBitmapGeneration b;
     _fontChangedResetGlyphAtlas := _fontChangedResetGlyphAtlas b;
     _textShadingType := _textShadingType b;
     _ligatureOverhangTriggerLeft := _ligatureOverhangTriggerLeft b;
     _ligatureOverhangTriggerRight := _ligatureOverhangTriggerRight b;
     _softFontBitmap := _softFontBitmap b;
     _d2dBeganDrawing := _d2dBeganDrawing b;
     _rectPacker := _rectPacker b;
     _glyphAtlasMap := _glyphAtlasMap b;
     _builtinGlyphs := _builtinGlyphs b;
     _cells := _cells b;
     trace := v |}.

Definition log (e : Event) (b : BackendD3D) : BackendD3D :=
  set_trace (trace b ++ [e]) b.

(** *** Results

    A call either returns, or leaves by a C++ exception ([THROW_HR]), or
    runs into undefined behaviour (an index outside a fixed array, a division
    by zero).  The state reached so far is kept in every case. *)
Inductive Fault :=
  | ERROR_POSSIBLE_DEADLOCK
  | IndexOutOfBounds
  | DivisionByZero.

Inductive Result (A : Type) :=
  | Ok (a : A) (b : BackendD3D)
  | Fail (f : Fault) (b : BackendD3D).
Arguments Ok {A} a b.
Arguments Fail {A} f b.

Definition M (A : Type) : Type := BackendD3D -> Result A.

Definition ret {A} (a : A) : M A := fun b => Ok a b.
Definition bind {A B} (c : M A) (k : A -> M B) : M B :=
  fun b => match c b with
           | Ok a b' => k a b'
           | Fail f b' => Fail f b'
           end.
Definition throw {A} (f : Fault) : M A := fun b => Fail f b.
Definition modify (g : BackendD3D -> BackendD3D) : M unit := fun b => Ok tt (g b).
Definition get {A} (g : BackendD3D -> A) : M A := fun b => Ok (g b) b.

Notation "'let*' x := c 'in' k" := (bind c (fun x => k))
  (at level 10, x name, c at level 100, k at level 200, only parsing).
Notation "c ;; k" := (bind c (fun _ => k))
  (at level 100, k at level 200, right associativity, only parsing).

Definition stateOf {A} (r : Result A) : BackendD3D :=
  match r with Ok _ b => b | Fail _ b => b end.

(** ** Direct2D bracketing *)

Definition _d2dBeginDrawing (b : BackendD3D) : BackendD3D :=
  if _d2dBeganDrawing b then b else set_d2dBeganDrawing true b.

Definition _d2dEndDrawing (b : BackendD3D) : BackendD3D :=
  if _d2dBeganDrawing b then set_d2dBeganDrawing false (log EndDraw b) else b.

(** ** Settings update *)

(** The loop over [font.fontFeatures]: the first standard-ligatures feature
    decides, [ligaturesDisabled = !feature.parameter]. *)
Fixpoint ligaturesDisabled (features : list (Z * Z)) : bool :=
  match features with
  | [] => false
  | (nameTag, parameter) :: rest =>
      if nameTag =? DWRITE_FONT_FEATURE_TAG_STANDARD_LIGATURES
      then parameter =? 0
      else ligaturesDisabled rest
  end.

Definition ligatureTriggers (f : FontSettings) : Z * Z :=
  if ligaturesDisabled (fontFeatures f)
  then (CoordTypeMin, CoordTypeMax)
  else
    let halfCellWidth := fst (cellSize f) ÷ 2 in
    (- halfCellWidth, advanceWidth f + halfCellWidth).

Definition _updateFontDependents (p : RenderingPayload) (b : BackendD3D) : BackendD3D :=
  let f := font (s p) in
  let b := log UpdateFontDependents b in
  let b := set_fontChangedResetGlyphAtlas true b in
  let b := set_textShadingType
             (if decide (antialiasingMode f = ClearType) then TextClearType else TextGrayscale) b in
  let t := ligatureTriggers f in
  let b :=
    {| _generation := _generation b;
       _fontGeneration := _fontGeneration b;
       _miscGeneration := _miscGeneration b;
       _targetSize := _targetSize b;
       _viewportCellCount := _viewportCellCount b;
       _renderTargetView := _renderTargetView b;
       _customRenderTargetView := _customRenderTargetView b;
       _customPixelShader := _customPixelShader b;
       _cellBuffer := _cellBuffer b;
       _backgroundBitmapGeneration := _backgroundBitmapGeneration b;
       _fontChangedResetGlyphAtlas := _fontChangedResetGlyphAtlas b;
       _textShadingType := _textShadingType b;
       _ligatureOverhangTriggerLeft := fst t;
       _ligatureOverhangTriggerRight := snd t;
       _softFontBitmap := _softFontBitmap b;
       _d2dBeganDrawing := _d2dBeganDrawing b;
       _rectPacker := _rectPacker b;
       _glyphAtlasMap := _glyphAtlasMap b;
       _builtinGlyphs := _builtinGlyphs b;
       _cells := _cells b;
       trace := trace b |} in
  set_softFontBitmap false b.

(** [_customPixelShader] after [_recreateCustomShader]: set when the user
    shader compiles (and its image, if any, loads), or when the retro effect
    is requested without a user shader. *)
Definition customShaderAvailable (m : MiscSettings) : bool :=
  match customPixelShaderPath m with
  | [] => useRetroTerminalEffect m
  | path =>
      let compiled := D3DCompileFromFile path in
      match customPixelShaderImagePath m with
      | [] => compiled
      | image => if LoadTextureFromFile image then compiled else false
      end
  end.

Definition _recreateCustomShader (p : RenderingPayload) (b : BackendD3D) : BackendD3D :=
  let b := log RecreateCustomShader b in
  let b := set_customRenderTargetView false b in
  set_customPixelShader (customShaderAvailable (misc (s p))) b.

Definition _recreateCustomRenderTargetView (p : RenderingPayload) (b : BackendD3D) : BackendD3D :=
  set_customRenderTargetView true (log RecreateCustomRenderTargetView b).

Definition _recreateBackgroundColorBitmap (p : RenderingPayload) (b : BackendD3D) : BackendD3D :=
  set_backgroundBitmapGeneration 0 (log RecreateBackgroundColorBitmap b).

Definition _recreateConstBuffer (p : RenderingPayload) (b : BackendD3D) : BackendD3D :=
  log RecreateConstBuffer b.

Definition adoptGenerations (p : RenderingPayload) (b : BackendD3D) : BackendD3D :=
  {| _generation := generation (s p);
     _fontGeneration := font_generation (font (s p));
     _miscGeneration := misc_generation (misc (s p));
     _targetSize := targetSize (s p);
     _viewportCellCount := viewportCellCount (s p);
     _renderTargetView := _renderTargetView b;
     _customRenderTargetView := _customRenderTargetView b;
     _customPixelShader := _customPixelShader b;
     _cellBuffer := _cellBuffer b;
     _backgroundBitmapGeneration := _backgroundBitmapGeneration b;
     _fontChangedResetGlyphAtlas := _fontChangedResetGlyphAtlas b;
     _textShadingType := _textShadingType b;
     _ligatureOverhangTriggerLeft := _ligatureOverhangTriggerLeft b;
     _ligatureOverhangTriggerRight := _ligatureOverhangTriggerRight b;
     _softFontBitmap := _softFontBitmap b;
     _d2dBeganDrawing := _d2dBeganDrawing b;
     _rectPacker := _rectPacker b;
     _glyphAtlasMap := _glyphAtlasMap b;
     _builtinGlyphs := _builtinGlyphs b;
     _cells := _cells b;
     trace := trace b |}.

Definition _handleSettingsUpdate (p : RenderingPayload) (b : BackendD3D) : BackendD3D :=
  let b :=
    if _renderTargetView b then b
    else set_renderTargetView true (log CreateRenderTargetView b) in
  let fontChanged := negb (_fontGeneration b =? font_generation (font (s p))) in
  let miscChanged := negb (_miscGeneration b =? misc_generation (misc (s p))) in
  let cellCountChanged :=
    negb (bool_decide (_viewportCellCount b = viewportCellCount (s p))) in
  let b := if fontChanged then _updateFontDependents p b else b in
  let b := if miscChanged then _recreateCustomShader p b else b in
  let b := if cellCountChanged then _recreateBackgroundColorBitmap p b else b in
  let b :=
    if _customPixelShader b && negb (_customRenderTargetView b)
    then _recreateCustomRenderTargetView p b else b in
  let b := _recreateConstBuffer p b in
  adoptGenerations p b.


(** ** Atlas reset *)

Definition _resizeGlyphAtlas (p : RenderingPayload) (u v : Z) (b : BackendD3D) : BackendD3D :=
  log (ResizeGlyphAtlas u v) b.

Definition _resetGlyphAtlas (p : RenderingPayload) (b : BackendD3D) : BackendD3D :=
  let area := atlasArea (cellSize (font (s p))) (targetSize (s p))
                (width (_rectPacker b)) (height (_rectPacker b)) in
  let '(u, v) := atlasSize area in
  let b :=
    if negb (u =? width (_rectPacker b)) || negb (v =? height (_rectPacker b))
    then _resizeGlyphAtlas p u v b else b in
  let b := set_rectPacker {| width := u; height := v; nodes := stbrp_init_target u v |} b in
  let b := set_glyphAtlasMap ((fun _ : Glyphs => (∅ : Glyphs)) <$> _glyphAtlasMap b) b in
  let b := set_builtinGlyphs ∅ b in
  let b := _d2dBeginDrawing b in
  let b := log ResetGlyphAtlas b in
  set_fontChangedResetGlyphAtlas false b.

(** ** Flushing the cell grid to the GPU *)

Definition _flushQuads (p : RenderingPayload) (b : BackendD3D) : BackendD3D :=
  let b := if _cellBuffer b then b else set_cellBuffer true (log CreateCellBuffer b) in
  log Dispatch b.

(** ** Atlas allocation *)

Definition pack (w h : Z) : M (option (Z * Z)) := fun b =>
  let c := _rectPacker b in
  match stbrp_pack_rects (width c) (height c) (nodes c) w h with
  | Some (n, xy) =>
      Ok (Some xy)
         (log (PackRects w h true)
            (set_rectPacker {| width := width c; height := height c; nodes := n |} b))
  | None => Ok None (log (PackRects w h false) b)
  end.

Definition _drawGlyphAtlasAllocate (p : RenderingPayload) (w h : Z) : M (Z * Z) :=
  let* r := pack w h in
  match r with
  | Some xy => ret xy
  | None =>
      modify _d2dEndDrawing ;;
      modify (_flushQuads p) ;;
      modify (_resetGlyphAtlas p) ;;
      let* r := pack w h in
      match r with
      | Some xy => ret xy
      | None => throw ERROR_POSSIBLE_DEADLOCK
      end
  end.

(** ** Glyph cache *)

(** The glyph sets behind an [AtlasFontFaceEntry*]: [&_builtinGlyphs] when
    the mapping has no font face, else the slot of [_glyphAtlasMap]. *)
Definition glyphsOf (f : option FontFace) (b : BackendD3D) : Glyphs :=
  match f with
  | None => _builtinGlyphs b
  | Some ff => default ∅ (_glyphAtlasMap b !! ff)
  end.

Definition setGlyphsOf (f : option FontFace) (g : Glyphs) (b : BackendD3D) : BackendD3D :=
  match f with
  | None => set_builtinGlyphs g b
  | Some ff => set_glyphAtlasMap (<[ff := g]> (_glyphAtlasMap b)) b
  end.

(** [glyphs[WI_EnumValue(r)].lookup(glyphIndex)] *)
Definition lookupGlyph (f : option FontFace) (r : LineRendition) (g : Z)
    (b : BackendD3D) : option AtlasGlyphEntry :=
  glyphsOf f b !! (r, g).

(** [_glyphAtlasMap.insert(fontFace).first]: the slot is created when the
    font face is seen for the first time. *)
Definition insertFontFace (f : option FontFace) (b : BackendD3D) : BackendD3D :=
  match f with
  | None => b
  | Some ff =>
      match _glyphAtlasMap b !! ff with
      | Some _ => b
      | None => set_glyphAtlasMap (<[ff := ∅]> (_glyphAtlasMap b)) b
      end
  end.

(** A write through an entry pointer into the glyph set. *)
Definition storeGlyph (f : option FontFace) (r : LineRendition) (e : AtlasGlyphEntry)
    (b : BackendD3D) : BackendD3D :=
  setGlyphsOf f (<[(r, glyphIndex e) := e]> (glyphsOf f b)) b.

(** [glyphs[WI_EnumValue(r)].insert(glyphIndex).first]: the entry already
    stored under the key, or a fresh slot. *)
Definition insertGlyph (f : option FontFace) (r : LineRendition) (g : Z) : M AtlasGlyphEntry :=
  fun b =>
    match glyphsOf f b !! (r, g) with
    | Some e => Ok e b
    | None => Ok (blankEntry g) (storeGlyph f r (blankEntry g) b)
    end.

Definition writeGlyph (f : option FontFace) (r : LineRendition) (e : AtlasGlyphEntry) : M unit :=
  modify (storeGlyph f r e).

Definition with_shadingType (t : ShadingType) (e : AtlasGlyphEntry) : AtlasGlyphEntry :=
  mkEntry (glyphIndex e) t (overlapSplit e) (offset e) (size e) (texcoord e).
Definition with_offset_y (y : Z) (e : AtlasGlyphEntry) : AtlasGlyphEntry :=
  mkEntry (glyphIndex e) (shadingType e) (overlapSplit e) (fst (offset e), y) (size e) (texcoord e).
Definition with_size_y (y : Z) (e : AtlasGlyphEntry) : AtlasGlyphEntry :=
  mkEntry (glyphIndex e) (shadingType e) (overlapSplit e) (offset e) (fst (size e), y) (texcoord e).
Definition with_texcoord_y (y : Z) (e : AtlasGlyphEntry) : AtlasGlyphEntry :=
  mkEntry (glyphIndex e) (shadingType e) (overlapSplit e) (offset e) (size e) (fst (texcoord e), y).

Definition _drawGlyphAllocateEntry (r : LineRendition) (f : option FontFace) (g : Z)
    : M AtlasGlyphEntry :=
  let* e := insertGlyph f r g in
  let e := with_shadingType Default e in
  writeGlyph f r e ;;
  ret e.

(** ** Double-height split *)

(** The two halves [(top, bottom)] that [_splitDoubleHeightGlyph] derives
    from [*glyphEntry]; both start as copies of the entry after its
    [offset.y -= descender]. *)
Definition splitHalves (fs : FontSettings) (e : AtlasGlyphEntry)
    : AtlasGlyphEntry * AtlasGlyphEntry :=
  let e := with_offset_y (i16 (snd (offset e) - descender fs)) e in
  let topSize := clamp (- snd (offset e) - baseline fs) 0 (snd (size e)) in
  let top := with_offset_y (i16 (snd (offset e) + snd (cellSize fs))) e in
  let top := with_size_y (u16 topSize) top in
  let bottom := with_offset_y (i16 (snd (offset e) + topSize)) e in
  let bottom := with_size_y (u16 (Z.max 0 (snd (size e) - topSize))) bottom in
  let bottom := with_texcoord_y (u16 (snd (texcoord e) + topSize)) bottom in
  let top := if snd (size top) =? 0 then with_shadingType Default top else top in
  let bottom := if snd (size bottom) =? 0 then with_shadingType Default bottom else bottom in
  (top, bottom).

Definition otherLineRendition (r : LineRendition) : LineRendition :=
  if decide (r = DoubleHeightTop) then DoubleHeightBottom else DoubleHeightTop.

(** Returns the half left in [*glyphEntry], the one of the row's own line
    rendition; the other half goes to the entry inserted under
    [otherLineRendition]. *)
Definition _splitDoubleHeightGlyph (p : RenderingPayload) (r : LineRendition)
    (f : option FontFace) (e : AtlasGlyphEntry) : M AtlasGlyphEntry :=
  let isTop := bool_decide (r = DoubleHeightTop) in
  let '(top, bottom) := splitHalves (font (s p)) e in
  let* _ := insertGlyph f (otherLineRendition r) (glyphIndex e) in
  writeGlyph f r (if isTop then top else bottom) ;;
  writeGlyph f (otherLineRendition r) (if isTop then bottom else top) ;;
  ret (if isTop then top else bottom).

(** ** Rasterisation *)

(** Modelled from the spec: [til::safe_slice_len] is not part of the sources;
    it yields the sub-span [start, start + len) clipped to the span, so that
    a soft-font index outside the pattern table gives a short or empty slice. *)
Definition safe_slice_len {A} (l : list A) (start len : Z) : list A :=
  take (Z.to_nat len) (drop (Z.to_nat start) l).

Definition _drawSoftFontGlyph (p : RenderingPayload) (g : Z) : M ShadingType :=
  let fs := font (s p) in
  let h := snd (softFontCellSize fs) in
  let softFontIndex := u32 (g - 0xEF20) in
  let data := safe_slice_len (softFontPattern fs) (h * softFontIndex) h in
  if bool_decide (data = []) || negb (Z.of_nat (length data) =? h)
  then ret Default
  else
    modify (set_softFontBitmap true) ;;
    ret TextGrayscale.

Definition _drawBuiltinGlyph (p : RenderingPayload) (r : LineRendition)
    (f : option FontFace) (g : Z) : M AtlasGlyphEntry :=
  let fs := font (s p) in
  let heightShift := if isDoubleHeight r then 1 else 0 in
  let w := if isDoubleWidth r then Z.shiftl (fst (cellSize fs)) 1 else fst (cellSize fs) in
  let h := if isDoubleWidth r then Z.shiftl (snd (cellSize fs)) heightShift else snd (cellSize fs) in
  let baseline' :=
    if isDoubleWidth r then u16 (Z.shiftl (baseline fs) heightShift) else baseline fs in
  let* xy := _drawGlyphAtlasAllocate p w h in
  modify _d2dBeginDrawing ;;
  let* shading :=
    (if IsSoftFontChar g then _drawSoftFontGlyph p g else ret TextBuiltinGlyph) in
  let* e := _drawGlyphAllocateEntry r f g in
  let e := mkEntry (glyphIndex e) shading false
             (0, i16 (- baseline')) (u16 w, u16 h) (u16 (fst xy), u16 (snd xy)) in
  writeGlyph f r e ;;
  if isDoubleHeight r then _splitDoubleHeightGlyph p r f e else ret e.

Definition boundsEmpty (bounds : Q * Q * (Q * Q)) : bool :=
  let '(bleft, btop, (bright, bbottom)) := bounds in
  Qle_bool bright bleft || Qle_bool bbottom btop.

Definition _drawGlyph (p : RenderingPayload) (r : LineRendition)
    (f : option FontFace) (g : Z) : M AtlasGlyphEntry :=
  match f with
  | None => _drawBuiltinGlyph p r f g
  | Some ff =>
      let fs := font (s p) in
      let glyphIndexU16 := u16 g in
      let scale := if isDoubleWidth r then 1 else 0 in
      let m11 := if isDoubleWidth r then 2 else 1 in
      let m22 := if isDoubleHeight r then 2 else 1 in
      let isColorGlyph := colorGlyphs fs && TranslateColorGlyphRun ff glyphIndexU16 in
      let bounds := glyphRunBounds fs ff glyphIndexU16 m11 m22 in
      if boundsEmpty bounds then _drawGlyphAllocateEntry r f g
      else
        let '(bleft, btop, (bright, bbottom)) := bounds in
        let bl := lrintf bleft in
        let bt := lrintf btop in
        let br := lrintf bright in
        let bb := lrintf bbottom in
        let w := br - bl in
        let h := bb - bt in
        let* xy := _drawGlyphAtlasAllocate p w h in
        modify _d2dBeginDrawing ;;
        let* triggerLeft := get (fun b => shl_i32 (_ligatureOverhangTriggerLeft b) scale) in
        let* triggerRight := get (fun b => shl_i32 (_ligatureOverhangTriggerRight b) scale) in
        let overlap := (fst (cellSize fs) <=? w) && ((bl <=? triggerLeft) || (triggerRight <=? br)) in
        let* e := _drawGlyphAllocateEntry r f g in
        let* textShading := get _textShadingType in
        let e := mkEntry (glyphIndex e)
                   (if isColorGlyph then TextPassthrough else textShading) overlap
                   (i16 bl, i16 bt) (u16 w, u16 h) (u16 (fst xy), u16 (snd xy)) in
        writeGlyph f r e ;;
        if isDoubleHeight r then _splitDoubleHeightGlyph p r f e else ret e
  end.

(** ** The cell grid *)

Definition cellCount : nat := Z.to_nat (cellRows * cellColumns).

Definition _uploadBackgroundBitmap (p : RenderingPayload) (b : BackendD3D) : BackendD3D :=
  set_backgroundBitmapGeneration (colorBitmapGenerations0 p) (log UploadBackgroundBitmap b).

(** The double loop of [_drawBackground] reads [y * 120 + x] of both colour
    bitmaps for every cell of the fixed grid and resets the glyph
    coordinates of every cell. *)
Definition _drawBackground (p : RenderingPayload) : M unit :=
  modify (fun b =>
    if _backgroundBitmapGeneration b =? colorBitmapGenerations0 p then b
    else _uploadBackgroundBitmap p b) ;;
  if (length (backgroundBitmap p) <? cellCount)%nat
     || (length (foregroundBitmap p) <? cellCount)%nat
  then throw IndexOutOfBounds
  else
    modify (set_cells
      (zip_with (fun bg fg => mkCell bg fg noGlyph noGlyph)
         (take cellCount (backgroundBitmap p))
         (take cellCount (foregroundBitmap p)))).

(** [_cells[cy][cx].glyphX = x; _cells[cy][cx].glyphY = y] *)
Definition setCellGlyph (cy cx : Z) (tx ty : Z) : M unit :=
  if (0 <=? cy) && (cy <? cellRows) && (0 <=? cx) && (cx <? cellColumns)
  then
    modify (fun b =>
      set_cells
        (alter (fun c => mkCell (background c) (foreground c) tx ty)
           (Z.to_nat (cy * cellColumns + cx)) (_cells b)) b)
  else throw IndexOutOfBounds.

(** [(cy, cx)]: the cell nearest the top left corner [(l, t)] of the glyph's
    ink, [l] and [t] being the rounded pen position plus the entry's offset. *)
Definition cellOf (fs : FontSettings) (l0 t0 : Z) (e : AtlasGlyphEntry) : Z * Z :=
  let l := l0 + fst (offset e) in
  let t := t0 + snd (offset e) in
  let cx := (l + fst (cellSize fs) ÷ 2) ÷ fst (cellSize fs) in
  let cy := (t + snd (cellSize fs) ÷ 2) ÷ snd (cellSize fs) in
  (cy, cx).

(** The body of [if (glyphEntry->shadingType != ShadingType::Default)]. *)
Definition stampGlyph (fs : FontSettings) (l0 t0 : Z) (e : AtlasGlyphEntry) : M unit :=
  if (fst (cellSize fs) =? 0) || (snd (cellSize fs) =? 0) then throw DivisionByZero
  else
    let '(cy, cx) := cellOf fs l0 t0 e in
    setCellGlyph cy cx (fst (texcoord e)) (snd (texcoord e)).

Definition index {A} (l : list A) (i : nat) : M A :=
  match l !! i with
  | Some a => ret a
  | None => throw IndexOutOfBounds
  end.

(** The [while (x < glyphsTo)] loop of one font mapping.  [x] grows by at
    least one per iteration, so [glyphsTo - glyphsFrom] iterations of fuel
    always reach [x >= glyphsTo].  Returns [baselineX]. *)
Fixpoint glyphLoop (fuel : nat) (p : RenderingPayload) (row : ShapedRow)
    (f : option FontFace) (baselineY scaleX scaleY : Q) (to : nat)
    (x : nat) (baselineX : Q) : M Q :=
  match fuel with
  | O => ret baselineX
  | S fuel' =>
      if (x <? to)%nat then
        let r := lineRendition row in
        let* g0 := index (glyphIndices row) x in
        let* gdx :=
          (if bool_decide (f = None) && is_leading_surrogate g0
           then
             let* g1 := index (glyphIndices row) (x + 1) in
             ret (combine_surrogates g0 g1, 2%nat)
           else ret (g0, 1%nat)) in
        let g := fst gdx in
        let dx := snd gdx in
        let* cached := get (lookupGlyph f r g) in
        let* e :=
          (match cached with
           | Some e => ret e
           | None => _drawGlyph p r f g
           end) in
        (if decide (shadingType e = Default) then ret tt
         else
           let* o := index (glyphOffsets row) x in
           let l := lrintf ((baselineX + advanceOffset o) * scaleX) in
           let t := lrintf ((baselineY - ascenderOffset o) * scaleY) in
           stampGlyph (font (s p)) l t e) ;;
        let* adv := index (glyphAdvances row) x in
        glyphLoop fuel' p row f baselineY scaleX scaleY to (x + dx)%nat (baselineX + adv)%Q
      else ret baselineX
  end.

Fixpoint mappingLoop (p : RenderingPayload) (row : ShapedRow)
    (baselineY scaleX scaleY : Q) (ms : list FontMapping) (baselineX : Q) : M Q :=
  match ms with
  | [] => ret baselineX
  | m :: ms' =>
      modify (insertFontFace (fontFace m)) ;;
      let* baselineX :=
        glyphLoop (glyphsTo m - glyphsFrom m) p row (fontFace m)
          baselineY scaleX scaleY (glyphsTo m) (glyphsFrom m) baselineX in
      mappingLoop p row baselineY scaleX scaleY ms' baselineX
  end.

(** One iteration of [for (const auto row : p.rows)]; [y] is the [u16] row
    counter. *)
Definition drawRow (p : RenderingPayload) (y : Z) (row : ShapedRow) : M unit :=
  let fs := font (s p) in
  let r := lineRendition row in
  let baselineY0 := inject_Z (y * snd (cellSize fs) + baseline fs) in
  let scaleX := if isDoubleWidth r then 2%Q else 1%Q in
  let scaleY := if isDoubleHeight r then 2%Q else 1%Q in
  let baselineY := if isDoubleHeight r then (baselineY0 / 2)%Q else baselineY0 in
  let* _ := mappingLoop p row baselineY scaleX scaleY (mappings row) 0%Q in
  ret tt.

Fixpoint rowLoop (p : RenderingPayload) (y : Z) (rs : list ShapedRow) : M unit :=
  match rs with
  | [] => ret tt
  | row :: rs' => drawRow p y row ;; rowLoop p (u16 (y + 1)) rs'
  end.

Definition _drawText (p : RenderingPayload) : M unit :=
  modify (fun b => if _fontChangedResetGlyphAtlas b then _resetGlyphAtlas p b else b) ;;
  rowLoop p 0 (rows p) ;;
  modify _d2dEndDrawing.

(** ** Render *)

Definition Render (p : RenderingPayload) : M unit :=
  modify (fun b =>
    if _generation b =? generation (s p) then b else _handleSettingsUpdate p b) ;;
  _drawBackground p ;;
  _drawText p ;;
  modify (_flushQuads p) ;;
  modify (fun b => if _customPixelShader b then log ExecuteCustomShader b else b).

(** The state left by the constructor: every member zero. *)
Definition initialBackend : BackendD3D :=
  {| _generation := 0;
     _fontGeneration := 0;
     _miscGeneration := 0;
     _targetSize := (0, 0);
     _viewportCellCount := (0, 0);
     _renderTargetView := false;
     _customRenderTargetView := false;
     _customPixelShader := false;
     _cellBuffer := false;
     _backgroundBitmapGeneration := 0;
     _fontChangedResetGlyphAtlas := false;
     _textShadingType := Default;
     _ligatureOverhangTriggerLeft := 0;
     _ligatureOverhangTriggerRight := 0;
     _softFontBitmap := false;
     _d2dBeganDrawing := false;
     _rectPacker := {| width := 0; height := 0; nodes := stbrp_init_target 0 0 |};
     _glyphAtlasMap := ∅;
     _builtinGlyphs := ∅;
     _cells := replicate cellCount (mkCell 0 0 0 0);
     trace := [] |}.

End Backend.

Arguments Ok {_ _} a b.
Arguments Fail {_ _} f b.

(** ** Rows of cells

    A shaped row as the layout stage delivers it for plain text: one font
    mapping over all its glyphs, one glyph per cell, each advancing the pen by
    the cell width [cw], none displaced from the pen position. *)
Definition cellRow (cw : Z) (ff : option FontFace) (r : LineRendition) (glyphs : list Z)
    : ShapedRow := {|
  mappings := [ {| fontFace := ff; glyphsFrom := 0; glyphsTo := length glyphs |} ];
  glyphIndices := glyphs;
  glyphAdvances := replicate (length glyphs) (inject_Z cw);
  glyphOffsets := replicate (length glyphs) {| advanceOffset := 0; ascenderOffset := 0 |};
  lineRendition := r;
|}.

(** ** A concrete platform

    Used to run the model on closed inputs: a shelf packer, a small table of
    glyph boxes for a 10 x 20 cell with the baseline at 15, and the [til] /
    [BuiltinGlyphs] predicates. *)
Module Sample.

(** Modelled from the spec: "an online rectangle-packing algorithm
    (skyline/shelf-based) over the live (u,v) texture"; [stb_rect_pack] is
    not part of the sources.  The state is the cursor [(x, y)] of the open
    shelf and the shelf height. *)
Definition shelf_pack (width height : Z) (n : Z * Z * Z) (w h : Z)
    : option (Z * Z * Z * (Z * Z)) :=
  let '(x, y, sh) := n in
  if (width <? w) || (height <? h) then None
  else if x + w <=? width then
    if y + h <=? height then Some ((x + w, y, Z.max sh h), (x, y)) else None
  else
    if y + sh + h <=? height then Some ((w, y + sh, h), (0, y + sh)) else None.

(** Glyph boxes (left, top, right, bottom) relative to the baseline origin,
    before the line-rendition transform. *)
Definition glyphBox (g : Z) : Z * Z * (Z * Z) :=
  if g =? 32 then (0, 0, (0, 0))            (* space: no ink *)
  else if g =? 46 then (3, -2, (6, 0))      (* full stop: ink next to the baseline *)
  else if g =? 65 then (1, -12, (9, 0))     (* capital letter *)
  else if g =? 1000 then (-6, -10, (25, 0)) (* two-cell ligature with overhang *)
  else if g =? 1001 then (-1, -10, (21, 0)) (* two-cell glyph without overhang *)
  else if g =? 1002 then (-3, -10, (9, 0))  (* ink starting 3 px left of the origin *)
  else (0, -10, (8, 0)).

Definition sampleBounds (fs : FontSettings) (ff : FontFace) (g m11 m22 : Z)
    : Q * Q * (Q * Q) :=
  let '(l, t, (r, b)) := glyphBox g in
  (inject_Z (l * m11), inject_Z (t * m22), (inject_Z (r * m11), inject_Z (b * m22))).

#[global] Instance platform : Platform := {|
  stbrp_nodes := Z * Z * Z;
  stbrp_init_target := fun _ _ => (0, 0, 0);
  stbrp_pack_rects := shelf_pack;
  glyphRunBounds := sampleBounds;
  TranslateColorGlyphRun := fun _ g => g =? 9000;
  D3DCompileFromFile := fun _ => true;
  LoadTextureFromFile := fun _ => true;
  is_leading_surrogate := fun g => Z.land g 0xFC00 =? 0xD800;
  combine_surrogates := fun lead trail => Z.shiftl lead 10 - 0x35FDC00 + trail;
  IsSoftFontChar := fun g => (0xEF20 <=? g) && (g <? 0xEF80);
|}.

Definition sampleFont (features : list (Z * Z)) : FontSettings := {|
  font_generation := 1;
  cellSize := (10, 20);
  advanceWidth := 10;
  baseline := 15;
  descender := 5;
  fontFeatures := features;
  antialiasingMode := Grayscale;
  colorGlyphs := false;
  softFontPattern := [];
  softFontCellSize := (0, 0);
|}.

Definition sampleMisc : MiscSettings := {|
  misc_generation := 1;
  customPixelShaderPath := [];
  customPixelShaderImagePath := [];
  useRetroTerminalEffect := false;
|}.

Definition sampleSettings (fs : FontSettings) (target cells : Z * Z) : Settings := {|
  generation := 1;
  font := fs;
  misc := sampleMisc;
  targetSize := target;
  viewportCellCount := cells;
|}.

Definition textRow (ff : option FontFace) (r : LineRendition) (glyphs : list Z) : ShapedRow :=
  cellRow 10 ff r glyphs.

Definition emptyRow : ShapedRow := textRow None SingleWidth [].

Definition samplePayload (st : Settings) (rs : list ShapedRow) : RenderingPayload := {|
  s := st;
  rows := rs;
  backgroundBitmap := replicate (Z.to_nat (fst (viewportCellCount st) * snd (viewportCellCount st))) 0;
  foregroundBitmap := replicate (Z.to_nat (fst (viewportCellCount st) * snd (viewportCellCount st))) 0xffffff;
  colorBitmapGenerations0 := 1;
|}.

End Sample.

(** * Properties *)

#[global] Arguments u32 _ : simpl never.
#[global] Arguments u16 _ : simpl never.
#[global] Arguments i16 _ : simpl never.
#[global] Arguments i32 _ : simpl never.
#[global] Arguments shl_i32 _ _ : simpl never.
#[global] Arguments clamp _ _ _ : simpl never.
#[global] Arguments lrintf _ : simpl never.
#[global] Arguments atlasArea _ _ _ _ : simpl never.
#[global] Arguments atlasSize _ : simpl never.
#[global] Arguments _resetGlyphAtlas {_} _ _ : simpl never.
#[global] Arguments _flushQuads {_} _ _ : simpl never.
#[global] Arguments _d2dEndDrawing {_} _ : simpl never.
#[global] Arguments _d2dBeginDrawing {_} _ : simpl never.
#[global] Arguments _handleSettingsUpdate {_} _ _ : simpl never.
#[global] Arguments _updateFontDependents {_} _ _ : simpl never.
#[global] Arguments storeGlyph {_} _ _ _ _ : simpl never.
#[global] Arguments lookupGlyph {_} _ _ _ _ : simpl never.
#[global] Arguments insertFontFace {_} _ _ : simpl never.
#[global] Arguments splitHalves _ _ : simpl never.
#[global] Arguments log {_} _ _ : simpl never.

(** ** Machine integers *)

Lemma u32_id z : 0 <= z < 2 ^ 32 -> u32 z = z.
Proof. intros; unfold u32; apply Z.mod_small; lia. Qed.

Lemma u16_id z : 0 <= z < 2 ^ 16 -> u16 z = z.
Proof. intros; unfold u16; apply Z.mod_small; lia. Qed.

Lemma i16_id z : - 2 ^ 15 <= z < 2 ^ 15 -> i16 z = z.
Proof. intros; unfold i16; rewrite Z.mod_small; lia. Qed.

Lemma i32_id z : - 2 ^ 31 <= z < 2 ^ 31 -> i32 z = z.
Proof. intros; unfold i32; rewrite Z.mod_small; lia. Qed.

Lemma u32_range z : 0 <= u32 z < 2 ^ 32.
Proof. unfold u32; apply Z.mod_pos_bound; lia. Qed.

Lemma u16_range z : 0 <= u16 z < 2 ^ 16.
Proof. unfold u16; apply Z.mod_pos_bound; lia. Qed.

Lemma u32_mul_l a b : u32 (u32 a * b) = u32 (a * b).
Proof. unfold u32; apply Z.mul_mod_idemp_l; lia. Qed.

Lemma clamp_range v lo hi : lo <= hi -> lo <= clamp v lo hi <= hi.
Proof.
  intros Hle; unfold clamp.
  destruct (Z.ltb_spec v lo); [lia |].
  destruct (Z.ltb_spec hi v); lia.
Qed.

Lemma clamp_ge v lo hi x : x <= v -> x <= hi -> lo <= hi -> x <= clamp v lo hi.
Proof.
  intros Hv Hhi Hle; unfold clamp.
  destruct (Z.ltb_spec v lo); [lia |].
  destruct (Z.ltb_spec hi v); lia.
Qed.

Lemma clamp_inside v lo hi : lo <= v <= hi -> clamp v lo hi = v.
Proof.
  intros Hv; unfold clamp.
  destruct (Z.ltb_spec v lo); [lia |].
  destruct (Z.ltb_spec hi v); lia.
Qed.

(** ** Atlas sizing *)

Lemma atlasArea_range cs ts w h : minArea <= atlasArea cs ts w h <= maxArea.
Proof. unfold atlasArea; apply clamp_range; vm_compute; discriminate. Qed.

(** Between [minArea] and [maxArea] the bit index of [area - 1] is one of
    19 .. 25, and both shifts stay inside 16 bits. *)
Lemma BitScanReverse_area a :
  minArea <= a <= maxArea ->
  19 <= BitScanReverse (u32 (a - 1)) <= 25 /\
  2 ^ BitScanReverse (u32 (a - 1)) <= a - 1 < 2 ^ (BitScanReverse (u32 (a - 1)) + 1).
Proof.
  unfold minArea, maxArea, D3D10_REQ_TEXTURE2D_U_OR_V_DIMENSION, BitScanReverse.
  intros Ha. rewrite u32_id by lia.
  pose proof (Z.log2_spec (a - 1) ltac:(lia)) as Hs.
  split; [| exact Hs].
  split.
  - apply Z.log2_le_pow2; lia.
  - assert (Z.log2 (a - 1) < 26); [apply Z.log2_lt_pow2; lia | lia].
Qed.

Lemma atlasSize_pow2 a :
  minArea <= a <= maxArea ->
  exists i j, 0 <= j <= i /\ i <= 13 /\ i <= j + 1 /\
    atlasSize a = (2 ^ i, 2 ^ j) /\ a <= 2 ^ i * 2 ^ j /\ 2 ^ i * 2 ^ j < 2 * a.
Proof.
  intros Ha. destruct (BitScanReverse_area a Ha) as [Hi Hs].
  unfold atlasSize. set (k := BitScanReverse (u32 (a - 1))) in *.
  exists ((k + 2) / 2), ((k + 1) / 2).
  assert (Hk : k = 19 \/ k = 20 \/ k = 21 \/ k = 22 \/ k = 23 \/ k = 24 \/ k = 25) by lia.
  destruct Hk as [-> | [-> | [-> | [-> | [-> | [-> | ->]]]]]];
    repeat match goal with
      | |- context [(?n + ?c) / 2] =>
          let v := eval vm_compute in ((n + c) / 2) in change ((n + c) / 2) with v
      end;
    (split; [lia |]); (split; [lia |]); (split; [lia |]);
    (split; [reflexivity |]); simpl in Hs |- *; lia.
Qed.

(** The example of the source comment: an area of 985 x 1946 gives a
    2048 x 1024 texture. *)
Example atlasSize_985x1946 : atlasSize (985 * 1946) = (2048, 1024).
Proof. reflexivity. Qed.

(** Where no 32-bit product wraps, the area computed by the code is the
    growth policy of the design. *)
Lemma atlasArea_growthPolicy cs ts w h :
  0 <= fst cs -> 0 <= snd cs -> 95 * (fst cs * snd cs) < 2 ^ 32 ->
  0 <= fst ts -> 0 <= snd ts -> 5 * (fst ts * snd ts) / 4 < 2 ^ 32 ->
  0 <= w -> 0 <= h -> 2 * (w * h) < 2 ^ 32 ->
  atlasArea cs ts w h = growthPolicy (fst cs * snd cs) (w * h) (fst ts * snd ts).
Proof.
  intros Hc1 Hc2 Hc Ht1 Ht2 Ht Hw Hh Hp.
  assert (Hdiv : 5 * (fst ts * snd ts) / 4 = fst ts * snd ts + fst ts * snd ts / 4).
  { replace (5 * (fst ts * snd ts)) with (fst ts * snd ts * 4 + fst ts * snd ts) by lia.
    rewrite Z.div_add_l by lia. lia. }
  assert (0 <= fst ts * snd ts / 4) by (apply Z.div_pos; lia).
  unfold atlasArea, growthPolicy, maxAreaByFont, minAreaByFont, minAreaByGrowth,
    cellArea, targetArea.
  rewrite Hdiv, !u32_mul_l.
  rewrite <- !Z.mul_assoc, !u32_mul_l.
  rewrite (u32_id (fst ts * snd ts)) by lia.
  rewrite (u32_id (fst cs * _)) by lia.
  rewrite (u32_id (w * _)) by lia.
  rewrite (u32_id (fst ts * snd ts + _)) by lia.
  f_equal. f_equal. f_equal; lia.
Qed.

Section Properties.
Context `{Platform}.

(** *** What a reset leaves behind *)

Lemma resetGlyphAtlas_rectPacker p b :
  _rectPacker (_resetGlyphAtlas p b) =
    let uv := atlasSize (atlasArea (cellSize (font (s p))) (targetSize (s p))
                           (width (_rectPacker b)) (height (_rectPacker b))) in
    {| width := fst uv; height := snd uv; nodes := stbrp_init_target (fst uv) (snd uv) |}.
Proof.
  unfold _resetGlyphAtlas.
  destruct (atlasSize _) as [u v]; simpl.
  unfold _d2dBeginDrawing.
  destruct (negb _ || negb _); simpl; destruct (_d2dBeganDrawing b); reflexivity.
Qed.

Lemma resetGlyphAtlas_glyphAtlasMap p b :
  _glyphAtlasMap (_resetGlyphAtlas p b) = (fun _ : Glyphs => (∅ : Glyphs)) <$> _glyphAtlasMap b.
Proof.
  unfold _resetGlyphAtlas.
  destruct (atlasSize _) as [u v]; simpl.
  unfold _d2dBeginDrawing.
  destruct (negb _ || negb _); simpl; destruct (_d2dBeganDrawing b); reflexivity.
Qed.

Lemma resetGlyphAtlas_builtinGlyphs p b : _builtinGlyphs (_resetGlyphAtlas p b) = ∅.
Proof.
  unfold _resetGlyphAtlas.
  destruct (atlasSize _) as [u v]; simpl.
  unfold _d2dBeginDrawing.
  destruct (negb _ || negb _); simpl; destruct (_d2dBeganDrawing b); reflexivity.
Qed.

Lemma resetGlyphAtlas_trace p b :
  trace (_resetGlyphAtlas p b) =
    let uv := atlasSize (atlasArea (cellSize (font (s p))) (targetSize (s p))
                           (width (_rectPacker b)) (height (_rectPacker b))) in
    trace b
    ++ (if negb (fst uv =? width (_rectPacker b)) || negb (snd uv =? height (_rectPacker b))
        then [ResizeGlyphAtlas (fst uv) (snd uv)] else [])
    ++ [ResetGlyphAtlas].
Proof.
  unfold _resetGlyphAtlas.
  destruct (atlasSize _) as [u v]; simpl.
  unfold _d2dBeginDrawing.
  destruct (negb _ || negb _); simpl; destruct (_d2dBeganDrawing b); simpl;
    rewrite <- ?app_assoc; reflexivity.
Qed.

(** C2.  On every atlas reset the new packer/texture size [(u, v)] is a pair
    of powers of two whose product is at least the target area; the target
    area is the larger of 95 cell areas and twice the packer area, capped at
    1.25 times the surface area and clamped into [minArea, maxArea] (the
    products taken as the code takes them, in 32 bits, which is the growth
    policy itself wherever they do not wrap); and every area [a] within
    [minArea, maxArea] yields powers of two with product at least [a]. *)
Theorem resetGlyphAtlas_power_of_two (p : RenderingPayload) (b : BackendD3D) (a : Z) :
  minArea <= a <= maxArea ->
  let cs := cellSize (font (s p)) in
  let ts := targetSize (s p) in
  let w := width (_rectPacker b) in
  let h := height (_rectPacker b) in
  let area := atlasArea cs ts w h in
  let b' := _resetGlyphAtlas p b in
  area = clamp (Z.min (maxAreaByFont ts) (Z.max (minAreaByFont cs) (minAreaByGrowth w h)))
           minArea maxArea
  /\ minArea <= area <= maxArea
  /\ (exists i j, 0 <= i /\ 0 <= j
        /\ width (_rectPacker b') = 2 ^ i /\ height (_rectPacker b') = 2 ^ j
        /\ area <= width (_rectPacker b') * height (_rectPacker b'))
  /\ (0 <= fst cs -> 0 <= snd cs -> 95 * (fst cs * snd cs) < 2 ^ 32 ->
      0 <= fst ts -> 0 <= snd ts -> 5 * (fst ts * snd ts) / 4 < 2 ^ 32 ->
      0 <= w -> 0 <= h -> 2 * (w * h) < 2 ^ 32 ->
      area = growthPolicy (fst cs * snd cs) (w * h) (fst ts * snd ts))
  /\ (exists i j, 0 <= i /\ 0 <= j /\ atlasSize a = (2 ^ i, 2 ^ j) /\ a <= 2 ^ i * 2 ^ j).
Proof.
  intros Ha cs ts w h area b'.
  split; [reflexivity |].
  split; [apply atlasArea_range |].
  split.
  - destruct (atlasSize_pow2 area (atlasArea_range cs ts w h))
      as (i & j & Hj & Hi & _ & Hsz & Hge & _).
    exists i, j. subst b'. rewrite resetGlyphAtlas_rectPacker.
    fold cs ts w h area. rewrite Hsz. simpl. repeat split; lia.
  - split; [apply atlasArea_growthPolicy |].
    destruct (atlasSize_pow2 a Ha) as (i & j & Hj & Hi & _ & Hsz & Hge & _).
    exists i, j. repeat split; try lia. exact Hsz.
Qed.

(** *** Growth and shrinkage across resets *)

(** C8, as the code has it.  A reset re-creates the atlas texture exactly
    when the computed size differs from the packer's; the new area is never
    below [minArea]; and it is not below the current packer area as long as
    1.25 times the surface area (as computed) still covers the current area. *)
Theorem resetGlyphAtlas_area_monotone (p : RenderingPayload) (b : BackendD3D) :
  let w := width (_rectPacker b) in
  let h := height (_rectPacker b) in
  let b' := _resetGlyphAtlas p b in
  let u := width (_rectPacker b') in
  let v := height (_rectPacker b') in
  (In (ResizeGlyphAtlas u v) (drop (length (trace b)) (trace b')) <-> (u, v) <> (w, h))
  /\ minArea <= u * v
  /\ (0 <= w -> 0 <= h -> w * h <= maxArea ->
      w * h <= maxAreaByFont (targetSize (s p)) ->
      w * h <= u * v).
Proof.
  intros w h b' u v.
  pose proof (atlasArea_range (cellSize (font (s p))) (targetSize (s p)) w h) as Hr.
  set (area := atlasArea (cellSize (font (s p))) (targetSize (s p)) w h) in *.
  assert (Huv : atlasSize area = (u, v)).
  { subst u v b'. rewrite resetGlyphAtlas_rectPacker. fold w h area.
    destruct (atlasSize area); reflexivity. }
  assert (Htr : drop (length (trace b)) (trace b') =
                (if negb (u =? w) || negb (v =? h) then [ResizeGlyphAtlas u v] else [])
                ++ [ResetGlyphAtlas]).
  { subst b'. rewrite resetGlyphAtlas_trace. fold w h area.
    rewrite drop_app_length, Huv. reflexivity. }
  clearbody u v b'.
  destruct (atlasSize_pow2 _ Hr) as (i & j & Hj & Hi & _ & Hsz & Hge & _).
  rewrite Huv in Hsz. injection Hsz as Hu Hv.
  split; [| split].
  - rewrite Htr.
    destruct (Z.eqb_spec u w) as [Huw | Huw]; simpl.
    + destruct (Z.eqb_spec v h) as [Hvh | Hvh]; simpl.
      * split; [intros [Hc | []]; discriminate | congruence].
      * split; [intros _; congruence | auto].
    + split; [intros _; congruence | auto].
  - subst u v. unfold area in *. lia.
  - intros Hw Hh Hmax Hcap. subst u v.
    apply Z.le_trans with (2 := Hge).
    unfold area, atlasArea. apply clamp_ge; [| lia | vm_compute; discriminate].
    pose proof (Z.mul_nonneg_nonneg w h Hw Hh) as Hwh.
    unfold minAreaByGrowth. rewrite u32_mul_l, <- Z.mul_assoc, u32_mul_l.
    unfold maxArea, D3D10_REQ_TEXTURE2D_U_OR_V_DIMENSION in Hmax.
    rewrite u32_id by lia. lia.
Qed.

End Properties.

(** ** Closed instances on the sample platform *)

(** Decides closed comparisons and equalities by evaluation. *)
Ltac by_eval :=
  intros;
  repeat match goal with |- _ /\ _ => split end;
  vm_compute;
  repeat match goal with |- _ /\ _ => split end;
  first [reflexivity | discriminate | intros ?; discriminate].

Definition fullHD : RenderingPayload :=
  Sample.samplePayload (Sample.sampleSettings (Sample.sampleFont []) (1920, 1080) (120, 30)) [].

Definition smallWindow : RenderingPayload :=
  Sample.samplePayload (Sample.sampleSettings (Sample.sampleFont []) (800, 600) (120, 30)) [].

Definition packerArea (b : BackendD3D) : Z :=
  width (_rectPacker b) * height (_rectPacker b).

Lemma resetGlyphAtlas_power_of_two_witness :
  minArea <= 985 * 1946 <= maxArea
  /\ atlasArea (10, 20) (1920, 1080) 0 0 = growthPolicy (10 * 20) (0 * 0) (1920 * 1080)
  /\ exists i j, 0 <= i /\ 0 <= j
       /\ atlasSize (985 * 1946) = (2 ^ i, 2 ^ j) /\ 985 * 1946 <= 2 ^ i * 2 ^ j.
Proof.
  assert (Ha : minArea <= 985 * 1946 <= maxArea) by by_eval.
  destruct (resetGlyphAtlas_power_of_two fullHD initialBackend _ Ha)
    as (_ & _ & _ & Hexact & Hpow).
  split; [exact Ha |].
  split; [apply Hexact; by_eval | exact Hpow].
Defined.

(** C8, refuted as stated: three resets at a 1920 x 1080 surface grow the
    atlas to 2048 x 2048; the next reset, with the same font but an 800 x 600
    surface, re-creates it at 1024 x 1024. *)
Lemma resetGlyphAtlas_shrinks :
  let b3 := _resetGlyphAtlas fullHD (_resetGlyphAtlas fullHD (_resetGlyphAtlas fullHD initialBackend)) in
  let b4 := _resetGlyphAtlas smallWindow b3 in
  font (s smallWindow) = font (s fullHD)
  /\ (width (_rectPacker b3), height (_rectPacker b3)) = (2048, 2048)
  /\ (width (_rectPacker b4), height (_rectPacker b4)) = (1024, 1024)
  /\ packerArea b4 < packerArea b3
  /\ trace b4 = trace b3 ++ [ResizeGlyphAtlas 1024 1024; ResetGlyphAtlas].
Proof. by_eval. Qed.

Lemma resetGlyphAtlas_area_monotone_witness :
  let b := _resetGlyphAtlas fullHD initialBackend in
  let b' := _resetGlyphAtlas fullHD b in
  packerArea b <= maxAreaByFont (targetSize (s fullHD))
  /\ packerArea b <= packerArea b'.
Proof.
  intros b b'.
  assert (Hcap : packerArea b <= maxAreaByFont (targetSize (s fullHD))) by by_eval.
  split; [exact Hcap |].
  destruct (resetGlyphAtlas_area_monotone fullHD b) as (_ & _ & Hmono).
  apply Hmono; [by_eval | by_eval | by_eval | exact Hcap].
Defined.

(** ** Glyph cache and double-height split *)

Section CacheProperties.
Context `{Platform}.

Lemma glyphsOf_setGlyphsOf f f' m b :
  glyphsOf f (setGlyphsOf f' m b) = if decide (f = f') then m else glyphsOf f b.
Proof.
  destruct (decide (f = f')) as [-> | Hne].
  - destruct f' as [ff' |]; simpl; [by rewrite lookup_insert_eq | reflexivity].
  - destruct f as [ff |], f' as [ff' |]; simpl; try reflexivity; try congruence.
    rewrite lookup_insert_ne; [reflexivity | congruence].
Qed.

Lemma lookupGlyph_storeGlyph f r g f' r' e b :
  lookupGlyph f r g (storeGlyph f' r' e b) =
    if decide ((f, r, g) = (f', r', glyphIndex e)) then Some e else lookupGlyph f r g b.
Proof.
  unfold lookupGlyph, storeGlyph. rewrite glyphsOf_setGlyphsOf.
  destruct (decide (f = f')) as [-> | Hf].
  - destruct (decide ((r, g) = (r', glyphIndex e))) as [Heq | Hne].
    + rewrite Heq, lookup_insert_eq. injection Heq as -> ->.
      by rewrite decide_True.
    + rewrite lookup_insert_ne by congruence.
      rewrite decide_False; [reflexivity | congruence].
  - rewrite decide_False; [reflexivity | congruence].
Qed.

Lemma lookupGlyph_insertFontFace f r g f' b :
  lookupGlyph f r g (insertFontFace f' b) = lookupGlyph f r g b.
Proof.
  unfold insertFontFace. destruct f' as [ff' |]; [| reflexivity].
  destruct (_glyphAtlasMap b !! ff') eqn:Hl; [reflexivity |].
  unfold lookupGlyph. destruct f as [ff |]; [| reflexivity]. simpl.
  destruct (decide (ff = ff')) as [-> | Hne].
  - by rewrite lookup_insert_eq, Hl.
  - by rewrite lookup_insert_ne.
Qed.

Lemma lookupGlyph_resetGlyphAtlas p f r g b :
  lookupGlyph f r g (_resetGlyphAtlas p b) = None.
Proof.
  unfold lookupGlyph, glyphsOf. destruct f as [ff |].
  - rewrite resetGlyphAtlas_glyphAtlasMap, lookup_fmap.
    by destruct (_glyphAtlasMap b !! ff).
  - by rewrite resetGlyphAtlas_builtinGlyphs.
Qed.

(** *** The two halves *)

Lemma splitHalves_spec fs e :
  in_u16 (snd (size e)) ->
  0 <= snd (texcoord e) -> snd (texcoord e) + snd (size e) < 2 ^ 16 ->
  let topSize :=
    clamp (- i16 (snd (offset e) - descender fs) - baseline fs) 0 (snd (size e)) in
  let top := fst (splitHalves fs e) in
  let bottom := snd (splitHalves fs e) in
  0 <= topSize <= snd (size e)
  /\ size top = (fst (size e), topSize)
  /\ size bottom = (fst (size e), snd (size e) - topSize)
  /\ texcoord top = texcoord e
  /\ texcoord bottom = (fst (texcoord e), snd (texcoord e) + topSize)
  /\ shadingType top = (if topSize =? 0 then Default else shadingType e)
  /\ shadingType bottom = (if snd (size e) - topSize =? 0 then Default else shadingType e)
  /\ glyphIndex top = glyphIndex e /\ glyphIndex bottom = glyphIndex e
  /\ overlapSplit top = overlapSplit e /\ overlapSplit bottom = overlapSplit e.
Proof.
  intros Hsz Ht0 Ht topSize top bottom.
  destruct e as [g sh ov [ox oy] [sx sy] [tx ty]]; unfold in_u16 in Hsz; simpl in *.
  assert (Hts : 0 <= topSize <= sy) by (apply clamp_range; lia).
  subst top bottom. unfold splitHalves; simpl. fold topSize.
  rewrite (u16_id topSize) by lia.
  rewrite (u16_id (Z.max 0 (sy - topSize))) by lia.
  rewrite (u16_id (ty + topSize)) by lia.
  rewrite Z.max_r by lia.
  split; [exact Hts |].
  destruct (topSize =? 0); destruct (sy - topSize =? 0); simpl; repeat split; reflexivity.
Qed.

Lemma insertGlyph_run f r g b :
  insertGlyph f r g b
    = Ok (default (blankEntry g) (lookupGlyph f r g b)) (stateOf (insertGlyph f r g b)).
Proof.
  unfold insertGlyph, lookupGlyph. destruct (glyphsOf f b !! (r, g)); reflexivity.
Qed.

Lemma splitDoubleHeightGlyph_run p r f e b :
  _splitDoubleHeightGlyph p r f e b =
    let halves := splitHalves (font (s p)) e in
    let own := if bool_decide (r = DoubleHeightTop) then fst halves else snd halves in
    let other := if bool_decide (r = DoubleHeightTop) then snd halves else fst halves in
    Ok own
      (storeGlyph f (otherLineRendition r) other
         (storeGlyph f r own
            (stateOf (insertGlyph f (otherLineRendition r) (glyphIndex e) b)))).
Proof.
  unfold _splitDoubleHeightGlyph.
  destruct (splitHalves (font (s p)) e) as [top bottom]; simpl.
  unfold bind. rewrite insertGlyph_run. reflexivity.
Qed.

(** C4.  Splitting a glyph rasterised for a double-height row stores a top
    entry and a bottom entry whose heights add up to the glyph's height,
    the top height being the split point clamped into [0, height]; the top
    half keeps the texture coordinate, the bottom half starts
    [top.size.y] below it; and a half of height zero gets shading type
    [Default]. *)
Theorem splitDoubleHeightGlyph_halves (p : RenderingPayload) (r : LineRendition)
    (f : option FontFace) (e : AtlasGlyphEntry) (b : BackendD3D) :
  isDoubleHeight r = true ->
  in_u16 (snd (size e)) ->
  0 <= snd (texcoord e) -> snd (texcoord e) + snd (size e) < 2 ^ 16 ->
  exists top bottom b',
    _splitDoubleHeightGlyph p r f e b
      = Ok (if decide (r = DoubleHeightTop) then top else bottom) b'
    /\ lookupGlyph f DoubleHeightTop (glyphIndex e) b' = Some top
    /\ lookupGlyph f DoubleHeightBottom (glyphIndex e) b' = Some bottom
    /\ snd (size top) + snd (size bottom) = snd (size e)
    /\ snd (size top)
       = clamp (- i16 (snd (offset e) - descender (font (s p))) - baseline (font (s p)))
           0 (snd (size e))
    /\ texcoord top = texcoord e
    /\ fst (texcoord bottom) = fst (texcoord top)
    /\ snd (texcoord bottom) = snd (texcoord top) + snd (size top)
    /\ (snd (size top) = 0 -> shadingType top = Default)
    /\ (snd (size bottom) = 0 -> shadingType bottom = Default)
    /\ (snd (size top) <> 0 -> shadingType top = shadingType e)
    /\ (snd (size bottom) <> 0 -> shadingType bottom = shadingType e).
Proof.
  intros Hr Hsz Ht0 Ht.
  destruct (splitHalves_spec (font (s p)) e Hsz Ht0 Ht)
    as (Hts & Hst & Hsb & Htt & Htb & Hsht & Hshb & Hgt & Hgb & _).
  set (topSize := clamp _ 0 _) in *.
  rewrite splitDoubleHeightGlyph_run.
  destruct (splitHalves (font (s p)) e) as [top bottom]; simpl in *.
  exists top, bottom. eexists. split.
  { destruct r; try discriminate; reflexivity. }
  rewrite !lookupGlyph_storeGlyph.
  split; [| split].
  - destruct r; try discriminate; unfold otherLineRendition; simpl;
      rewrite ?Hgt, ?Hgb;
      repeat (case_decide; simplify_eq; try reflexivity; try congruence).
  - destruct r; try discriminate; unfold otherLineRendition; simpl;
      rewrite ?Hgt, ?Hgb;
      repeat (case_decide; simplify_eq; try reflexivity; try congruence).
  - rewrite Hst, Hsb, Htt, Htb, Hsht, Hshb; simpl.
    repeat split; try lia.
    + intros ->. reflexivity.
    + intros Hz. by rewrite Hz.
    + intros Hz. destruct (Z.eqb_spec topSize 0); [contradiction | reflexivity].
    + intros Hz. destruct (Z.eqb_spec (snd (size e) - topSize) 0); [contradiction | reflexivity].
Qed.

End CacheProperties.

(** ** Atlas allocation *)

(** The events of [_handleSettingsUpdate]: resources created or recreated
    because a setting changed. *)
Definition settingsEvent (e : Event) : bool :=
  match e with
  | CreateRenderTargetView | UpdateFontDependents | RecreateCustomShader
  | RecreateBackgroundColorBitmap | RecreateCustomRenderTargetView
  | RecreateConstBuffer => true
  | _ => false
  end.

Definition isReset (e : Event) : bool :=
  match e with ResetGlyphAtlas => true | _ => false end.
Definition isPack (e : Event) : bool :=
  match e with PackRects _ _ _ => true | _ => false end.
Definition isFailedPack (e : Event) : bool :=
  match e with PackRects _ _ false => true | _ => false end.

(** The events a call appended to the trace. *)
Definition since `{Platform} (b b' : BackendD3D) : list Event :=
  drop (length (trace b)) (trace b').

Section Allocation.
Context `{Platform}.

(** The state in which the retry runs: drawing ended, the grid flushed, the
    atlas reset. *)
Definition afterOverflow (p : RenderingPayload) (w h : Z) (b : BackendD3D) : BackendD3D :=
  _resetGlyphAtlas p (_flushQuads p (_d2dEndDrawing (log (PackRects w h false) b))).

Definition packed (w h : Z) (n : stbrp_nodes) (b : BackendD3D) : BackendD3D :=
  log (PackRects w h true)
    (set_rectPacker
       {| width := width (_rectPacker b); height := height (_rectPacker b); nodes := n |} b).

Definition tryPack (w h : Z) (b : BackendD3D) : option (stbrp_nodes * (Z * Z)) :=
  stbrp_pack_rects (width (_rectPacker b)) (height (_rectPacker b)) (nodes (_rectPacker b)) w h.

Lemma drawGlyphAtlasAllocate_run p w h b :
  _drawGlyphAtlasAllocate p w h b =
    match tryPack w h b with
    | Some (n, xy) => Ok xy (packed w h n b)
    | None =>
        match tryPack w h (afterOverflow p w h b) with
        | Some (n, xy) => Ok xy (packed w h n (afterOverflow p w h b))
        | None =>
            Fail ERROR_POSSIBLE_DEADLOCK
              (log (PackRects w h false) (afterOverflow p w h b))
        end
    end.
Proof.
  unfold _drawGlyphAtlasAllocate, bind, pack, tryPack.
  destruct (stbrp_pack_rects _ _ _ w h) as [[n xy] |] eqn:Hp1; [reflexivity |].
  unfold modify, ret, throw. cbn beta iota. fold (afterOverflow p w h b).
  destruct (stbrp_pack_rects (width (_rectPacker (afterOverflow p w h b))) _ _ w h)
    as [[n xy] |]; reflexivity.
Qed.

Lemma trace_flushQuads p b :
  trace (_flushQuads p b) =
    trace b ++ (if _cellBuffer b then [] else [CreateCellBuffer]) ++ [Dispatch].
Proof.
  unfold _flushQuads. destruct (_cellBuffer b); simpl; [reflexivity |].
  by rewrite <- app_assoc.
Qed.

Lemma trace_d2dEndDrawing b :
  trace (_d2dEndDrawing b) = trace b ++ (if _d2dBeganDrawing b then [EndDraw] else []).
Proof.
  unfold _d2dEndDrawing. destruct (_d2dBeganDrawing b); simpl; [reflexivity |].
  by rewrite app_nil_r.
Qed.

Lemma trace_afterOverflow p w h b :
  exists evs,
    trace (afterOverflow p w h b) = trace b ++ PackRects w h false :: evs ++ [ResetGlyphAtlas]
    /\ forallb (fun e => negb (isReset e) && negb (isPack e)) evs = true.
Proof.
  unfold afterOverflow.
  rewrite resetGlyphAtlas_trace, trace_flushQuads, trace_d2dEndDrawing.
  cbv zeta. change (trace (log ?e ?x)) with (trace x ++ [e]).
  set (resize := if negb _ || negb _ then _ else _).
  set (began := if _d2dBeganDrawing _ then _ else _).
  set (buffer := if _cellBuffer _ then _ else _).
  exists (began ++ buffer ++ [Dispatch] ++ resize). split.
  - rewrite <- !app_assoc. reflexivity.
  - subst resize began buffer.
    destruct (_d2dBeganDrawing _), (_cellBuffer _), (negb _ || negb _); reflexivity.
Qed.

Lemma trace_log e b : trace (log e b) = trace b ++ [e].
Proof. reflexivity. Qed.

Lemma trace_packed w h n b : trace (packed w h n b) = trace b ++ [PackRects w h true].
Proof. reflexivity. Qed.

(** C3.  An allocation request that the packer satisfies performs no reset.
    One that it refuses performs exactly one reset and exactly one further
    packing attempt, in the reset atlas; that retry either succeeds or the
    call leaves by throwing [ERROR_POSSIBLE_DEADLOCK]. *)
Theorem drawGlyphAtlasAllocate_single_retry (p : RenderingPayload) (w h : Z) (b : BackendD3D) :
  let r := _drawGlyphAtlasAllocate p w h b in
  let evs := since b (stateOf r) in
  (forall n xy, tryPack w h b = Some (n, xy) ->
     r = Ok xy (packed w h n b)
     /\ length (filter (fun e => isReset e = true) evs) = 0%nat
     /\ length (filter (fun e => isPack e = true) evs) = 1%nat)
  /\ (tryPack w h b = None ->
     length (filter (fun e => isReset e = true) evs) = 1%nat
     /\ length (filter (fun e => isPack e = true) evs) = 2%nat
     /\ (forall n xy, tryPack w h (afterOverflow p w h b) = Some (n, xy) ->
           r = Ok xy (packed w h n (afterOverflow p w h b)))
     /\ (tryPack w h (afterOverflow p w h b) = None ->
           exists b', r = Fail ERROR_POSSIBLE_DEADLOCK b')).
Proof.
  intros r evs. subst r evs. rewrite drawGlyphAtlasAllocate_run. unfold since.
  split.
  - intros n xy ->. cbn [stateOf]. rewrite trace_packed, drop_app_length. auto.
  - intros ->.
    destruct (trace_afterOverflow p w h b) as (mid & Htr & Hmid).
    assert (Hr : filter (fun e => isReset e = true) mid = []
                 /\ filter (fun e => isPack e = true) mid = []).
    { clear Htr. induction mid as [| e mid IH]; [done |].
      cbn [forallb] in Hmid. apply andb_prop in Hmid as [He Hmid].
      apply andb_prop in He as [He1 He2].
      destruct (IH Hmid) as [IH1 IH2].
      rewrite !filter_cons, IH1, IH2.
      destruct (isReset e), (isPack e); try discriminate. done. }
    destruct Hr as [Hr1 Hr2].
    destruct (tryPack w h (afterOverflow p w h b)) as [[n xy] |]; cbn [stateOf];
      rewrite ?trace_packed, ?trace_log, Htr, <- !app_assoc, drop_app_length;
      cbn [app]; rewrite !filter_cons, !filter_app, Hr1, Hr2; cbn;
      (split; [reflexivity |]); (split; [reflexivity |]); split.
    + intros ? ? [= <- <-]. reflexivity.
    + discriminate.
    + discriminate.
    + intros _. eauto.
Qed.

End Allocation.

(** ** Rasterisation *)

(** Facts that hold by unfolding the record updates and splitting on the
    tests of the operation. *)
Ltac unfold_ops :=
  unfold afterOverflow, packed, _resetGlyphAtlas, _flushQuads, _d2dEndDrawing,
    _d2dBeginDrawing, _resizeGlyphAtlas, log, storeGlyph, setGlyphsOf in *.
Ltac fields :=
  cbn [_generation _fontGeneration _miscGeneration _targetSize _viewportCellCount
       _renderTargetView _customRenderTargetView _customPixelShader _cellBuffer
       _backgroundBitmapGeneration _fontChangedResetGlyphAtlas _textShadingType
       _ligatureOverhangTriggerLeft _ligatureOverhangTriggerRight _softFontBitmap
       _d2dBeganDrawing _rectPacker _glyphAtlasMap _builtinGlyphs _cells trace
       set_renderTargetView set_customRenderTargetView set_customPixelShader
       set_cellBuffer set_backgroundBitmapGeneration set_fontChangedResetGlyphAtlas
       set_textShadingType set_softFontBitmap set_d2dBeganDrawing set_rectPacker
       set_glyphAtlasMap set_builtinGlyphs set_cells set_trace
       width height nodes stateOf] in *.
Ltac frame :=
  unfold_ops;
  repeat (fields;
          match goal with
          | |- context [match ?c with _ => _ end] => destruct c
          end);
  fields; try reflexivity.

Section Rasterisation.
Context `{Platform}.

(** States that agree on both glyph containers. *)
Definition sameGlyphs (b b' : BackendD3D) : Prop :=
  _glyphAtlasMap b' = _glyphAtlasMap b /\ _builtinGlyphs b' = _builtinGlyphs b.

Lemma lookupGlyph_sameGlyphs f r g b b' :
  sameGlyphs b b' -> lookupGlyph f r g b' = lookupGlyph f r g b.
Proof. intros [Hm Hb]. unfold lookupGlyph, glyphsOf. by rewrite Hm, Hb. Qed.

Lemma sameGlyphs_packed w h n b : sameGlyphs b (packed w h n b).
Proof. split; reflexivity. Qed.

Lemma sameGlyphs_d2dBeginDrawing b : sameGlyphs b (_d2dBeginDrawing b).
Proof. unfold _d2dBeginDrawing. destruct (_d2dBeganDrawing b); split; reflexivity. Qed.

Lemma cells_resetGlyphAtlas p b : _cells (_resetGlyphAtlas p b) = _cells b.
Proof. frame. Qed.

Lemma cells_afterOverflow p w h b : _cells (afterOverflow p w h b) = _cells b.
Proof. frame. Qed.

Lemma cells_packed w h n b : _cells (packed w h n b) = _cells b.
Proof. frame. Qed.

Lemma cells_storeGlyph f r e b : _cells (storeGlyph f r e b) = _cells b.
Proof. frame. Qed.

Lemma trace_storeGlyph f r e b : trace (storeGlyph f r e b) = trace b.
Proof. frame. Qed.

Lemma cells_d2dBeginDrawing b : _cells (_d2dBeginDrawing b) = _cells b.
Proof. frame. Qed.

Lemma trace_d2dBeginDrawing b : trace (_d2dBeginDrawing b) = trace b.
Proof. frame. Qed.

(** The allocation either leaves the glyph containers alone or empties them. *)
Lemma drawGlyphAtlasAllocate_lookup p w h b xy b' f r g :
  _drawGlyphAtlasAllocate p w h b = Ok xy b' ->
  _cells b' = _cells b
  /\ (lookupGlyph f r g b' = lookupGlyph f r g b \/ lookupGlyph f r g b' = None)
  /\ (forallb (fun e => negb (isFailedPack e)) (since b b') = true ->
      lookupGlyph f r g b' = lookupGlyph f r g b).
Proof.
  rewrite drawGlyphAtlasAllocate_run.
  destruct (tryPack w h b) as [[n xy1] |].
  - intros [= <- <-]. split; [apply cells_packed |].
    rewrite (lookupGlyph_sameGlyphs _ _ _ _ _ (sameGlyphs_packed w h n b)). auto.
  - destruct (tryPack w h (afterOverflow p w h b)) as [[n xy1] |]; [| discriminate].
    intros [= <- <-]. split; [rewrite cells_packed; apply cells_afterOverflow |].
    rewrite (lookupGlyph_sameGlyphs _ _ _ _ _ (sameGlyphs_packed w h n _)).
    unfold afterOverflow at 1 2. rewrite lookupGlyph_resetGlyphAtlas.
    split; [auto |].
    unfold since. rewrite trace_packed.
    destruct (trace_afterOverflow p w h b) as (mid & -> & _).
    rewrite <- !app_assoc, drop_app_length.
    cbn [app forallb isFailedPack negb andb]. discriminate.
Qed.

(** *** The common tail of both rasterisers

    Allocate the entry, fill it in, split it on a double-height row. *)
Definition commitGlyph (p : RenderingPayload) (r : LineRendition) (f : option FontFace)
    (g : Z) (fill : AtlasGlyphEntry -> AtlasGlyphEntry) : M AtlasGlyphEntry :=
  bind (_drawGlyphAllocateEntry r f g) (fun e =>
  bind (writeGlyph f r (fill e)) (fun _ =>
  if isDoubleHeight r then _splitDoubleHeightGlyph p r f (fill e) else ret (fill e))).

Lemma drawGlyphAllocateEntry_miss r f g b :
  lookupGlyph f r g b = None ->
  _drawGlyphAllocateEntry r f g b = Ok (blankEntry g) (storeGlyph f r (blankEntry g) b).
Proof.
  intros Hmiss. unfold _drawGlyphAllocateEntry, bind, insertGlyph, writeGlyph, modify, ret.
  unfold lookupGlyph in Hmiss. rewrite Hmiss. cbn.
  f_equal. unfold storeGlyph. rewrite glyphsOf_setGlyphsOf, decide_True by reflexivity.
  cbn. rewrite insert_insert_eq. destruct f; cbn; [| reflexivity].
  by rewrite insert_insert_eq.
Qed.

(** The keys a rasterisation of [(f, r, g)] writes. *)
Definition writtenKeys (splits : bool) (f : option FontFace) (r : LineRendition) (g : Z)
    : list (option FontFace * LineRendition * Z) :=
  (f, r, g) :: (if isDoubleHeight r && splits then [(f, otherLineRendition r, g)] else []).

Lemma lookupGlyph_insertGlyph f r g f' r' g' b :
  lookupGlyph f' r' g' (stateOf (insertGlyph f r g b)) =
    if decide ((f', r', g') = (f, r, g))
    then Some (default (blankEntry g) (lookupGlyph f r g b))
    else lookupGlyph f' r' g' b.
Proof.
  unfold insertGlyph. fold (lookupGlyph f r g b).
  destruct (lookupGlyph f r g b) as [e |] eqn:Hl; cbn [stateOf default].
  - case_decide as Heq; [| reflexivity]. by injection Heq as -> -> ->.
  - by rewrite lookupGlyph_storeGlyph.
Qed.

Lemma cells_insertGlyph f r g b : _cells (stateOf (insertGlyph f r g b)) = _cells b.
Proof. unfold insertGlyph. destruct (glyphsOf f b !! (r, g)); [reflexivity | apply cells_storeGlyph]. Qed.

Lemma trace_insertGlyph f r g b : trace (stateOf (insertGlyph f r g b)) = trace b.
Proof. unfold insertGlyph. destruct (glyphsOf f b !! (r, g)); [reflexivity | apply trace_storeGlyph]. Qed.

Lemma otherLineRendition_ne r : otherLineRendition r <> r.
Proof. unfold otherLineRendition. destruct r; cbn; discriminate. Qed.

Lemma splitHalves_fields fs e :
  glyphIndex (fst (splitHalves fs e)) = glyphIndex e
  /\ glyphIndex (snd (splitHalves fs e)) = glyphIndex e
  /\ overlapSplit (fst (splitHalves fs e)) = overlapSplit e
  /\ overlapSplit (snd (splitHalves fs e)) = overlapSplit e.
Proof.
  unfold splitHalves. cbv zeta.
  repeat match goal with |- context [if ?c then _ else _] => destruct c end;
    cbn; auto.
Qed.

Lemma commitGlyph_miss p r f g fill b :
  lookupGlyph f r g b = None ->
  (forall e, glyphIndex (fill e) = glyphIndex e) ->
  exists e b',
    commitGlyph p r f g fill b = Ok e b'
    /\ lookupGlyph f r g b' = Some e
    /\ overlapSplit e = overlapSplit (fill (blankEntry g))
    /\ (isDoubleHeight r = false -> e = fill (blankEntry g))
    /\ (isDoubleHeight r = true ->
        exists e2, lookupGlyph f (otherLineRendition r) g b' = Some e2
                   /\ overlapSplit e2 = overlapSplit (fill (blankEntry g)))
    /\ (forall f' r' g', ~ In (f', r', g') (writtenKeys true f r g) ->
        lookupGlyph f' r' g' b' = lookupGlyph f' r' g' b)
    /\ _cells b' = _cells b /\ trace b' = trace b.
Proof.
  intros Hmiss Hfill. unfold commitGlyph, bind.
  rewrite (drawGlyphAllocateEntry_miss _ _ _ _ Hmiss).
  unfold writeGlyph, modify at 1. cbn beta iota.
  set (e := fill (blankEntry g)).
  assert (Hg : glyphIndex e = g) by (subst e; rewrite Hfill; reflexivity).
  pose proof (otherLineRendition_ne r) as Hother.
  unfold writtenKeys.
  destruct (isDoubleHeight r) eqn:Hdh.
  - rewrite splitDoubleHeightGlyph_run. cbv zeta.
    destruct (splitHalves_fields (font (s p)) e) as (Hgt & Hgb & Hot & Hob).
    destruct (splitHalves (font (s p)) e) as [top bottom].
    cbn [fst snd] in *. rewrite Hg in *.
    eexists _, _. split; [reflexivity |].
    rewrite !cells_storeGlyph, !trace_storeGlyph, cells_insertGlyph, trace_insertGlyph,
      !cells_storeGlyph, !trace_storeGlyph.
    split; [| split; [| split; [discriminate | split; [intros _ | split; [| auto]]]]].
    + rewrite !lookupGlyph_storeGlyph.
      destruct (bool_decide (r = DoubleHeightTop));
        rewrite ?Hgt, ?Hgb, decide_False, decide_True by congruence; reflexivity.
    + destruct (bool_decide (r = DoubleHeightTop)); assumption.
    + rewrite !lookupGlyph_storeGlyph.
      destruct (bool_decide (r = DoubleHeightTop));
        rewrite ?Hgt, ?Hgb, decide_True by congruence; eauto.
    + intros f' r' g' Hnot. cbn in Hnot.
      rewrite !lookupGlyph_storeGlyph, lookupGlyph_insertGlyph, !lookupGlyph_storeGlyph.
      cbn [glyphIndex blankEntry].
      destruct (bool_decide (r = DoubleHeightTop));
        rewrite ?Hgt, ?Hgb, ?Hg, !decide_False
          by (intros Heq; apply Hnot; rewrite Heq; auto);
        reflexivity.
  - unfold ret. eexists _, _. split; [reflexivity |].
    rewrite !cells_storeGlyph, !trace_storeGlyph.
    split; [| split; [reflexivity | split; [reflexivity | split; [discriminate | split; [| auto]]]]].
    + rewrite lookupGlyph_storeGlyph, Hg. by rewrite decide_True.
    + intros f' r' g' Hnot. cbn in Hnot.
      rewrite !lookupGlyph_storeGlyph, Hg. cbn [glyphIndex blankEntry].
      rewrite !decide_False by (intros Heq; apply Hnot; rewrite Heq; auto).
      reflexivity.
Qed.

End Rasterisation.

Section RasterisationSpec.
Context `{Platform}.

(** The locals of [_drawBuiltinGlyph]. *)
Definition builtinWidth (fs : FontSettings) (r : LineRendition) : Z :=
  if isDoubleWidth r then Z.shiftl (fst (cellSize fs)) 1 else fst (cellSize fs).
Definition builtinHeight (fs : FontSettings) (r : LineRendition) : Z :=
  if isDoubleWidth r
  then Z.shiftl (snd (cellSize fs)) (if isDoubleHeight r then 1 else 0)
  else snd (cellSize fs).
Definition builtinBaseline (fs : FontSettings) (r : LineRendition) : Z :=
  if isDoubleWidth r
  then u16 (Z.shiftl (baseline fs) (if isDoubleHeight r then 1 else 0))
  else baseline fs.
Definition builtinFill (fs : FontSettings) (r : LineRendition) (shading : ShadingType)
    (xy : Z * Z) (e : AtlasGlyphEntry) : AtlasGlyphEntry :=
  mkEntry (glyphIndex e) shading false
    (0, i16 (- builtinBaseline fs r))
    (u16 (builtinWidth fs r), u16 (builtinHeight fs r))
    (u16 (fst xy), u16 (snd xy)).

Lemma drawBuiltinGlyph_unfold p r f g :
  _drawBuiltinGlyph p r f g =
    bind (_drawGlyphAtlasAllocate p (builtinWidth (font (s p)) r) (builtinHeight (font (s p)) r))
      (fun xy =>
    bind (modify _d2dBeginDrawing) (fun _ =>
    bind (if IsSoftFontChar g then _drawSoftFontGlyph p g else ret TextBuiltinGlyph)
      (fun shading =>
    commitGlyph p r f g (builtinFill (font (s p)) r shading xy)))).
Proof. reflexivity. Qed.

(** The locals of the font path of [_drawGlyph]: the rounded ink box. *)
Definition inkBox (fs : FontSettings) (ff : FontFace) (r : LineRendition) (g : Z)
    : Z * Z * (Z * Z) :=
  let '(bleft, btop, (bright, bbottom)) :=
    glyphRunBounds fs ff (u16 g) (if isDoubleWidth r then 2 else 1)
      (if isDoubleHeight r then 2 else 1) in
  (lrintf bleft, lrintf btop, (lrintf bright, lrintf bbottom)).

Definition inkEmpty (fs : FontSettings) (ff : FontFace) (r : LineRendition) (g : Z) : bool :=
  boundsEmpty (glyphRunBounds fs ff (u16 g) (if isDoubleWidth r then 2 else 1)
                 (if isDoubleHeight r then 2 else 1)).

(** [overlapSplit] as [_drawGlyph] computes it from the ink box [bl .. br],
    the cell width and the two thresholds held by the backend. *)
Definition overlapTest (cellWidth triggerL triggerR : Z) (r : LineRendition) (bl br : Z) : bool :=
  let scale := if isDoubleWidth r then 1 else 0 in
  (cellWidth <=? br - bl)
  && ((bl <=? shl_i32 triggerL scale) || (shl_i32 triggerR scale <=? br)).

Definition fontFill (fs : FontSettings) (ff : FontFace) (r : LineRendition) (g : Z)
    (triggerL triggerR : Z) (textShading : ShadingType) (xy : Z * Z)
    (e : AtlasGlyphEntry) : AtlasGlyphEntry :=
  let '(bl, bt, (br, bb)) := inkBox fs ff r g in
  mkEntry (glyphIndex e)
    (if colorGlyphs fs && TranslateColorGlyphRun ff (u16 g) then TextPassthrough else textShading)
    (overlapTest (fst (cellSize fs)) triggerL triggerR r bl br)
    (i16 bl, i16 bt) (u16 (br - bl), u16 (bb - bt)) (u16 (fst xy), u16 (snd xy)).

Lemma bind_run {A B} (c : M A) (k : A -> M B) b :
  bind c k b = match c b with Ok a b' => k a b' | Fail f b' => Fail f b' end.
Proof. reflexivity. Qed.

Lemma drawGlyphAllocateEntry_run r f g b :
  _drawGlyphAllocateEntry r f g b =
    let e := with_shadingType Default (default (blankEntry g) (lookupGlyph f r g b)) in
    Ok e (storeGlyph f r e (stateOf (insertGlyph f r g b))).
Proof.
  unfold _drawGlyphAllocateEntry, bind. rewrite insertGlyph_run. reflexivity.
Qed.

Lemma textShadingType_allocateEntry f r e g b :
  _textShadingType (storeGlyph f r e (stateOf (insertGlyph f r g b))) = _textShadingType b.
Proof.
  unfold insertGlyph. destruct (glyphsOf f b !! (r, g)); frame.
Qed.

Lemma drawGlyph_font_unfold p r ff g b :
  _drawGlyph p r (Some ff) g b =
    if inkEmpty (font (s p)) ff r g then _drawGlyphAllocateEntry r (Some ff) g b
    else
      let '(bl, bt, (br, bb)) := inkBox (font (s p)) ff r g in
      bind (_drawGlyphAtlasAllocate p (br - bl) (bb - bt)) (fun xy =>
      bind (modify _d2dBeginDrawing) (fun _ =>
      bind (get (fun b => (_ligatureOverhangTriggerLeft b, _ligatureOverhangTriggerRight b,
                           _textShadingType b))) (fun t =>
      commitGlyph p r (Some ff) g
        (fontFill (font (s p)) ff r g (fst (fst t)) (snd (fst t)) (snd t) xy)))) b.
Proof.
  unfold _drawGlyph, inkEmpty, inkBox, fontFill, inkBox, overlapTest.
  destruct (glyphRunBounds _ _ _ _ _) as [[bleft btop] [bright bbottom]].
  destruct (boundsEmpty _); [reflexivity |].
  rewrite !bind_run.
  destruct (_drawGlyphAtlasAllocate _ _ _ _) as [xy b1 | fl b1]; [| reflexivity].
  unfold commitGlyph, get, modify, writeGlyph.
  repeat (rewrite ?bind_run, ?drawGlyphAllocateEntry_run; cbv zeta; cbn beta iota).
  cbn [fst snd]. rewrite textShadingType_allocateEntry. reflexivity.
Qed.

End RasterisationSpec.

Section DrawGlyph.
Context `{Platform}.

Definition noFailedPack (evs : list Event) : bool :=
  forallb (fun e => negb (isFailedPack e)) evs.

(** Whether a rasterisation of [(f, r, g)] reaches the atlas (and, on a
    double-height row, the split): always on the builtin path, on the font
    path when the ink box is not empty. *)
Definition splits (p : RenderingPayload) (f : option FontFace) (r : LineRendition) (g : Z) : bool :=
  match f with
  | None => true
  | Some ff => negb (inkEmpty (font (s p)) ff r g)
  end.

Lemma drawGlyphAtlasAllocate_trace p w h b xy b' :
  _drawGlyphAtlasAllocate p w h b = Ok xy b' ->
  exists evs, trace b' = trace b ++ evs.
Proof.
  rewrite drawGlyphAtlasAllocate_run.
  destruct (tryPack w h b) as [[n xy1] |].
  - intros [= <- <-]. rewrite trace_packed. eauto.
  - destruct (tryPack w h (afterOverflow p w h b)) as [[n xy1] |]; [| discriminate].
    intros [= <- <-]. rewrite trace_packed.
    destruct (trace_afterOverflow p w h b) as (mid & -> & _).
    rewrite <- !app_assoc. eauto.
Qed.

Lemma since_app b b' evs : trace b' = trace b ++ evs -> since b b' = evs.
Proof. intros Htr. unfold since. by rewrite Htr, drop_app_length. Qed.

Lemma commitGlyph_overlapSplit p r f g fill b e b' ov :
  (forall e0, overlapSplit (fill e0) = ov) ->
  commitGlyph p r f g fill b = Ok e b' ->
  overlapSplit e = ov.
Proof.
  intros Hov. unfold commitGlyph, writeGlyph, modify.
  rewrite bind_run, drawGlyphAllocateEntry_run. cbv zeta. cbn beta iota.
  rewrite bind_run. cbn beta iota.
  destruct (isDoubleHeight r).
  - rewrite splitDoubleHeightGlyph_run. cbv zeta.
    destruct (splitHalves_fields (font (s p))
                (fill (with_shadingType Default
                         (default (blankEntry g) (lookupGlyph f r g b)))))
      as (_ & _ & Ht & Hb).
    set (halves := splitHalves _ _) in *. clearbody halves.
    intros [= <- _].
    destruct (bool_decide (r = DoubleHeightTop)); rewrite ?Ht, ?Hb; apply Hov.
  - intros [= <- _]. apply Hov.
Qed.

Lemma commit_after_allocate p r f g w h fill b xy b1 b3 e b' :
  lookupGlyph f r g b = None ->
  (forall e0, glyphIndex (fill e0) = glyphIndex e0) ->
  _drawGlyphAtlasAllocate p w h b = Ok xy b1 ->
  sameGlyphs b1 b3 -> _cells b3 = _cells b1 -> trace b3 = trace b1 ->
  commitGlyph p r f g fill b3 = Ok e b' ->
  lookupGlyph f r g b' = Some e
  /\ _cells b' = _cells b
  /\ (exists evs, trace b' = trace b ++ evs)
  /\ (isDoubleHeight r = true ->
      exists e2, lookupGlyph f (otherLineRendition r) g b' = Some e2
                 /\ overlapSplit e2 = overlapSplit (fill (blankEntry g)))
  /\ (isDoubleHeight r = false -> e = fill (blankEntry g))
  /\ overlapSplit e = overlapSplit (fill (blankEntry g))
  /\ (noFailedPack (since b b') = true ->
      forall f' r' g', ~ In (f', r', g') (writtenKeys true f r g) ->
      lookupGlyph f' r' g' b' = lookupGlyph f' r' g' b).
Proof.
  intros Hmiss Hfill Halloc Hsame Hcells Htrace Hcommit.
  destruct (drawGlyphAtlasAllocate_lookup p w h b xy b1 f r g Halloc) as (Hc1 & Hl1 & _).
  destruct (drawGlyphAtlasAllocate_trace p w h b xy b1 Halloc) as (evs & Hevs).
  assert (Hmiss3 : lookupGlyph f r g b3 = None).
  { rewrite (lookupGlyph_sameGlyphs _ _ _ _ _ Hsame). destruct Hl1 as [-> | ->]; auto. }
  destruct (commitGlyph_miss p r f g fill b3 Hmiss3 Hfill)
    as (e' & b'' & Hrun & Hlk & Hov & Hsingle & Hother & Hframe & Hcells' & Htrace').
  rewrite Hrun in Hcommit. injection Hcommit as -> ->.
  split; [exact Hlk |].
  split; [congruence |].
  split; [exists evs; congruence |].
  split; [exact Hother |].
  split; [exact Hsingle |].
  split; [exact Hov |].
  intros Hno f' r' g' Hnot.
  rewrite (Hframe f' r' g' Hnot), (lookupGlyph_sameGlyphs _ _ _ _ _ Hsame).
  destruct (drawGlyphAtlasAllocate_lookup p w h b xy b1 f' r' g' Halloc) as (_ & _ & Hkeep).
  apply Hkeep. unfold noFailedPack in Hno.
  rewrite (since_app b b' evs) in Hno by congruence.
  by rewrite (since_app b b1 evs).
Qed.

Lemma drawSoftFontGlyph_run p g b :
  exists sh b', _drawSoftFontGlyph p g b = Ok sh b'
    /\ sameGlyphs b b' /\ _cells b' = _cells b /\ trace b' = trace b.
Proof.
  unfold _drawSoftFontGlyph. cbv zeta.
  destruct (_ || _).
  - eexists _, _. split; [reflexivity |]. repeat split.
  - eexists _, _. split; [reflexivity |]. repeat split.
Qed.

Lemma drawGlyph_spec p r f g b e b' :
  lookupGlyph f r g b = None ->
  _drawGlyph p r f g b = Ok e b' ->
  lookupGlyph f r g b' = Some e
  /\ _cells b' = _cells b
  /\ (exists evs, trace b' = trace b ++ evs)
  /\ (isDoubleHeight r = true -> splits p f r g = true ->
      is_Some (lookupGlyph f (otherLineRendition r) g b'))
  /\ (noFailedPack (since b b') = true ->
      forall f' r' g', ~ In (f', r', g') (writtenKeys (splits p f r g) f r g) ->
      lookupGlyph f' r' g' b' = lookupGlyph f' r' g' b).
Proof.
  intros Hmiss Hrun. destruct f as [ff |].
  - rewrite drawGlyph_font_unfold in Hrun. unfold splits.
    destruct (inkEmpty (font (s p)) ff r g) eqn:Hink.
    + rewrite (drawGlyphAllocateEntry_miss _ _ _ _ Hmiss) in Hrun.
      injection Hrun as <- <-.
      rewrite cells_storeGlyph, trace_storeGlyph.
      split; [by rewrite lookupGlyph_storeGlyph, decide_True |].
      split; [reflexivity |].
      split; [exists []; by rewrite app_nil_r |].
      split; [discriminate |].
      intros _ f' r' g' Hnot. unfold writtenKeys in Hnot.
      rewrite andb_false_r in Hnot. cbn in Hnot.
      rewrite lookupGlyph_storeGlyph, decide_False; [reflexivity |].
      cbn. intros Heq. apply Hnot. rewrite Heq. auto.
    + destruct (inkBox (font (s p)) ff r g) as [[bl bt] [br bb]].
      rewrite bind_run in Hrun.
      destruct (_drawGlyphAtlasAllocate p (br - bl) (bb - bt) b) as [xy b1 | fl b1] eqn:Halloc;
        [| discriminate].
      rewrite bind_run in Hrun. unfold modify at 1 in Hrun. cbn beta iota in Hrun.
      rewrite bind_run in Hrun. unfold get at 1 in Hrun. cbn beta iota in Hrun.
      eapply (commit_after_allocate p r (Some ff) g _ _ _ b xy b1) in Hrun;
        [ | exact Hmiss
          | intros; unfold fontFill; destruct (inkBox _ _ _ _) as [[? ?] [? ?]]; reflexivity
          | exact Halloc
          | apply sameGlyphs_d2dBeginDrawing
          | apply cells_d2dBeginDrawing
          | apply trace_d2dBeginDrawing ].
      destruct Hrun as (Hlk & Hc & Htr & Hother & _ & _ & Hframe).
      cbn [negb]. repeat split; try assumption.
      intros Hdh _. destruct (Hother Hdh) as (e2 & -> & _). eauto.
  - unfold _drawGlyph in Hrun. rewrite drawBuiltinGlyph_unfold in Hrun.
    rewrite bind_run in Hrun.
    destruct (_drawGlyphAtlasAllocate p _ _ b) as [xy b1 | fl b1] eqn:Halloc; [| discriminate].
    rewrite bind_run in Hrun. unfold modify at 1 in Hrun. cbn beta iota in Hrun.
    rewrite bind_run in Hrun.
    assert (Hsh : exists sh b3,
      (if IsSoftFontChar g then _drawSoftFontGlyph p g else ret TextBuiltinGlyph)
        (_d2dBeginDrawing b1) = Ok sh b3
      /\ sameGlyphs (_d2dBeginDrawing b1) b3
      /\ _cells b3 = _cells (_d2dBeginDrawing b1) /\ trace b3 = trace (_d2dBeginDrawing b1)).
    { destruct (IsSoftFontChar g); [apply drawSoftFontGlyph_run |].
      eexists _, _. split; [reflexivity |]. repeat split. }
    destruct Hsh as (sh & b3 & Hshrun & [Hs1 Hs2] & Hc3 & Ht3).
    rewrite Hshrun in Hrun.
    destruct (sameGlyphs_d2dBeginDrawing b1) as [Hd1 Hd2].
    eapply (commit_after_allocate p r None g _ _ _ b xy b1 b3) in Hrun;
      [ | exact Hmiss
        | intros; reflexivity
        | exact Halloc
        | split; congruence
        | rewrite Hc3; apply cells_d2dBeginDrawing
        | rewrite Ht3; apply trace_d2dBeginDrawing ].
    destruct Hrun as (Hlk & Hc & Htr & Hother & _ & _ & Hframe).
    unfold splits. repeat split; try assumption.
    intros Hdh _. destruct (Hother Hdh) as (e2 & -> & _). eauto.
Qed.

End DrawGlyph.

(** ** Frame conditions

    Which parts of the backend an operation can change is recorded once, as
    a relation between the state before and after that the record updates
    the operation is built from respect. *)

Section Frames.
Context `{Platform}.

(** Relations respected by the bookkeeping updates the drawing code makes:
    trace (no event of a settings update), packer, Direct2D bracketing, creation of the cell buffer, clearing
    of the reset request, the soft-font bitmap. *)
Class Frame (R : BackendD3D -> BackendD3D -> Prop) := {
  frame_refl : forall b, R b b;
  frame_trans : forall a b c, R a b -> R b c -> R a c;
  frame_log : forall e b, settingsEvent e = false -> R b (log e b);
  frame_rectPacker : forall c b, R b (set_rectPacker c b);
  frame_beganDrawing : forall v b, R b (set_d2dBeganDrawing v b);
  frame_cellBuffer : forall b, R b (set_cellBuffer true b);
  frame_fontChanged : forall b, R b (set_fontChangedResetGlyphAtlas false b);
  frame_softFontBitmap : forall v b, R b (set_softFontBitmap v b);
}.

(** ... and by updates of the glyph containers. *)
Class GlyphFrame (R : BackendD3D -> BackendD3D -> Prop) := {
  glyphFrame_frame :: Frame R;
  frame_glyphAtlasMap : forall m b, R b (set_glyphAtlasMap m b);
  frame_builtinGlyphs : forall m b, R b (set_builtinGlyphs m b);
}.

(** ... and by updates of the cell grid. *)
Class CellFrame (R : BackendD3D -> BackendD3D -> Prop) := {
  cellFrame_glyphFrame :: GlyphFrame R;
  frame_cells : forall c b, R b (set_cells c b);
}.

(** Relations respected by everything the text loop does: of the grid it
    only replaces the glyph coordinates of single cells. *)
Class StampFrame (R : BackendD3D -> BackendD3D -> Prop) := {
  stampFrame_glyphFrame :: GlyphFrame R;
  frame_stamp : forall i tx ty b,
    R b (set_cells
           (alter (fun c => mkCell (background c) (foreground c) tx ty) i (_cells b)) b);
}.

#[export] Instance cellFrame_stampFrame R `{!CellFrame R} : StampFrame R.
Proof. split; [apply _ | intros; apply frame_cells]. Qed.

(** What the drawing code reads but never writes. *)
Definition settingsOf (b : BackendD3D) :=
  (_generation b, _fontGeneration b, _miscGeneration b, _targetSize b, _viewportCellCount b,
   (_renderTargetView b, _customRenderTargetView b, _customPixelShader b),
   (_textShadingType b, _ligatureOverhangTriggerLeft b, _ligatureOverhangTriggerRight b)).

Definition keepsSettings (b b' : BackendD3D) : Prop :=
  settingsOf b' = settingsOf b
  /\ _backgroundBitmapGeneration b' = _backgroundBitmapGeneration b
  /\ (_fontChangedResetGlyphAtlas b = false -> _fontChangedResetGlyphAtlas b' = false)
  /\ (_cellBuffer b = true -> _cellBuffer b' = true).
Definition keepsCells (b b' : BackendD3D) : Prop := _cells b' = _cells b.
Definition keepsPacker (b b' : BackendD3D) : Prop := _rectPacker b' = _rectPacker b.
Definition extends (b b' : BackendD3D) : Prop := exists evs, trace b' = trace b ++ evs.
(** The trace grows, and by no event of a settings update. *)
Definition drawingOnly (b b' : BackendD3D) : Prop :=
  exists evs, trace b' = trace b ++ evs
              /\ forallb (fun e => negb (settingsEvent e)) evs = true.

#[export] Instance keepsSettings_frame : CellFrame keepsSettings.
Proof.
  assert (Htrans : forall a b c, keepsSettings a b -> keepsSettings b c -> keepsSettings a c).
  { intros a b c (H1 & H2 & H3 & H4) (H5 & H6 & H7 & H8).
    repeat split; [congruence | congruence | auto | auto]. }
  refine {| cellFrame_glyphFrame :=
              {| glyphFrame_frame := {| frame_trans := Htrans |} |} |};
    intros; repeat split; auto.
Qed.

#[export] Instance extends_frame : CellFrame extends.
Proof.
  repeat split; unfold extends; try (intros; exists []; by rewrite app_nil_r).
  - intros a b c [e1 H1] [e2 H2]. exists (e1 ++ e2). by rewrite H2, H1, app_assoc.
  - intros e b _. exists [e]. reflexivity.
Qed.

#[export] Instance drawingOnly_frame : CellFrame drawingOnly.
Proof.
  repeat split; unfold drawingOnly; try (intros; exists []; by rewrite app_nil_r).
  - intros a b c (e1 & H1 & Hq1) (e2 & H2 & Hq2). exists (e1 ++ e2).
    rewrite H2, H1, app_assoc, forallb_app, Hq1, Hq2. by split.
  - intros e b He. exists [e]. split; [reflexivity |]. cbn. by rewrite He.
Qed.

#[export] Instance keepsCells_frame : GlyphFrame keepsCells.
Proof.
  repeat split; unfold keepsCells; try reflexivity.
  intros a b c Hab Hbc. by rewrite Hbc.
Qed.

#[export] Instance sameGlyphs_frame : Frame sameGlyphs.
Proof.
  split; unfold sameGlyphs; try (intros; split; reflexivity).
  intros a b c [H1 H2] [H3 H4]. split; congruence.
Qed.

(** *** Derived operations *)

Ltac prim :=
  first [ apply frame_refl | apply frame_log; reflexivity | apply frame_rectPacker
        | apply frame_beganDrawing | apply frame_cellBuffer | apply frame_fontChanged
        | apply frame_softFontBitmap
        | apply frame_glyphAtlasMap | apply frame_builtinGlyphs | apply frame_cells ].

Ltac chain :=
  repeat match goal with
    | |- _ ?b (if ?c then _ else _) => destruct c
    | |- _ ?b (match ?c with _ => _ end) => destruct c
    | |- _ ?b ?b => apply frame_refl
    | |- ?R ?b (?f ?x) => first [ prim | apply (frame_trans b x); [| prim] ]
    end.

Lemma frame_d2dBeginDrawing R `{!Frame R} b : R b (_d2dBeginDrawing b).
Proof. unfold _d2dBeginDrawing. chain. Qed.

Lemma frame_d2dEndDrawing R `{!Frame R} b : R b (_d2dEndDrawing b).
Proof. unfold _d2dEndDrawing. chain. Qed.

Lemma frame_flushQuads R `{!Frame R} p b : R b (_flushQuads p b).
Proof. unfold _flushQuads. chain. Qed.

Lemma frame_packed R `{!Frame R} w h n b : R b (packed w h n b).
Proof. unfold packed. chain. Qed.

Lemma frame_resetGlyphAtlas R `{!GlyphFrame R} p b : R b (_resetGlyphAtlas p b).
Proof.
  unfold _resetGlyphAtlas. destruct (atlasSize _) as [u v].
  apply (frame_trans _ _ _ (frame_refl b)).
  repeat match goal with
    | |- R ?b (set_fontChangedResetGlyphAtlas _ ?x) =>
        apply (frame_trans b x); [| apply frame_fontChanged]
    | |- R ?b (log _ ?x) => apply (frame_trans b x); [| apply frame_log; reflexivity]
    | |- R ?b (_d2dBeginDrawing ?x) =>
        apply (frame_trans b x); [| apply frame_d2dBeginDrawing; apply _]
    | |- R ?b (set_builtinGlyphs _ ?x) =>
        apply (frame_trans b x); [| apply frame_builtinGlyphs]
    | |- R ?b (set_glyphAtlasMap _ ?x) =>
        apply (frame_trans b x); [| apply frame_glyphAtlasMap]
    | |- R ?b (set_rectPacker _ ?x) =>
        apply (frame_trans b x); [| apply frame_rectPacker]
    end.
  destruct (negb _ || negb _); [apply frame_log; reflexivity | apply frame_refl].
Qed.

Lemma frame_step R `{!Frame R} a b (g : BackendD3D -> BackendD3D) :
  R a b -> (forall x, R x (g x)) -> R a (g b).
Proof. intros Hab Hg. exact (frame_trans a b (g b) Hab (Hg b)). Qed.

Lemma frame_afterOverflow R `{!GlyphFrame R} p w h b : R b (afterOverflow p w h b).
Proof.
  unfold afterOverflow.
  apply (frame_step R); [| intros; apply (frame_resetGlyphAtlas R)].
  apply (frame_step R); [| intros; apply (frame_flushQuads R)].
  apply (frame_step R); [| intros; apply (frame_d2dEndDrawing R)].
  apply frame_log; reflexivity.
Qed.

Lemma frame_storeGlyph R `{!GlyphFrame R} f r e b : R b (storeGlyph f r e b).
Proof. unfold storeGlyph, setGlyphsOf. destruct f; chain. Qed.

Lemma frame_insertFontFace R `{!GlyphFrame R} f b : R b (insertFontFace f b).
Proof. unfold insertFontFace. chain. Qed.

(** *** Computations *)

(** [c] relates every start state to the state it ends in, whether it
    returns or fails. *)
Definition stable {A} (R : BackendD3D -> BackendD3D -> Prop) (c : M A) : Prop :=
  forall b, R b (stateOf (c b)).

Lemma stable_ret {A} R `{!Frame R} (a : A) : stable R (ret a).
Proof. intros b. apply frame_refl. Qed.

Lemma stable_throw {A} R `{!Frame R} fl : stable R (throw (A := A) fl).
Proof. intros b. apply frame_refl. Qed.

Lemma stable_get {A} R `{!Frame R} (g : BackendD3D -> A) : stable R (get g).
Proof. intros b. apply frame_refl. Qed.

Lemma stable_modify R (g : BackendD3D -> BackendD3D) :
  (forall b, R b (g b)) -> stable R (modify g).
Proof. intros Hg b. apply Hg. Qed.

Lemma stable_bind {A B} R `{!Frame R} (c : M A) (k : A -> M B) :
  stable R c -> (forall a, stable R (k a)) -> stable R (bind c k).
Proof.
  intros Hc Hk b. unfold bind. specialize (Hc b).
  destruct (c b) as [a b1 | fl b1]; cbn [stateOf] in *; [| exact Hc].
  exact (frame_trans b b1 _ Hc (Hk a b1)).
Qed.

Lemma stable_ok {A} R (c : M A) b a b' : stable R c -> c b = Ok a b' -> R b b'.
Proof. intros Hc Hrun. specialize (Hc b). by rewrite Hrun in Hc. Qed.

Lemma stable_pack R `{!Frame R} w h : stable R (pack w h).
Proof.
  intros b. unfold pack.
  destruct (stbrp_pack_rects _ _ _ w h) as [[n xy] |]; cbn [stateOf].
  - apply (frame_packed R).
  - apply frame_log; reflexivity.
Qed.

Lemma stable_drawGlyphAtlasAllocate R `{!GlyphFrame R} p w h :
  stable R (_drawGlyphAtlasAllocate p w h).
Proof.
  intros b. rewrite drawGlyphAtlasAllocate_run.
  destruct (tryPack w h b) as [[n xy] |]; cbn [stateOf].
  - apply (frame_packed R).
  - destruct (tryPack w h (afterOverflow p w h b)) as [[n xy] |]; cbn [stateOf].
    + apply (frame_step R); [apply (frame_afterOverflow R) | intros; apply (frame_packed R)].
    + apply (frame_step R); [apply (frame_afterOverflow R) | intros; apply frame_log; reflexivity].
Qed.

End Frames.

(** Splits a computation along its binds and tests. *)
Ltac stab R :=
  repeat (intros;
    match goal with
    | |- stable _ (bind _ _) => apply (stable_bind R)
    | |- stable _ (ret _) => apply (stable_ret R)
    | |- stable _ (throw _) => apply (stable_throw R)
    | |- stable _ (get _) => apply (stable_get R)
    | |- stable _ (modify _) => apply stable_modify; intros
    | |- stable _ (if ?c then _ else _) => destruct c
    | |- stable _ (match ?c with _ => _ end) => destruct c
    end); intros.

Section StableDrawing.
Context `{Platform}.

Lemma stable_insertGlyph R `{!GlyphFrame R} f r g : stable R (insertGlyph f r g).
Proof.
  intros b. unfold insertGlyph. destruct (glyphsOf f b !! (r, g)); cbn [stateOf].
  - apply frame_refl.
  - apply (frame_storeGlyph R).
Qed.

Lemma stable_writeGlyph R `{!GlyphFrame R} f r e : stable R (writeGlyph f r e).
Proof. unfold writeGlyph. stab R. apply (frame_storeGlyph R). Qed.

Lemma stable_drawGlyphAllocateEntry R `{!GlyphFrame R} r f g :
  stable R (_drawGlyphAllocateEntry r f g).
Proof.
  unfold _drawGlyphAllocateEntry. stab R.
  - apply (stable_insertGlyph R).
  - apply (stable_writeGlyph R).
Qed.

Lemma stable_splitDoubleHeightGlyph R `{!GlyphFrame R} p r f e :
  stable R (_splitDoubleHeightGlyph p r f e).
Proof.
  unfold _splitDoubleHeightGlyph. destruct (splitHalves _ _) as [top bottom]. stab R.
  - apply (stable_insertGlyph R).
  - apply (stable_writeGlyph R).
  - apply (stable_writeGlyph R).
Qed.

Lemma stable_drawSoftFontGlyph R `{!Frame R} p g : stable R (_drawSoftFontGlyph p g).
Proof. unfold _drawSoftFontGlyph. cbv zeta. stab R. apply frame_softFontBitmap. Qed.

Lemma stable_commitGlyph R `{!GlyphFrame R} p r f g fill :
  stable R (commitGlyph p r f g fill).
Proof.
  unfold commitGlyph. stab R.
  - apply (stable_drawGlyphAllocateEntry R).
  - apply (stable_writeGlyph R).
  - apply (stable_splitDoubleHeightGlyph R).
Qed.

Lemma stable_drawBuiltinGlyph R `{!GlyphFrame R} p r f g :
  stable R (_drawBuiltinGlyph p r f g).
Proof.
  rewrite drawBuiltinGlyph_unfold. stab R.
  all: first [ apply (stable_drawGlyphAtlasAllocate R) | apply (frame_d2dBeginDrawing R)
             | apply (stable_drawSoftFontGlyph R) | apply (stable_commitGlyph R) ].
Qed.

Lemma stable_drawGlyph R `{!GlyphFrame R} p r f g : stable R (_drawGlyph p r f g).
Proof.
  destruct f as [ff |]; [| apply (stable_drawBuiltinGlyph R)].
  intros b. rewrite drawGlyph_font_unfold.
  destruct (inkEmpty _ _ _ _); [apply (stable_drawGlyphAllocateEntry R) |].
  destruct (inkBox _ _ _ _) as [[bl bt] [br bb]].
  revert b. fold (stable R
    (bind (_drawGlyphAtlasAllocate p (br - bl) (bb - bt)) (fun xy =>
     bind (modify _d2dBeginDrawing) (fun _ =>
     bind (get (fun b => (_ligatureOverhangTriggerLeft b, _ligatureOverhangTriggerRight b,
                          _textShadingType b))) (fun t =>
     commitGlyph p r (Some ff) g
       (fontFill (font (s p)) ff r g (fst (fst t)) (snd (fst t)) (snd t) xy)))))).
  stab R.
  - apply (stable_drawGlyphAtlasAllocate R).
  - apply (frame_d2dBeginDrawing R).
  - apply (stable_commitGlyph R).
Qed.

Lemma stable_index {A} R `{!Frame R} (l : list A) i : stable R (index l i).
Proof. unfold index. stab R. Qed.

Lemma stable_setCellGlyph R `{!StampFrame R} cy cx tx ty : stable R (setCellGlyph cy cx tx ty).
Proof. unfold setCellGlyph. stab R. apply frame_stamp. Qed.

Lemma stable_stampGlyph R `{!StampFrame R} fs l t e : stable R (stampGlyph fs l t e).
Proof.
  unfold stampGlyph. destruct (cellOf fs l t e) as [cy cx]. stab R.
  apply (stable_setCellGlyph R).
Qed.

Lemma stable_glyphLoop R `{!StampFrame R} fuel p row f baselineY scaleX scaleY to x baselineX :
  stable R (glyphLoop fuel p row f baselineY scaleX scaleY to x baselineX).
Proof.
  revert x baselineX. induction fuel as [| fuel IH]; intros x baselineX; cbn [glyphLoop].
  - apply (stable_ret R).
  - cbv zeta. stab R; try apply (stable_index R); try apply IH.
    + apply (stable_drawGlyph R).
    + apply (stable_stampGlyph R).
Qed.

Lemma stable_mappingLoop R `{!StampFrame R} p row baselineY scaleX scaleY ms baselineX :
  stable R (mappingLoop p row baselineY scaleX scaleY ms baselineX).
Proof.
  revert baselineX. induction ms as [| m ms IH]; intros baselineX; cbn [mappingLoop].
  - apply (stable_ret R).
  - stab R.
    + apply (frame_insertFontFace R).
    + apply (stable_glyphLoop R).
    + apply IH.
Qed.

Lemma stable_drawRow R `{!StampFrame R} p y row : stable R (drawRow p y row).
Proof. unfold drawRow. cbv zeta. stab R. apply (stable_mappingLoop R). Qed.

Lemma stable_rowLoop R `{!StampFrame R} p y rs : stable R (rowLoop p y rs).
Proof.
  revert y. induction rs as [| row rs IH]; intros y; cbn [rowLoop].
  - apply (stable_ret R).
  - stab R; [apply (stable_drawRow R) | apply IH].
Qed.

Lemma stable_drawText R `{!StampFrame R} p : stable R (_drawText p).
Proof.
  unfold _drawText. stab R.
  - destruct (_fontChangedResetGlyphAtlas b); [apply (frame_resetGlyphAtlas R) | apply frame_refl].
  - apply (stable_rowLoop R).
  - apply (frame_d2dEndDrawing R).
Qed.

Lemma stable_drawBackground R `{!CellFrame R} p :
  (forall v b, R b (set_backgroundBitmapGeneration v b)) ->
  stable R (_drawBackground p).
Proof.
  intros Hgen. unfold _drawBackground. stab R.
  - destruct (_ =? _); [apply frame_refl |].
    unfold _uploadBackgroundBitmap.
    apply (frame_step R); [apply frame_log; reflexivity | intros; apply Hgen].
  - apply frame_cells.
Qed.

End StableDrawing.

Section CacheTheorems.
Context `{Platform}.

(** C1.  A lookup after an insert of the same key returns the stored entry
    verbatim: the entry a rasterisation returns is the one the next lookup
    finds; a stored entry is found under its key; stores under other keys,
    new font-face slots and rasterisations of other glyphs that do not
    overflow the atlas leave it in place.  After an atlas reset every lookup
    is a miss, the builtin-glyph container included, and the packer has been
    re-initialised to the new texture size by the same call. *)
Theorem glyphCache_lookup_after_insert (p : RenderingPayload) (b : BackendD3D)
    (f : option FontFace) (r : LineRendition) (g : Z) :
  (forall e b', lookupGlyph f r g b = None -> _drawGlyph p r f g b = Ok e b' ->
     lookupGlyph f r g b' = Some e)
  /\ (forall e, lookupGlyph f r (glyphIndex e) (storeGlyph f r e b) = Some e)
  /\ (forall f' r' e', (f, r, g) <> (f', r', glyphIndex e') ->
        lookupGlyph f r g (storeGlyph f' r' e' b) = lookupGlyph f r g b)
  /\ (forall f', lookupGlyph f r g (insertFontFace f' b) = lookupGlyph f r g b)
  /\ (forall f' r' g' e' b',
        lookupGlyph f' r' g' b = None -> _drawGlyph p r' f' g' b = Ok e' b' ->
        noFailedPack (since b b') = true ->
        ~ In (f, r, g) (writtenKeys (splits p f' r' g') f' r' g') ->
        lookupGlyph f r g b' = lookupGlyph f r g b)
  /\ lookupGlyph f r g (_resetGlyphAtlas p b) = None
  /\ _builtinGlyphs (_resetGlyphAtlas p b) = ∅
  /\ (let uv := atlasSize (atlasArea (cellSize (font (s p))) (targetSize (s p))
                             (width (_rectPacker b)) (height (_rectPacker b))) in
      _rectPacker (_resetGlyphAtlas p b)
      = {| width := fst uv; height := snd uv;
           nodes := stbrp_init_target (fst uv) (snd uv) |}).
Proof.
  split.
  { intros e b' Hmiss Hrun. apply (drawGlyph_spec p r f g b e b' Hmiss Hrun). }
  split.
  { intros e. by rewrite lookupGlyph_storeGlyph, decide_True. }
  split.
  { intros f' r' e' Hne. by rewrite lookupGlyph_storeGlyph, decide_False. }
  split; [intros f'; apply lookupGlyph_insertFontFace |].
  split.
  { intros f' r' g' e' b' Hmiss Hrun Hno Hnot.
    destruct (drawGlyph_spec p r' f' g' b e' b' Hmiss Hrun) as (_ & _ & _ & _ & Hframe).
    by apply Hframe. }
  split; [apply lookupGlyph_resetGlyphAtlas |].
  split; [apply resetGlyphAtlas_builtinGlyphs | apply resetGlyphAtlas_rectPacker].
Qed.

(** C10.  Every entry the builtin / soft-font path produces has
    [overlapSplit = 0]: the entry it returns, the entry found under the key
    afterwards, and on a double-height row the entry of the other half; on a
    double-width row the rectangle of the entry is two cells wide. *)
Theorem drawBuiltinGlyph_no_overlapSplit (p : RenderingPayload) (r : LineRendition)
    (f : option FontFace) (g : Z) (b : BackendD3D) (e : AtlasGlyphEntry) (b' : BackendD3D) :
  _drawBuiltinGlyph p r f g b = Ok e b' ->
  overlapSplit e = false
  /\ (r = DoubleWidth ->
      fst (size e) = u16 (2 * fst (cellSize (font (s p)))) /\ overlapSplit e = false)
  /\ (lookupGlyph f r g b = None ->
      lookupGlyph f r g b' = Some e
      /\ (isDoubleHeight r = true ->
          exists e2, lookupGlyph f (otherLineRendition r) g b' = Some e2
                     /\ overlapSplit e2 = false)).
Proof.
  intros Hrun. rewrite drawBuiltinGlyph_unfold, bind_run in Hrun.
  destruct (_drawGlyphAtlasAllocate p _ _ b) as [xy b1 | fl b1] eqn:Halloc; [| discriminate].
  rewrite bind_run in Hrun. unfold modify at 1 in Hrun. cbn beta iota in Hrun.
  rewrite bind_run in Hrun.
  assert (Hsh : exists sh b3,
    (if IsSoftFontChar g then _drawSoftFontGlyph p g else ret TextBuiltinGlyph)
      (_d2dBeginDrawing b1) = Ok sh b3
    /\ sameGlyphs (_d2dBeginDrawing b1) b3
    /\ _cells b3 = _cells (_d2dBeginDrawing b1) /\ trace b3 = trace (_d2dBeginDrawing b1)).
  { destruct (IsSoftFontChar g); [apply drawSoftFontGlyph_run |].
    eexists _, _. split; [reflexivity |]. repeat split. }
  destruct Hsh as (sh & b3 & Hshrun & [Hs1 Hs2] & Hc3 & Ht3).
  rewrite Hshrun in Hrun.
  assert (Hov : overlapSplit e = false).
  { apply (commitGlyph_overlapSplit _ _ _ _ _ _ _ _ false) in Hrun; [exact Hrun | reflexivity]. }
  split; [exact Hov |].
  destruct (sameGlyphs_d2dBeginDrawing b1) as [Hd1 Hd2].
  split.
  - intros ->. split; [| exact Hov].
    unfold commitGlyph, writeGlyph, modify in Hrun.
    rewrite bind_run, drawGlyphAllocateEntry_run in Hrun. cbv zeta in Hrun.
    cbn in Hrun. injection Hrun as <- _. cbn.
    unfold builtinWidth. cbn. by rewrite Z.shiftl_mul_pow2, Z.mul_comm.
  - intros Hmiss.
    eapply (commit_after_allocate p r f g _ _ _ b xy b1 b3) in Hrun;
      [ | exact Hmiss
        | intros; reflexivity
        | exact Halloc
        | split; congruence
        | rewrite Hc3; apply cells_d2dBeginDrawing
        | rewrite Ht3; apply trace_d2dBeginDrawing ].
    destruct Hrun as (Hlk & _ & _ & Hother & _ & _ & _).
    split; [exact Hlk | exact Hother].
Qed.

(** *** Ligature overhang *)

Lemma updateFontDependents_triggers p b :
  (_ligatureOverhangTriggerLeft (_updateFontDependents p b),
   _ligatureOverhangTriggerRight (_updateFontDependents p b))
  = ligatureTriggers (font (s p))
  /\ (ligaturesDisabled (fontFeatures (font (s p))) = true ->
      ligatureTriggers (font (s p)) = (CoordTypeMin, CoordTypeMax)).
Proof.
  split.
  - unfold _updateFontDependents. cbn. by destruct (ligatureTriggers _).
  - intros Hd. unfold ligatureTriggers. by rewrite Hd.
Qed.

Lemma drawGlyphAtlasAllocate_triggers p w h b xy b' :
  _drawGlyphAtlasAllocate p w h b = Ok xy b' ->
  _ligatureOverhangTriggerLeft b' = _ligatureOverhangTriggerLeft b
  /\ _ligatureOverhangTriggerRight b' = _ligatureOverhangTriggerRight b.
Proof.
  intros Hrun.
  pose proof (stable_ok keepsSettings _ _ _ _
                (stable_drawGlyphAtlasAllocate keepsSettings p w h) Hrun) as [Hk _].
  unfold settingsOf in Hk. by injection Hk.
Qed.

Lemma drawGlyph_overlapTest p r ff g b e b' :
  inkEmpty (font (s p)) ff r g = false ->
  _drawGlyph p r (Some ff) g b = Ok e b' ->
  overlapSplit e =
    overlapTest (fst (cellSize (font (s p))))
      (_ligatureOverhangTriggerLeft b) (_ligatureOverhangTriggerRight b) r
      (fst (fst (inkBox (font (s p)) ff r g))) (fst (snd (inkBox (font (s p)) ff r g))).
Proof.
  intros Hink Hrun. rewrite drawGlyph_font_unfold, Hink in Hrun.
  destruct (inkBox (font (s p)) ff r g) as [[bl bt] [br bb]] eqn:Hbox.
  rewrite bind_run in Hrun.
  destruct (_drawGlyphAtlasAllocate p (br - bl) (bb - bt) b) as [xy b1 | fl b1] eqn:Halloc;
    [| discriminate].
  destruct (drawGlyphAtlasAllocate_triggers _ _ _ _ _ _ Halloc) as [Htl Htr].
  rewrite bind_run in Hrun. unfold modify at 1 in Hrun. cbn beta iota in Hrun.
  rewrite bind_run in Hrun. unfold get at 1 in Hrun. cbn beta iota in Hrun.
  cbn [fst snd] in Hrun.
  apply (commitGlyph_overlapSplit _ _ _ _ _ _ _ _
           (overlapTest (fst (cellSize (font (s p))))
              (_ligatureOverhangTriggerLeft (_d2dBeginDrawing b1))
              (_ligatureOverhangTriggerRight (_d2dBeginDrawing b1)) r bl br)) in Hrun.
  - rewrite Hrun. cbn [fst snd]. rewrite <- Htl, <- Htr.
    unfold _d2dBeginDrawing. destruct (_d2dBeganDrawing b1); reflexivity.
  - intros e0. unfold fontFill. rewrite Hbox. reflexivity.
Qed.

(** C5, as the code has it.  For a rasterised font glyph (non-empty ink box
    [bl .. br]) drawn with the thresholds [_updateFontDependents] derives
    from the font: with standard ligatures enabled [overlapSplit] is set
    exactly when the rectangle is at least one cell wide and the ink reaches
    [-halfCellWidth] on the left or [advanceWidth + halfCellWidth] on the
    right, both thresholds doubled on double-width and double-height rows; a
    glyph narrower than one cell never has it set; and with standard
    ligatures disabled the thresholds are the bounds of the coordinate type
    and on a single-width row [overlapSplit] is never set. *)
Theorem drawGlyph_overlapSplit (p : RenderingPayload) (r : LineRendition) (ff : FontFace)
    (g : Z) (b : BackendD3D) (e : AtlasGlyphEntry) (b' : BackendD3D) :
  let fs := font (s p) in
  let cw := fst (cellSize fs) in
  let bl := fst (fst (inkBox fs ff r g)) in
  let br := fst (snd (inkBox fs ff r g)) in
  let scale := if isDoubleWidth r then 2 else 1 in
  in_u16 cw -> in_u16 (advanceWidth fs) ->
  (_ligatureOverhangTriggerLeft b, _ligatureOverhangTriggerRight b) = ligatureTriggers fs ->
  inkEmpty fs ff r g = false ->
  _drawGlyph p r (Some ff) g b = Ok e b' ->
  (ligaturesDisabled (fontFeatures fs) = false ->
     overlapSplit e =
       (cw <=? br - bl)
       && ((bl <=? - (cw ÷ 2) * scale) || ((advanceWidth fs + cw ÷ 2) * scale <=? br)))
  /\ (br - bl < cw -> overlapSplit e = false)
  /\ (ligaturesDisabled (fontFeatures fs) = true ->
      ligatureTriggers fs = (CoordTypeMin, CoordTypeMax)
      /\ (r = SingleWidth -> CoordTypeMin < bl -> br < CoordTypeMax ->
          overlapSplit e = false)).
Proof.
  intros fs cw bl br scale Hcw Hadv Hsync Hink Hrun.
  rewrite (drawGlyph_overlapTest p r ff g b e b' Hink Hrun).
  fold fs cw bl br.
  replace (_ligatureOverhangTriggerLeft b) with (fst (ligatureTriggers fs))
    by (rewrite <- Hsync; reflexivity).
  replace (_ligatureOverhangTriggerRight b) with (snd (ligatureTriggers fs))
    by (rewrite <- Hsync; reflexivity).
  clear Hsync.
  unfold overlapTest, ligatureTriggers, in_u16 in *. fold cw.
  assert (Hhalf : 0 <= cw ÷ 2 <= cw).
  { split; [apply Z.quot_pos; lia | apply Z.quot_le_upper_bound; lia]. }
  split; [| split].
  - intros ->. cbn [fst snd]. unfold shl_i32, scale.
    destruct (isDoubleWidth r); rewrite ?Z.shiftl_mul_pow2, ?Z.shiftl_0_r by lia;
      rewrite !i32_id by lia; repeat f_equal; lia.
  - intros Hnarrow. destruct (Z.leb_spec cw (br - bl)); [lia | reflexivity].
  - intros ->. split; [reflexivity |].
    intros -> Hl Hr. cbn [fst snd isDoubleWidth]. unfold shl_i32.
    rewrite !Z.shiftl_0_r. unfold CoordTypeMin, CoordTypeMax in *.
    rewrite !i32_id by lia.
    destruct (Z.leb_spec bl (- 2 ^ 31)); [lia |].
    destruct (Z.leb_spec (2 ^ 31 - 1) br); [lia |].
    apply andb_false_r.
Qed.

End CacheTheorems.

(** ** Closed instances: cache, allocation, split, overlap *)

Definition LIGA_OFF : list (Z * Z) := [(DWRITE_FONT_FEATURE_TAG_STANDARD_LIGATURES, 0)].

Definition textPayload (features : list (Z * Z)) (rs : list ShapedRow) : RenderingPayload :=
  Sample.samplePayload
    (Sample.sampleSettings (Sample.sampleFont features) (1920, 1080) (120, 30)) rs.

(** The backend after the first settings update and the atlas reset that
    follows it. *)
Definition ready (p : RenderingPayload) : BackendD3D :=
  _resetGlyphAtlas p (_handleSettingsUpdate p initialBackend).

Definition entryOf (r : Result AtlasGlyphEntry) : option AtlasGlyphEntry :=
  match r with Ok e _ => Some e | Fail _ _ => None end.

Lemma entryOf_Some (r : Result AtlasGlyphEntry) e :
  entryOf r = Some e -> r = Ok e (stateOf r).
Proof. destruct r; cbn; congruence. Qed.

Lemma glyphCache_lookup_after_insert_witness :
  let p := textPayload [] [] in
  let run := _drawGlyph p SingleWidth (Some 1%positive) 65 (ready p) in
  let e := mkEntry 65 TextGrayscale false (1, -12) (8, 12) (0, 0) in
  lookupGlyph (Some 1%positive) SingleWidth 65 (ready p) = None
  /\ run = Ok e (stateOf run)
  /\ lookupGlyph (Some 1%positive) SingleWidth 65 (stateOf run) = Some e
  /\ lookupGlyph (Some 1%positive) SingleWidth 65 (_resetGlyphAtlas p (stateOf run)) = None.
Proof.
  intros p run e.
  assert (Hmiss : lookupGlyph (Some 1%positive) SingleWidth 65 (ready p) = None) by by_eval.
  assert (Hrun : run = Ok e (stateOf run)) by (apply entryOf_Some; by_eval).
  split; [exact Hmiss |]. split; [exact Hrun |].
  destruct (glyphCache_lookup_after_insert p (ready p) (Some 1%positive) SingleWidth 65)
    as (Hins & _).
  split; [exact (Hins e (stateOf run) Hmiss Hrun) |].
  destruct (glyphCache_lookup_after_insert p (stateOf run) (Some 1%positive) SingleWidth 65)
    as (_ & _ & _ & _ & _ & Hreset & _).
  exact Hreset.
Defined.

Lemma drawGlyphAtlasAllocate_single_retry_witness :
  let p := textPayload [] [] in
  let run := _drawGlyphAtlasAllocate p 8 12 initialBackend in
  tryPack 8 12 initialBackend = None
  /\ tryPack 8 12 (afterOverflow p 8 12 initialBackend) = Some ((8, 0, 12), (0, 0))
  /\ run = Ok (0, 0) (packed 8 12 (8, 0, 12) (afterOverflow p 8 12 initialBackend))
  /\ length (filter (fun e => isReset e = true) (since initialBackend (stateOf run))) = 1%nat.
Proof.
  intros p run.
  assert (H1 : tryPack 8 12 initialBackend = None) by by_eval.
  assert (H2 : tryPack 8 12 (afterOverflow p 8 12 initialBackend) = Some ((8, 0, 12), (0, 0)))
    by by_eval.
  destruct (drawGlyphAtlasAllocate_single_retry p 8 12 initialBackend) as (_ & Hfail).
  destruct (Hfail H1) as (Hresets & _ & Hretry & _).
  split; [exact H1 |]. split; [exact H2 |]. split; [exact (Hretry _ _ H2) | exact Hresets].
Defined.

(** A rectangle larger than the largest atlas: one reset, one retry, then
    the exception. *)
Example drawGlyphAtlasAllocate_throws :
  let p := textPayload [] [] in
  let run := _drawGlyphAtlasAllocate p 9000 9000 initialBackend in
  match run with Ok _ _ => None | Fail fl _ => Some fl end = Some ERROR_POSSIBLE_DEADLOCK
  /\ since initialBackend (stateOf run)
     = [PackRects 9000 9000 false; CreateCellBuffer; Dispatch;
        ResizeGlyphAtlas 1024 1024; ResetGlyphAtlas; PackRects 9000 9000 false].
Proof. by_eval. Qed.

Lemma splitDoubleHeightGlyph_halves_witness :
  let p := textPayload [] [] in
  let e := mkEntry 65 TextGrayscale false (2, -24) (16, 24) (0, 0) in
  exists top bottom b',
    _splitDoubleHeightGlyph p DoubleHeightTop (Some 1%positive) e (ready p) = Ok top b'
    /\ snd (size top) + snd (size bottom) = 24
    /\ snd (size top) = 14
    /\ snd (texcoord bottom) = snd (texcoord top) + snd (size top).
Proof.
  intros p e.
  destruct (splitDoubleHeightGlyph_halves p DoubleHeightTop (Some 1%positive) e (ready p))
    as (top & bottom & b' & Hrun & _ & _ & Hsum & Htop & _ & _ & Hty & _);
    [reflexivity | by_eval | by_eval | by_eval |].
  exists top, bottom, b'.
  split; [exact Hrun |]. split; [exact Hsum |]. split; [| exact Hty].
  rewrite Htop. reflexivity.
Defined.

Lemma drawBuiltinGlyph_no_overlapSplit_witness :
  let p := textPayload [] [] in
  let run := _drawBuiltinGlyph p DoubleWidth None 0x2500 (ready p) in
  let e := mkEntry 0x2500 TextBuiltinGlyph false (0, -15) (20, 20) (0, 0) in
  run = Ok e (stateOf run) /\ fst (size e) = 20 /\ overlapSplit e = false.
Proof.
  intros p run e.
  assert (Hrun : run = Ok e (stateOf run)) by (apply entryOf_Some; by_eval).
  split; [exact Hrun |].
  destruct (drawBuiltinGlyph_no_overlapSplit p DoubleWidth None 0x2500 (ready p) e _ Hrun)
    as (_ & Hwide & _).
  destruct (Hwide eq_refl) as [Hsz Hov]. split; [rewrite Hsz; reflexivity | exact Hov].
Defined.

(** C5, refuted as stated, twice over.  On a double-width row with
    ligatures enabled, a glyph 24 px wide (cell width 10) whose ink starts at
    -6, left of [-halfCellWidth = -5], gets [overlapSplit = false]: the
    thresholds are doubled there.  On a double-width row with standard
    ligatures disabled the thresholds are [CoordTypeMin] / [CoordTypeMax],
    yet a 16 px wide capital gets [overlapSplit = true]: shifted left by
    one, the two bounds wrap to 0 and -2. *)
Lemma drawGlyph_overlapSplit_counterexample :
  let on := textPayload [] [] in
  let off := textPayload LIGA_OFF [] in
  (ligatureTriggers (font (s on)) = (-5, 15)
   /\ option_map (fun e => (fst (offset e), fst (size e), overlapSplit e))
        (entryOf (_drawGlyph on DoubleWidth (Some 1%positive) 1002 (ready on)))
      = Some (-6, 24, false))
  /\ (ligatureTriggers (font (s off)) = (CoordTypeMin, CoordTypeMax)
      /\ (shl_i32 CoordTypeMin 1, shl_i32 CoordTypeMax 1) = (0, -2)
      /\ option_map (fun e => (fst (offset e), fst (size e), overlapSplit e))
           (entryOf (_drawGlyph off DoubleWidth (Some 1%positive) 65 (ready off)))
         = Some (2, 16, true)).
Proof. by_eval. Qed.

Lemma drawGlyph_overlapSplit_witness :
  let p := textPayload [] [] in
  let run := _drawGlyph p SingleWidth (Some 1%positive) 1000 (ready p) in
  let e := mkEntry 1000 TextGrayscale true (-6, -10) (31, 10) (0, 0) in
  run = Ok e (stateOf run) /\ overlapSplit e = true.
Proof.
  intros p run e.
  assert (Hrun : run = Ok e (stateOf run)) by (apply entryOf_Some; by_eval).
  split; [exact Hrun |].
  destruct (drawGlyph_overlapSplit p SingleWidth 1%positive 1000 (ready p) e (stateOf run))
    as (Hon & _); [by_eval | by_eval | by_eval | by_eval | exact Hrun |].
  rewrite Hon; by_eval.
Defined.

(** ** Writes outside the cell grid *)

Definition faultOf {A} (r : Result A) : option Fault :=
  match r with Ok _ _ => None | Fail fl _ => Some fl end.

(** A 132 x 43 viewport whose first row carries [n] capitals. *)
Definition wideViewport (n : nat) : RenderingPayload :=
  Sample.samplePayload
    (Sample.sampleSettings (Sample.sampleFont []) (1320, 860) (132, 43))
    [Sample.textRow (Some 1%positive) SingleWidth (replicate n 65)].

(** A 120 x 30 viewport with a glyph displaced left of column 0. *)
Definition displacedGlyph : RenderingPayload :=
  Sample.samplePayload
    (Sample.sampleSettings (Sample.sampleFont []) (1200, 600) (120, 30))
    [ {| mappings := [ {| fontFace := Some 1%positive; glyphsFrom := 0; glyphsTo := 1 |} ];
         glyphIndices := [65];
         glyphAdvances := [10%Q];
         glyphOffsets := [ {| advanceOffset := (-20)%Q; ascenderOffset := 0 |} ];
         lineRendition := SingleWidth |} ].

(** C9, on the code.  With 121 glyphs in a row of a 132-column viewport the
    glyph of column 120 is rounded to cell index [cx = 120] and the write
    [_cells[0][120]] leaves the 120-column array; with 120 glyphs the frame
    is drawn.  A glyph displaced 20 px to the left of column 0 is rounded to
    [cx = -1]. *)
Theorem drawText_index_out_of_bounds :
  let capital := mkEntry 65 TextGrayscale false (1, -12) (8, 12) (0, 0) in
  faultOf (Render (wideViewport 120) initialBackend) = None
  /\ faultOf (Render (wideViewport 121) initialBackend) = Some IndexOutOfBounds
  /\ cellOf (font (s (wideViewport 121))) 1200 15 capital = (0, 120)
  /\ faultOf (Render displacedGlyph initialBackend) = Some IndexOutOfBounds
  /\ cellOf (font (s displacedGlyph)) (-20) 15 capital = (0, -1).
Proof. by_eval. Qed.

(** ** The glyph loop *)

Lemma lrintf_inject_Z (q : Q) (z : Z) : (q == inject_Z z)%Q -> lrintf q = z.
Proof.
  intros Hq. unfold lrintf.
  assert (Hf : Qfloor q = z) by (rewrite Hq; apply Qfloor_Z).
  rewrite Hf.
  assert (Hr : (q - inject_Z z == 0)%Q) by (rewrite Hq; ring).
  assert (Hc : (q - inject_Z z ?= 1 # 2)%Q = Lt).
  { rewrite (Qcompare_comp _ _ Hr (1 # 2) (1 # 2) (Qeq_refl _)). reflexivity. }
  by rewrite Hc.
Qed.

Section GlyphLoop.
Context `{Platform}.

(** A cached entry, or the entry [_drawGlyph] makes on a miss. *)
Definition fetchGlyph (p : RenderingPayload) (r : LineRendition) (f : option FontFace) (g : Z)
    : M AtlasGlyphEntry :=
  bind (get (lookupGlyph f r g)) (fun cached =>
    match cached with
    | Some e => ret e
    | None => _drawGlyph p r f g
    end).

(** [glyphIndex] and [dx] of one iteration. *)
Definition glyphAt (row : ShapedRow) (f : option FontFace) (x : nat) : M (Z * nat) :=
  bind (index (glyphIndices row) x) (fun g0 =>
    if bool_decide (f = None) && is_leading_surrogate g0
    then bind (index (glyphIndices row) (x + 1)) (fun g1 =>
           ret (combine_surrogates g0 g1, 2%nat))
    else ret (g0, 1%nat)).

Definition stampAt (p : RenderingPayload) (row : ShapedRow) (baselineY scaleX scaleY : Q)
    (x : nat) (baselineX : Q) (e : AtlasGlyphEntry) : M unit :=
  if decide (shadingType e = Default) then ret tt
  else
    bind (index (glyphOffsets row) x) (fun o =>
      stampGlyph (font (s p))
        (lrintf ((baselineX + advanceOffset o) * scaleX))
        (lrintf ((baselineY - ascenderOffset o) * scaleY)) e).

Lemma glyphLoop_step fuel p row f baselineY scaleX scaleY to x baselineX b :
  glyphLoop (S fuel) p row f baselineY scaleX scaleY to x baselineX b =
    if (x <? to)%nat then
      bind (glyphAt row f x) (fun gdx =>
      bind (fetchGlyph p (lineRendition row) f (fst gdx)) (fun e =>
      bind (stampAt p row baselineY scaleX scaleY x baselineX e) (fun _ =>
      bind (index (glyphAdvances row) x) (fun adv =>
      glyphLoop fuel p row f baselineY scaleX scaleY to (x + snd gdx)%nat
        (baselineX + adv)%Q)))) b
    else Ok baselineX b.
Proof.
  cbn [glyphLoop]. destruct (x <? to)%nat; [| reflexivity].
  unfold glyphAt, fetchGlyph, stampAt. rewrite !bind_run.
  destruct (index (glyphIndices row) x b) as [g0 b0 | fl b0]; [| reflexivity].
  destruct (bool_decide (f = None) && is_leading_surrogate g0).
  - rewrite !bind_run.
    destruct (index (glyphIndices row) (x + 1) b0) as [g1 b1 | fl b1]; reflexivity.
  - reflexivity.
Qed.

(** Entries of glyphs without ink carry shading type [Default]. *)
Definition blanksDefault (fs : FontSettings) (b : BackendD3D) : Prop :=
  forall ff r g e,
    lookupGlyph (Some ff) r g b = Some e -> inkEmpty fs ff r g = true ->
    shadingType e = Default.

(** What a stretch of glyphs without ink leaves unchanged. *)
Record blankStep (fs : FontSettings) (b b' : BackendD3D) : Prop := {
  blank_cells : _cells b' = _cells b;
  blank_packer : _rectPacker b' = _rectPacker b;
  blank_trace : trace b' = trace b;
  blank_began : _d2dBeganDrawing b' = _d2dBeganDrawing b;
  blank_settings : keepsSettings b b';
  blank_builtin : _builtinGlyphs b' = _builtinGlyphs b;
  blank_lookup : forall ff r g,
    inkEmpty fs ff r g = false ->
    lookupGlyph (Some ff) r g b' = lookupGlyph (Some ff) r g b;
  blank_default : blanksDefault fs b -> blanksDefault fs b';
}.

Lemma blankStep_refl fs b : blankStep fs b b.
Proof. split; auto. apply (frame_refl (R := keepsSettings)). Qed.

Lemma blankStep_trans fs a b c : blankStep fs a b -> blankStep fs b c -> blankStep fs a c.
Proof.
  intros [] []. split; try congruence; auto.
  - eapply (frame_trans (R := keepsSettings)); eassumption.
  - intros ff r g Hink. rewrite blank_lookup1, blank_lookup0; auto.
Qed.

Lemma blankStep_insertFontFace fs f b : blankStep fs b (insertFontFace f b).
Proof.
  split; try (unfold insertFontFace; destruct f as [ff |]; [destruct (_ !! ff) |]; reflexivity).
  - apply (frame_insertFontFace keepsSettings).
  - intros ff r g _. apply lookupGlyph_insertFontFace.
  - intros Hd ff r g e. rewrite lookupGlyph_insertFontFace. apply Hd.
Qed.

Lemma blankStep_store fs ff r g b :
  inkEmpty fs ff r g = true ->
  blankStep fs b (storeGlyph (Some ff) r (blankEntry g) b).
Proof.
  intros Hink. split; try reflexivity.
  - apply (frame_storeGlyph keepsSettings).
  - intros ff' r' g' Hink'. rewrite lookupGlyph_storeGlyph, decide_False; [reflexivity |].
    cbn. intros [= -> -> ->]. congruence.
  - intros Hd ff' r' g' e. rewrite lookupGlyph_storeGlyph.
    case_decide as Heq; [| apply Hd]. by intros [= <-].
Qed.

(** Fetching a glyph without ink: the entry has shading type [Default]. *)
Lemma fetchGlyph_blank p ff r g b :
  inkEmpty (font (s p)) ff r g = true ->
  blanksDefault (font (s p)) b ->
  exists e b',
    fetchGlyph p r (Some ff) g b = Ok e b'
    /\ shadingType e = Default
    /\ blankStep (font (s p)) b b'.
Proof.
  intros Hink Hd. unfold fetchGlyph, get. rewrite bind_run.
  destruct (lookupGlyph (Some ff) r g b) as [e |] eqn:Hl.
  - exists e, b. split; [reflexivity |]. split; [by eapply Hd | apply blankStep_refl].
  - rewrite drawGlyph_font_unfold, Hink, (drawGlyphAllocateEntry_miss _ _ _ _ Hl).
    eexists _, _. split; [reflexivity |]. split; [reflexivity |].
    by apply blankStep_store.
Qed.

(** The pen position after the [n] glyphs from [x] on. *)
Definition penAfter (row : ShapedRow) (x n : nat) (baselineX : Q) : Q :=
  fold_left Qplus (take n (drop x (glyphAdvances row))) baselineX.

(** The glyphs [x .. x + n) of the row have no ink in font face [ff]. *)
Definition blankGlyphs (fs : FontSettings) (row : ShapedRow) (ff : FontFace) (x n : nat)
    : bool :=
  (x + n <=? length (glyphIndices row))%nat
  && (x + n <=? length (glyphAdvances row))%nat
  && forallb (inkEmpty fs ff (lineRendition row)) (take n (drop x (glyphIndices row))).

Lemma blankGlyphs_S fs row ff x n :
  blankGlyphs fs row ff x (S n) = true ->
  exists g a,
    glyphIndices row !! x = Some g
    /\ glyphAdvances row !! x = Some a
    /\ inkEmpty fs ff (lineRendition row) g = true
    /\ blankGlyphs fs row ff (S x) n = true
    /\ forall q, penAfter row x (S n) q = penAfter row (S x) n (q + a)%Q.
Proof.
  unfold blankGlyphs, penAfter. rewrite !andb_true_iff, !Nat.leb_le.
  intros [[Hi Ha] Hall].
  destruct (lookup_lt_is_Some_2 (glyphIndices row) x) as [g Hg]; [lia |].
  destruct (lookup_lt_is_Some_2 (glyphAdvances row) x) as [a Hadv]; [lia |].
  rewrite (drop_S _ _ _ Hg) in Hall. rewrite (drop_S _ _ _ Hadv).
  cbn [take forallb] in Hall. apply andb_true_iff in Hall as [Hg0 Hrest].
  exists g, a. rewrite !andb_true_iff, !Nat.leb_le.
  repeat split; try assumption; lia.
Qed.

Lemma glyphLoop_done fuel p row f baselineY scaleX scaleY to x baselineX b :
  (to <= x)%nat ->
  glyphLoop fuel p row f baselineY scaleX scaleY to x baselineX b = Ok baselineX b.
Proof.
  intros Hx. destruct fuel; [reflexivity |].
  rewrite glyphLoop_step. by rewrite (proj2 (Nat.ltb_ge x to) Hx).
Qed.

Lemma glyphAt_font row ff x g b :
  glyphIndices row !! x = Some g ->
  glyphAt row (Some ff) x b = Ok (g, 1%nat) b.
Proof.
  intros Hg. unfold glyphAt, index. rewrite bind_run, Hg. reflexivity.
Qed.

(** Glyphs without ink are skipped: the loop leaves the grid, the packer and
    every entry of a glyph with ink as they are, and moves the pen on. *)
Lemma glyphLoop_skip p row ff baselineY scaleX scaleY to n :
  forall fuel x baselineX b,
    (x + n <= to)%nat ->
    blankGlyphs (font (s p)) row ff x n = true ->
    blanksDefault (font (s p)) b ->
    exists b',
      glyphLoop (n + fuel) p row (Some ff) baselineY scaleX scaleY to x baselineX b
      = glyphLoop fuel p row (Some ff) baselineY scaleX scaleY to (x + n)
          (penAfter row x n baselineX) b'
      /\ blankStep (font (s p)) b b'
      /\ blanksDefault (font (s p)) b'.
Proof.
  induction n as [| n IH]; intros fuel x baselineX b Hto Hblank Hd.
  - exists b. rewrite Nat.add_0_r. split; [reflexivity |].
    split; [apply blankStep_refl | assumption].
  - destruct (blankGlyphs_S _ _ _ _ _ Hblank) as (g & a & Hg & Ha & Hink & Hrest & Hpen).
    destruct (fetchGlyph_blank p ff (lineRendition row) g b Hink Hd)
      as (e & b1 & Hfetch & Hshade & Hstep).
    destruct (IH fuel (S x) (baselineX + a)%Q b1) as (b' & Hrun & Hstep' & Hd');
      [lia | assumption | by apply (blank_default _ _ _ Hstep) |].
    exists b'. split; [| split; [by eapply blankStep_trans | assumption]].
    cbn [Nat.add]. rewrite glyphLoop_step.
    rewrite (proj2 (Nat.ltb_lt x to)) by lia.
    rewrite bind_run, (glyphAt_font _ _ _ _ _ Hg). cbn [fst snd].
    rewrite bind_run, Hfetch.
    rewrite bind_run. unfold stampAt. rewrite decide_True by assumption.
    unfold ret at 1. cbn beta iota.
    rewrite bind_run. unfold index at 1. rewrite Ha. unfold ret at 1. cbn beta iota.
    rewrite Hpen. replace (x + S n)%nat with (S x + n)%nat by lia.
    replace (x + 1)%nat with (S x) by lia. exact Hrun.
Qed.

(** Width and height of the atlas rectangle of a glyph with ink. *)
Definition inkSize (fs : FontSettings) (ff : FontFace) (r : LineRendition) (g : Z) : Z * Z :=
  let '(bl, bt, (br, bb)) := inkBox fs ff r g in (br - bl, bb - bt).

(** The entry of a font glyph with ink that the packer placed at [xy]. *)
Definition inkEntry (fs : FontSettings) (ff : FontFace) (r : LineRendition) (g : Z)
    (b : BackendD3D) (xy : Z * Z) : AtlasGlyphEntry :=
  fontFill fs ff r g (_ligatureOverhangTriggerLeft b) (_ligatureOverhangTriggerRight b)
    (_textShadingType b) xy (blankEntry g).

(** Rasterising a glyph with ink on a row that is not double height, when
    the packer has room for it. *)
Lemma fetchGlyph_ink p ff r g b n xy :
  isDoubleHeight r = false ->
  inkEmpty (font (s p)) ff r g = false ->
  lookupGlyph (Some ff) r g b = None ->
  tryPack (fst (inkSize (font (s p)) ff r g)) (snd (inkSize (font (s p)) ff r g)) b
    = Some (n, xy) ->
  exists b',
    fetchGlyph p r (Some ff) g b = Ok (inkEntry (font (s p)) ff r g b xy) b'
    /\ lookupGlyph (Some ff) r g b' = Some (inkEntry (font (s p)) ff r g b xy)
    /\ (forall f' r' g', (f', r', g') <> (Some ff, r, g) ->
        lookupGlyph f' r' g' b' = lookupGlyph f' r' g' b)
    /\ _cells b' = _cells b.
Proof.
  intros Hdh Hink Hmiss Hpack.
  unfold fetchGlyph, get. rewrite bind_run, Hmiss.
  rewrite drawGlyph_font_unfold, Hink.
  unfold inkSize in Hpack. unfold inkEntry.
  destruct (inkBox (font (s p)) ff r g) as [[bl bt] [br bb]] eqn:Hbox.
  cbn [fst snd] in Hpack.
  rewrite bind_run, drawGlyphAtlasAllocate_run, Hpack.
  rewrite bind_run. unfold modify at 1. cbn beta iota.
  rewrite bind_run. unfold get at 1. cbn beta iota. cbn [fst snd].
  set (b0 := _d2dBeginDrawing (packed (br - bl) (bb - bt) n b)).
  assert (Hsame : sameGlyphs b b0).
  { subst b0. destruct (sameGlyphs_d2dBeginDrawing (packed (br - bl) (bb - bt) n b)) as [H1 H2].
    split; [rewrite H1 | rewrite H2]; reflexivity. }
  assert (Hset : keepsSettings b b0).
  { subst b0. eapply (frame_trans (R := keepsSettings));
      [apply (frame_packed keepsSettings) | apply (frame_d2dBeginDrawing keepsSettings)]. }
  destruct Hset as (Hset & _).
  unfold settingsOf in Hset. injection Hset as _ _ _ _ _ _ _ _ Hshade Hleft Hright.
  rewrite Hshade, Hleft, Hright.
  set (fill := fontFill (font (s p)) ff r g _ _ _ xy).
  destruct (commitGlyph_miss p r (Some ff) g fill b0) as
    (e & b' & Hrun & Hlk & _ & Hsingle & _ & Hframe & Hcells & _).
  { by rewrite (lookupGlyph_sameGlyphs _ _ _ _ _ Hsame). }
  { intros e. subst fill. unfold fontFill. rewrite Hbox. reflexivity. }
  specialize (Hsingle Hdh). subst e.
  exists b'. split; [exact Hrun |]. split; [exact Hlk |].
  split.
  - intros f' r' g' Hne.
    rewrite Hframe, (lookupGlyph_sameGlyphs _ _ _ _ _ Hsame); [reflexivity |].
    unfold writtenKeys. rewrite Hdh. cbn. intros [Heq | []]. by apply Hne.
  - rewrite Hcells. subst b0. by rewrite cells_d2dBeginDrawing, cells_packed.
Qed.

Lemma inkEntry_keepsSettings fs ff r g b b' xy :
  keepsSettings b b' -> inkEntry fs ff r g b' xy = inkEntry fs ff r g b xy.
Proof.
  intros (Hset & _). unfold settingsOf in Hset.
  injection Hset as _ _ _ _ _ _ _ _ Hshade Hleft Hright.
  unfold inkEntry. by rewrite Hshade, Hleft, Hright.
Qed.

Lemma shadingType_inkEntry fs ff r g b xy :
  _textShadingType b <> Default ->
  shadingType (inkEntry fs ff r g b xy) <> Default.
Proof.
  intros Hshade. unfold inkEntry, fontFill.
  destruct (inkBox fs ff r g) as [[bl bt] [br bb]]. cbn [shadingType].
  by destruct (colorGlyphs fs && TranslateColorGlyphRun ff (u16 g)).
Qed.

Lemma lookupGlyph_set_cells f r g c b :
  lookupGlyph f r g (set_cells c b) = lookupGlyph f r g b.
Proof. reflexivity. Qed.

(** [_cells[cy][cx]] with the glyph coordinates replaced. *)
Definition stamped (cy cx : Z) (e : AtlasGlyphEntry) (cells : list Cell) : list Cell :=
  alter (fun c => mkCell (background c) (foreground c) (fst (texcoord e)) (snd (texcoord e)))
    (Z.to_nat (cy * cellColumns + cx)) cells.

Lemma stampGlyph_run fs l t e cy cx b :
  fst (cellSize fs) <> 0 -> snd (cellSize fs) <> 0 ->
  cellOf fs l t e = (cy, cx) ->
  0 <= cy < cellRows -> 0 <= cx < cellColumns ->
  stampGlyph fs l t e b = Ok tt (set_cells (stamped cy cx e (_cells b)) b).
Proof.
  intros Hw Hh Hcell Hcy Hcx. unfold stampGlyph.
  rewrite (proj2 (Z.eqb_neq _ _) Hw), (proj2 (Z.eqb_neq _ _) Hh). cbn [orb].
  rewrite Hcell. unfold setCellGlyph.
  rewrite (proj2 (Z.leb_le 0 cy)), (proj2 (Z.ltb_lt cy cellRows)),
    (proj2 (Z.leb_le 0 cx)), (proj2 (Z.ltb_lt cx cellColumns)) by lia.
  reflexivity.
Qed.

(** One mapping whose only glyph with ink is the one at index [c]: the loop
    rasterises it, stamps one cell and skips the rest. *)
Lemma glyphLoop_oneInk p row ff baselineY scaleX scaleY x0 c m g a o n xy cy cx baselineX b :
  let fs := font (s p) in
  let r := lineRendition row in
  let e := inkEntry fs ff r g b xy in
  let pen := penAfter row x0 (c - x0) baselineX in
  isDoubleHeight r = false ->
  (x0 <= c)%nat ->
  blankGlyphs fs row ff x0 (c - x0) = true ->
  glyphIndices row !! c = Some g ->
  glyphAdvances row !! c = Some a ->
  glyphOffsets row !! c = Some o ->
  blankGlyphs fs row ff (S c) m = true ->
  inkEmpty fs ff r g = false ->
  lookupGlyph (Some ff) r g b = None ->
  tryPack (fst (inkSize fs ff r g)) (snd (inkSize fs ff r g)) b = Some (n, xy) ->
  _textShadingType b <> Default ->
  blanksDefault fs b ->
  fst (cellSize fs) <> 0 -> snd (cellSize fs) <> 0 ->
  cellOf fs (lrintf ((pen + advanceOffset o) * scaleX))
    (lrintf ((baselineY - ascenderOffset o) * scaleY)) e = (cy, cx) ->
  0 <= cy < cellRows -> 0 <= cx < cellColumns ->
  exists q b',
    glyphLoop (S c + m - x0) p row (Some ff) baselineY scaleX scaleY (S c + m) x0 baselineX b
    = Ok q b'
    /\ _cells b' = stamped cy cx e (_cells b)
    /\ lookupGlyph (Some ff) r g b' = Some e
    /\ blanksDefault fs b'.
Proof.
  intros fs r e pen Hdh Hx0 Hpre Hg Ha Ho Hpost Hink Hmiss Hpack Hshade Hd Hw Hh Hcell Hcy Hcx.
  destruct (glyphLoop_skip p row ff baselineY scaleX scaleY (S c + m) (c - x0)
              (S m) x0 baselineX b) as (b1 & Hrun1 & Hstep1 & Hd1);
    [lia | assumption | assumption |].
  replace (S c + m - x0)%nat with (c - x0 + S m)%nat by lia.
  rewrite Hrun1. replace (x0 + (c - x0))%nat with c by lia. fold pen.
  destruct (fetchGlyph_ink p ff r g b1 n xy) as (b2 & Hfetch & Hlk2 & Hframe2 & Hcells2);
    [assumption | assumption
     | by rewrite (blank_lookup _ _ _ Hstep1)
     | unfold tryPack; rewrite (blank_packer _ _ _ Hstep1); exact Hpack |].
  fold fs in Hfetch, Hlk2.
  rewrite (inkEntry_keepsSettings _ _ _ _ _ _ _ (blank_settings _ _ _ Hstep1)) in Hfetch, Hlk2.
  fold e in Hfetch, Hlk2.
  set (b3 := set_cells (stamped cy cx e (_cells b2)) b2).
  assert (Hd3 : blanksDefault fs b3).
  { intros ff' r' g' e' Hl' Hink'. subst b3. rewrite lookupGlyph_set_cells in Hl'.
    rewrite Hframe2 in Hl'; [by eapply Hd1 |].
    intros [= -> -> ->]. fold fs r in Hink. congruence. }
  destruct (glyphLoop_skip p row ff baselineY scaleX scaleY (S c + m) m 0 (S c)
              (pen + a)%Q b3) as (b4 & Hrun4 & Hstep4 & Hd4);
    [lia | assumption | assumption |].
  rewrite (glyphLoop_done 0) in Hrun4 by lia.
  eexists _, b4. split; [| split; [| split; [| assumption]]].
  - rewrite glyphLoop_step, (proj2 (Nat.ltb_lt c (S c + m))) by lia.
    rewrite bind_run, (glyphAt_font _ _ _ _ _ Hg). cbn [fst snd].
    rewrite bind_run. fold r. rewrite Hfetch.
    rewrite bind_run. unfold stampAt.
    rewrite decide_False by (by apply shadingType_inkEntry).
    rewrite bind_run. unfold index at 1. rewrite Ho. unfold ret at 1. cbn beta iota.
    fold fs. rewrite (stampGlyph_run fs _ _ e cy cx) by assumption.
    fold b3. rewrite bind_run. unfold index at 1. rewrite Ha. unfold ret at 1. cbn beta iota.
    replace (c + 1)%nat with (S c) by lia.
    rewrite Nat.add_0_r in Hrun4. exact Hrun4.
  - rewrite (blank_cells _ _ _ Hstep4). subst b3. cbn [_cells set_cells].
    by rewrite Hcells2, (blank_cells _ _ _ Hstep1).
  - rewrite (blank_lookup _ _ _ Hstep4) by assumption. exact Hlk2.
Qed.

End GlyphLoop.

(** ** Rows *)

Section Rows.
Context `{Platform}.

(** A mapping all of whose glyphs lack ink (or that covers no glyph). *)
Definition blankMapping (fs : FontSettings) (row : ShapedRow) (m : FontMapping) : bool :=
  match fontFace m with
  | Some ff => blankGlyphs fs row ff (glyphsFrom m) (glyphsTo m - glyphsFrom m)
  | None => (glyphsTo m <=? glyphsFrom m)%nat
  end.

Definition blankRow (fs : FontSettings) (row : ShapedRow) : bool :=
  forallb (blankMapping fs row) (mappings row).

Lemma glyphLoop_blankMapping p row baselineY scaleX scaleY m baselineX b :
  blankMapping (font (s p)) row m = true ->
  blanksDefault (font (s p)) b ->
  exists q b',
    glyphLoop (glyphsTo m - glyphsFrom m) p row (fontFace m) baselineY scaleX scaleY
      (glyphsTo m) (glyphsFrom m) baselineX b = Ok q b'
    /\ blankStep (font (s p)) b b'
    /\ blanksDefault (font (s p)) b'.
Proof.
  intros Hm Hd. unfold blankMapping in Hm.
  destruct (le_lt_dec (glyphsTo m) (glyphsFrom m)) as [Hle | Hlt].
  - exists baselineX, b. rewrite glyphLoop_done by assumption.
    split; [reflexivity |]. split; [apply blankStep_refl | assumption].
  - destruct (fontFace m) as [ff |]; [| apply Nat.leb_le in Hm; lia].
    destruct (glyphLoop_skip p row ff baselineY scaleX scaleY (glyphsTo m)
                (glyphsTo m - glyphsFrom m) 0 (glyphsFrom m) baselineX b)
      as (b' & Hrun & Hstep & Hd'); [lia | assumption | assumption |].
    rewrite Nat.add_0_r in Hrun. rewrite Hrun. cbn [glyphLoop].
    eexists _, b'. split; [reflexivity |]. split; assumption.
Qed.

Lemma mappingLoop_blank p row baselineY scaleX scaleY ms :
  forall baselineX b,
    forallb (blankMapping (font (s p)) row) ms = true ->
    blanksDefault (font (s p)) b ->
    exists q b',
      mappingLoop p row baselineY scaleX scaleY ms baselineX b = Ok q b'
      /\ blankStep (font (s p)) b b'
      /\ blanksDefault (font (s p)) b'.
Proof.
  induction ms as [| m ms IH]; intros baselineX b Hall Hd.
  - exists baselineX, b. split; [reflexivity |]. split; [apply blankStep_refl | assumption].
  - cbn [forallb] in Hall. apply andb_true_iff in Hall as [Hm Hms].
    pose proof (blankStep_insertFontFace (font (s p)) (fontFace m) b) as Hstep0.
    destruct (glyphLoop_blankMapping p row baselineY scaleX scaleY m baselineX
                (insertFontFace (fontFace m) b) Hm (blank_default _ _ _ Hstep0 Hd))
      as (q1 & b1 & Hrun1 & Hstep1 & Hd1).
    destruct (IH q1 b1 Hms Hd1) as (q2 & b2 & Hrun2 & Hstep2 & Hd2).
    exists q2, b2. split; [| split; [| assumption]].
    + cbn [mappingLoop]. rewrite bind_run. unfold modify at 1. cbn beta iota.
      rewrite bind_run, Hrun1. exact Hrun2.
    + eapply blankStep_trans; [| exact Hstep2].
      eapply blankStep_trans; [exact Hstep0 | exact Hstep1].
Qed.

Lemma drawRow_blank p y row b :
  blankRow (font (s p)) row = true ->
  blanksDefault (font (s p)) b ->
  exists b',
    drawRow p y row b = Ok tt b'
    /\ blankStep (font (s p)) b b'
    /\ blanksDefault (font (s p)) b'.
Proof.
  intros Hrow Hd. unfold drawRow. cbv zeta.
  match goal with
  | |- context [mappingLoop p row ?bY ?sX ?sY (mappings row) ?q] =>
      destruct (mappingLoop_blank p row bY sX sY (mappings row) q b Hrow Hd)
        as (q' & b' & Hrun & Hstep & Hd')
  end.
  exists b'. rewrite bind_run, Hrun. split; [reflexivity |]. split; assumption.
Qed.

Lemma rowLoop_blank p rs :
  forall y b,
    forallb (blankRow (font (s p))) rs = true ->
    blanksDefault (font (s p)) b ->
    exists b',
      rowLoop p y rs b = Ok tt b'
      /\ blankStep (font (s p)) b b'
      /\ blanksDefault (font (s p)) b'.
Proof.
  induction rs as [| row rs IH]; intros y b Hall Hd.
  - exists b. split; [reflexivity |]. split; [apply blankStep_refl | assumption].
  - cbn [forallb] in Hall. apply andb_true_iff in Hall as [Hrow Hrs].
    destruct (drawRow_blank p y row b Hrow Hd) as (b1 & Hrun1 & Hstep1 & Hd1).
    destruct (IH (u16 (y + 1)) b1 Hrs Hd1) as (b2 & Hrun2 & Hstep2 & Hd2).
    exists b2. cbn [rowLoop]. rewrite bind_run, Hrun1.
    split; [exact Hrun2 |]. split; [by eapply blankStep_trans | assumption].
Qed.

(** The [u16] row counter after [n] rows. *)
Definition rowCounter (n : nat) (y : Z) : Z := Nat.iter n (fun y => u16 (y + 1)) y.

Lemma rowCounter_0 n : Z.of_nat n < 65536 -> rowCounter n 0 = Z.of_nat n.
Proof.
  induction n as [| n IH]; intros Hn; [reflexivity |].
  change (rowCounter (S n) 0) with (u16 (rowCounter n 0 + 1)).
  rewrite IH by lia. rewrite u16_id by (unfold in_u16; lia). lia.
Qed.

Lemma rowLoop_blank_prefix p rs1 rs2 :
  forall y b,
    forallb (blankRow (font (s p))) rs1 = true ->
    blanksDefault (font (s p)) b ->
    exists b',
      rowLoop p y (rs1 ++ rs2) b = rowLoop p (rowCounter (length rs1) y) rs2 b'
      /\ blankStep (font (s p)) b b'
      /\ blanksDefault (font (s p)) b'.
Proof.
  induction rs1 as [| row rs1 IH]; intros y b Hall Hd.
  - exists b. split; [reflexivity |]. split; [apply blankStep_refl | assumption].
  - cbn [forallb] in Hall. apply andb_true_iff in Hall as [Hrow Hrs].
    destruct (drawRow_blank p y row b Hrow Hd) as (b1 & Hrun1 & Hstep1 & Hd1).
    destruct (IH (u16 (y + 1)) b1 Hrs Hd1) as (b2 & Hrun2 & Hstep2 & Hd2).
    exists b2. cbn [app rowLoop length]. rewrite bind_run, Hrun1.
    unfold rowCounter in *. rewrite Nat.iter_succ_r.
    split; [exact Hrun2 |]. split; [by eapply blankStep_trans | assumption].
Qed.

Lemma fold_left_Qplus_replicate n (q q0 : Q) :
  (fold_left Qplus (replicate n q) q0 == q0 + inject_Z (Z.of_nat n) * q)%Q.
Proof.
  revert q0. induction n as [| n IH]; intros q0.
  - cbn [replicate fold_left]. change (inject_Z (Z.of_nat 0)) with 0%Q. ring.
  - cbn [replicate fold_left]. rewrite IH.
    rewrite Nat2Z.inj_succ, <- Z.add_1_r, inject_Z_plus. change (inject_Z 1) with 1%Q. ring.
Qed.

(** The offset of the ink box of a glyph from the pen position. *)
Definition inkOffset (fs : FontSettings) (ff : FontFace) (r : LineRendition) (g : Z) : Z * Z :=
  let '(bl, bt, _) := inkBox fs ff r g in (i16 bl, i16 bt).

Lemma offset_inkEntry fs ff r g b xy :
  offset (inkEntry fs ff r g b xy) = inkOffset fs ff r g.
Proof.
  unfold inkEntry, fontFill, inkOffset. by destruct (inkBox fs ff r g) as [[bl bt] [br bb]].
Qed.

Lemma texcoord_inkEntry fs ff r g b xy :
  texcoord (inkEntry fs ff r g b xy) = (u16 (fst xy), u16 (snd xy)).
Proof.
  unfold inkEntry, fontFill. by destruct (inkBox fs ff r g) as [[bl bt] [br bb]].
Qed.

(** A row of single-width cells whose only glyph with ink is at column [c]. *)
Lemma drawRow_oneInk p y adv ff gs c g n xy cy cx b :
  let fs := font (s p) in
  let e := inkEntry fs ff SingleWidth g b xy in
  gs !! c = Some g ->
  inkEmpty fs ff SingleWidth g = false ->
  forallb (inkEmpty fs ff SingleWidth) (take c gs ++ drop (S c) gs) = true ->
  lookupGlyph (Some ff) SingleWidth g b = None ->
  tryPack (fst (inkSize fs ff SingleWidth g)) (snd (inkSize fs ff SingleWidth g)) b
    = Some (n, xy) ->
  _textShadingType b <> Default ->
  blanksDefault fs b ->
  fst (cellSize fs) <> 0 -> snd (cellSize fs) <> 0 ->
  cellOf fs (Z.of_nat c * adv) (y * snd (cellSize fs) + baseline fs) e = (cy, cx) ->
  0 <= cy < cellRows -> 0 <= cx < cellColumns ->
  exists b',
    drawRow p y (cellRow adv (Some ff) SingleWidth gs) b = Ok tt b'
    /\ _cells b' = stamped cy cx e (_cells b)
    /\ lookupGlyph (Some ff) SingleWidth g b' = Some e
    /\ blanksDefault fs b'.
Proof.
  intros fs e Hg Hink Hblank Hmiss Hpack Hshade Hd Hw Hh Hcell Hcy Hcx.
  assert (Hc : (c < length gs)%nat) by (by eapply lookup_lt_Some).
  rewrite forallb_app in Hblank. apply andb_true_iff in Hblank as [Hpre Hpost].
  set (row := cellRow adv (Some ff) SingleWidth gs).
  set (b0 := insertFontFace (Some ff) b).
  pose proof (blankStep_insertFontFace fs (Some ff) b) as Hstep0. fold b0 in Hstep0.
  set (baselineY := inject_Z (y * snd (cellSize fs) + baseline fs)).
  destruct (glyphLoop_oneInk p row ff baselineY 1%Q 1%Q 0 c (length gs - S c) g
              (inject_Z adv) {| advanceOffset := 0; ascenderOffset := 0 |} n xy cy cx 0%Q b0)
    as (q & b' & Hrun & Hcells & Hlk & Hd').
  - reflexivity.
  - lia.
  - unfold blankGlyphs. subst row. cbn [glyphIndices glyphAdvances lineRendition cellRow].
    rewrite length_replicate, Nat.sub_0_r, drop_0.
    rewrite !andb_true_iff, !Nat.leb_le. fold fs. repeat split; [lia | lia | exact Hpre].
  - exact Hg.
  - subst row. cbn [glyphAdvances cellRow]. by apply lookup_replicate_2.
  - subst row. cbn [glyphOffsets cellRow]. by apply lookup_replicate_2.
  - unfold blankGlyphs. subst row. cbn [glyphIndices glyphAdvances lineRendition cellRow].
    rewrite length_replicate.
    rewrite !andb_true_iff, !Nat.leb_le. fold fs. repeat split; [lia | lia |].
    rewrite take_ge by (rewrite length_drop; lia). exact Hpost.
  - exact Hink.
  - subst b0. by rewrite lookupGlyph_insertFontFace.
  - unfold tryPack. rewrite (blank_packer _ _ _ Hstep0). exact Hpack.
  - destruct (blank_settings _ _ _ Hstep0) as (Hset & _). unfold settingsOf in Hset.
    injection Hset as _ _ _ _ _ _ _ _ Hs _ _. by rewrite Hs.
  - by apply (blank_default _ _ _ Hstep0).
  - exact Hw.
  - exact Hh.
  - rewrite (inkEntry_keepsSettings _ _ _ _ _ _ _ (blank_settings _ _ _ Hstep0)).
    cbn [advanceOffset ascenderOffset].
    rewrite (lrintf_inject_Z _ (Z.of_nat c * adv)), (lrintf_inject_Z _ (y * snd (cellSize fs) + baseline fs)).
    + exact Hcell.
    + subst baselineY. ring.
    + unfold penAfter. subst row. cbn [glyphAdvances cellRow].
      rewrite Nat.sub_0_r, drop_0, take_replicate, fold_left_Qplus_replicate.
      rewrite Nat.min_l by lia. rewrite inject_Z_mult. ring.
  - exact Hcy.
  - exact Hcx.
  - rewrite (inkEntry_keepsSettings _ _ _ _ _ _ _ (blank_settings _ _ _ Hstep0)) in Hcells, Hlk.
    exists b'. split; [| split; [| split]].
    + unfold drawRow. cbv zeta. rewrite bind_run.
      subst row. cbn [mappings cellRow mappingLoop lineRendition isDoubleWidth isDoubleHeight fontFace glyphsTo glyphsFrom] in *.
      rewrite bind_run. unfold modify at 1. cbn beta iota. fold b0.
      rewrite bind_run.
      replace (S c + (length gs - S c))%nat with (length gs) in Hrun by lia.
      fold fs. fold baselineY. rewrite Hrun. reflexivity.
    + rewrite Hcells. by rewrite (blank_cells _ _ _ Hstep0).
    + exact Hlk.
    + exact Hd'.
Qed.

End Rows.

(** ** A frame with one glyph *)

Section OneGlyph.
Context `{Platform}.

(** The grid [_drawBackground] leaves: the colours of the two bitmaps and no
    glyph anywhere. *)
Definition backgroundCells (p : RenderingPayload) : list Cell :=
  zip_with (fun bg fg => mkCell bg fg noGlyph noGlyph)
    (take cellCount (backgroundBitmap p)) (take cellCount (foregroundBitmap p)).

(** [(glyphX, glyphY)] of [_cells[cy][cx]]. *)
Definition glyphOfCell (cells : list Cell) (cy cx : Z) : option (Z * Z) :=
  (fun c => (glyphX c, glyphY c)) <$> cells !! Z.to_nat (cy * cellColumns + cx).

Lemma handleSettingsUpdate_fontChanged p b :
  _fontGeneration b <> font_generation (font (s p)) ->
  _fontChangedResetGlyphAtlas (_handleSettingsUpdate p b) = true
  /\ _textShadingType (_handleSettingsUpdate p b) <> Default
  /\ _rectPacker (_handleSettingsUpdate p b) = _rectPacker b.
Proof.
  intros Hgen. unfold _handleSettingsUpdate. cbv zeta.
  assert (Hfont : forall x, _fontGeneration x = _fontGeneration b ->
            negb (_fontGeneration x =? font_generation (font (s p))) = true).
  { intros x ->. by rewrite (proj2 (Z.eqb_neq _ _) Hgen). }
  set (b1 := if _renderTargetView b then b else _).
  assert (H1 : _fontGeneration b1 = _fontGeneration b /\ _rectPacker b1 = _rectPacker b).
  { subst b1. by destruct (_renderTargetView b). }
  destruct H1 as [H1 Hp1]. rewrite (Hfont b1 H1).
  set (b2 := _updateFontDependents p b1).
  assert (H2 : _fontChangedResetGlyphAtlas b2 = true /\ _textShadingType b2 <> Default
               /\ _rectPacker b2 = _rectPacker b).
  { subst b2. unfold _updateFontDependents. cbv zeta. fields. unfold log. fields.
    split; [reflexivity |]. split; [by destruct (decide _) | exact Hp1]. }
  clearbody b2.
  unfold adoptGenerations, _recreateConstBuffer, _recreateCustomRenderTargetView,
    _recreateBackgroundColorBitmap, _recreateCustomShader, log.
  repeat match goal with
  | |- context [if ?c then _ else _] => destruct c
  end; fields; exact H2.
Qed.

Lemma drawBackground_run p b :
  (cellCount <= length (backgroundBitmap p))%nat ->
  (cellCount <= length (foregroundBitmap p))%nat ->
  exists b',
    _drawBackground p b = Ok tt b'
    /\ _cells b' = backgroundCells p
    /\ _fontChangedResetGlyphAtlas b' = _fontChangedResetGlyphAtlas b
    /\ _textShadingType b' = _textShadingType b
    /\ _rectPacker b' = _rectPacker b.
Proof.
  intros Hbg Hfg. unfold _drawBackground. rewrite bind_run. unfold modify at 1. cbn beta iota.
  rewrite (proj2 (Nat.ltb_ge _ _) Hbg), (proj2 (Nat.ltb_ge _ _) Hfg). cbn [orb].
  unfold modify. eexists. split; [reflexivity |].
  unfold _uploadBackgroundBitmap, log.
  destruct (_backgroundBitmapGeneration b =? colorBitmapGenerations0 p); fields;
    repeat split; reflexivity.
Qed.

Lemma glyphOfCell_stamped cy cx e cells :
  (Z.to_nat (cy * cellColumns + cx) < length cells)%nat ->
  glyphOfCell (stamped cy cx e cells) cy cx = Some (texcoord e).
Proof.
  intros Hlen. unfold glyphOfCell, stamped.
  destruct (lookup_lt_is_Some_2 cells _ Hlen) as [c Hc].
  rewrite list_lookup_alter_eq, Hc. cbn. by destruct (texcoord e).
Qed.

Lemma glyphOfCell_stamped_ne cy cx e cells cy' cx' :
  0 <= cy -> 0 <= cx < cellColumns -> 0 <= cy' -> 0 <= cx' < cellColumns ->
  (cy', cx') <> (cy, cx) ->
  glyphOfCell (stamped cy cx e cells) cy' cx' = glyphOfCell cells cy' cx'.
Proof.
  intros Hcy Hcx Hcy' Hcx' Hne. unfold glyphOfCell, stamped.
  rewrite list_lookup_alter_ne; [reflexivity |].
  unfold cellColumns in *. intros Heq.
  apply Hne. assert (cy * 120 + cx = cy' * 120 + cx') by lia.
  f_equal; lia.
Qed.

Lemma glyphOfCell_backgroundCells p cy cx :
  (cellCount <= length (backgroundBitmap p))%nat ->
  (cellCount <= length (foregroundBitmap p))%nat ->
  0 <= cy < cellRows -> 0 <= cx < cellColumns ->
  glyphOfCell (backgroundCells p) cy cx = Some (noGlyph, noGlyph).
Proof.
  intros Hbg Hfg Hcy Hcx. unfold glyphOfCell, backgroundCells.
  assert (Hi : (Z.to_nat (cy * cellColumns + cx) < cellCount)%nat).
  { unfold cellCount, cellRows, cellColumns in *. lia. }
  rewrite lookup_zip_with, !lookup_take_lt by exact Hi.
  destruct (lookup_lt_is_Some_2 (backgroundBitmap p) (Z.to_nat (cy * cellColumns + cx)))
    as [bg ->]; [lia |].
  destruct (lookup_lt_is_Some_2 (foregroundBitmap p) (Z.to_nat (cy * cellColumns + cx)))
    as [fg ->]; [lia |].
  reflexivity.
Qed.

Lemma length_backgroundCells p :
  (cellCount <= length (backgroundBitmap p))%nat ->
  (cellCount <= length (foregroundBitmap p))%nat ->
  length (backgroundCells p) = cellCount.
Proof.
  intros Hbg Hfg. unfold backgroundCells.
  rewrite length_zip_with, !length_take. lia.
Qed.

Lemma keepsSettings_textShadingType b b' :
  keepsSettings b b' -> _textShadingType b' = _textShadingType b.
Proof.
  intros (Hset & _). unfold settingsOf in Hset. by injection Hset.
Qed.

Lemma quot_cell (k w r : Z) : 0 <= k -> 0 <= r < w -> (k * w + r) ÷ w = k.
Proof.
  intros Hk Hr. rewrite Z.quot_div_nonneg by nia.
  rewrite Z.div_add_l by lia. rewrite Z.div_small by lia. lia.
Qed.

Lemma noGlyph_u16 z : u16 z <> noGlyph.
Proof.
  pose proof (u16_range z) as Hz. unfold in_u16 in Hz.
  assert (Hn : noGlyph = 4294967295) by reflexivity. lia.
Qed.

(** What is left of [Render] after the rows: it touches neither the grid nor
    the glyph containers. *)
Lemma render_tail p b :
  exists b',
    bind (modify _d2dEndDrawing) (fun _ =>
      bind (modify (_flushQuads p)) (fun _ =>
        modify (fun b => if _customPixelShader b then log ExecuteCustomShader b else b))) b
    = Ok tt b'
    /\ _cells b' = _cells b
    /\ sameGlyphs b b'.
Proof.
  eexists. split; [reflexivity |]. cbn [stateOf].
  set (b1 := _d2dEndDrawing b). set (b2 := _flushQuads p b1).
  assert (Hc : keepsCells b (if _customPixelShader b2 then log ExecuteCustomShader b2 else b2)).
  { apply (frame_trans (R := keepsCells) b b2);
      [apply (frame_trans (R := keepsCells) b b1);
         [apply (frame_d2dEndDrawing keepsCells) | apply (frame_flushQuads keepsCells)] |].
    destruct (_customPixelShader b2); [apply frame_log; reflexivity | apply frame_refl]. }
  assert (Hg : sameGlyphs b (if _customPixelShader b2 then log ExecuteCustomShader b2 else b2)).
  { apply (frame_trans (R := sameGlyphs) b b2);
      [apply (frame_trans (R := sameGlyphs) b b1);
         [apply (frame_d2dEndDrawing sameGlyphs) | apply (frame_flushQuads sameGlyphs)] |].
    destruct (_customPixelShader b2); [apply frame_log; reflexivity | apply frame_refl]. }
  split; [exact Hc | exact Hg].
Qed.

(** C7, as the code has it.  A frame that arrives with a new font generation,
    whose rows are all without ink except for one glyph [g] at column [c] of
    the single-width row number [y]: [Render] completes; the glyph's entry has a
    shading type other than [Default] and atlas coordinates other than the
    sentinel; those coordinates are stamped into the cell [(cx, cy)] nearest
    the top left corner of the glyph's ink box, and every other cell of the
    120 x 30 grid holds the sentinel.  [(cx, cy)] is [(c, y)] when the ink box
    starts within half a cell of the top left corner of the glyph's cell. *)
Theorem render_one_glyph p b0 ff gs c g before after n xy :
  let fs := font (s p) in
  let cw := fst (cellSize fs) in
  let ch := snd (cellSize fs) in
  let y := Z.of_nat (length before) in
  let off := inkOffset fs ff SingleWidth g in
  let cx := (Z.of_nat c * cw + fst off + cw ÷ 2) ÷ cw in
  let cy := (y * ch + baseline fs + snd off + ch ÷ 2) ÷ ch in
  _generation b0 <> generation (s p) ->
  _fontGeneration b0 <> font_generation fs ->
  0 < cw -> 0 < ch ->
  (cellCount <= length (backgroundBitmap p))%nat ->
  (cellCount <= length (foregroundBitmap p))%nat ->
  rows p = before ++ cellRow cw (Some ff) SingleWidth gs :: after ->
  forallb (blankRow fs) (before ++ after) = true ->
  y < 65536 ->
  gs !! c = Some g ->
  inkEmpty fs ff SingleWidth g = false ->
  forallb (inkEmpty fs ff SingleWidth) (take c gs ++ drop (S c) gs) = true ->
  tryPack (fst (inkSize fs ff SingleWidth g)) (snd (inkSize fs ff SingleWidth g))
    (_resetGlyphAtlas p b0) = Some (n, xy) ->
  0 <= cy < cellRows -> 0 <= cx < cellColumns ->
  exists b' e,
    Render p b0 = Ok tt b'
    /\ lookupGlyph (Some ff) SingleWidth g b' = Some e
    /\ shadingType e <> Default
    /\ fst (texcoord e) <> noGlyph /\ snd (texcoord e) <> noGlyph
    /\ glyphOfCell (_cells b') cy cx = Some (texcoord e)
    /\ (forall cy' cx', 0 <= cy' < cellRows -> 0 <= cx' < cellColumns ->
        (cy', cx') <> (cy, cx) ->
        glyphOfCell (_cells b') cy' cx' = Some (noGlyph, noGlyph))
    /\ (0 <= fst off + cw ÷ 2 < cw -> cx = Z.of_nat c)
    /\ (0 <= baseline fs + snd off + ch ÷ 2 < ch -> cy = y).
Proof.
  intros fs cw ch y off cx cy Hgen Hfont Hcw Hch Hbg Hfg Hrows Hblank Hy Hg Hink Hrest Hpack
    Hcy Hcx.
  rewrite forallb_app in Hblank. apply andb_true_iff in Hblank as [Hbefore Hafter].
  (* settings update and background *)
  destruct (handleSettingsUpdate_fontChanged p b0 Hfont) as (Hflag1 & Hshade1 & Hpk1).
  set (b1 := _handleSettingsUpdate p b0) in *.
  destruct (drawBackground_run p b1 Hbg Hfg) as (b2 & Hrun2 & Hcells2 & Hflag2 & Hshade2 & Hpk2).
  (* the atlas reset at the start of _drawText *)
  set (b3 := _resetGlyphAtlas p b2).
  assert (Hmiss3 : forall f r g', lookupGlyph f r g' b3 = None)
    by (intros; apply lookupGlyph_resetGlyphAtlas).
  assert (Hd3 : blanksDefault fs b3) by (intros ? ? ? ? Hl; by rewrite Hmiss3 in Hl).
  assert (Hcells3 : _cells b3 = backgroundCells p)
    by (subst b3; by rewrite cells_resetGlyphAtlas).
  assert (Hshade3 : _textShadingType b3 <> Default).
  { subst b3. rewrite (keepsSettings_textShadingType _ _ (frame_resetGlyphAtlas keepsSettings p b2)).
    rewrite Hshade2. exact Hshade1. }
  assert (Hpk3 : _rectPacker b3 = _rectPacker (_resetGlyphAtlas p b0)).
  { subst b3. rewrite !resetGlyphAtlas_rectPacker. by rewrite Hpk2, Hpk1. }
  (* the rows *)
  destruct (rowLoop_blank_prefix p before (cellRow cw (Some ff) SingleWidth gs :: after)
              0 b3 Hbefore Hd3) as (b4 & Hrun4 & Hstep4 & Hd4).
  rewrite rowCounter_0 in Hrun4 by exact Hy. fold y in Hrun4.
  set (e := inkEntry fs ff SingleWidth g b4 xy).
  destruct (drawRow_oneInk p y cw ff gs c g n xy cy cx b4) as (b5 & Hrun5 & Hcells5 & Hlk5 & Hd5).
  { exact Hg. }
  { exact Hink. }
  { exact Hrest. }
  { by rewrite (blank_lookup _ _ _ Hstep4). }
  { unfold tryPack. rewrite (blank_packer _ _ _ Hstep4), Hpk3. exact Hpack. }
  { by rewrite (keepsSettings_textShadingType _ _ (blank_settings _ _ _ Hstep4)). }
  { exact Hd4. }
  { fold fs cw. lia. }
  { fold fs ch. lia. }
  { unfold cellOf. rewrite offset_inkEntry. reflexivity. }
  { exact Hcy. }
  { exact Hcx. }
  fold fs e in Hcells5, Hlk5.
  destruct (rowLoop_blank p after (u16 (y + 1)) b5 Hafter Hd5) as (b6 & Hrun6 & Hstep6 & Hd6).
  destruct (render_tail p b6) as (b7 & Hrun7 & Hcells7 & Hsame7).
  assert (Hcells : _cells b7 = stamped cy cx e (backgroundCells p)).
  { rewrite Hcells7, (blank_cells _ _ _ Hstep6), Hcells5, (blank_cells _ _ _ Hstep4).
    by rewrite Hcells3. }
  exists b7, e.
  split; [| split; [| split; [| split; [| split; [| split; [| split; [| split]]]]]]].
  - unfold Render. rewrite bind_run. unfold modify at 1. cbn beta iota.
    rewrite (proj2 (Z.eqb_neq _ _) Hgen). fold b1.
    rewrite bind_run, Hrun2.
    rewrite bind_run. unfold _drawText. rewrite bind_run. unfold modify at 1. cbn beta iota.
    rewrite Hflag2, Hflag1. fold b3.
    rewrite bind_run, Hrows, Hrun4. cbn [rowLoop]. rewrite bind_run, Hrun5, Hrun6.
    exact Hrun7.
  - rewrite (lookupGlyph_sameGlyphs _ _ _ _ _ Hsame7).
    rewrite (blank_lookup _ _ _ Hstep6) by exact Hink. exact Hlk5.
  - apply shadingType_inkEntry.
    by rewrite (keepsSettings_textShadingType _ _ (blank_settings _ _ _ Hstep4)).
  - subst e. rewrite texcoord_inkEntry. apply noGlyph_u16.
  - subst e. rewrite texcoord_inkEntry. apply noGlyph_u16.
  - rewrite Hcells. apply glyphOfCell_stamped.
    rewrite length_backgroundCells by assumption.
    unfold cellCount, cellRows, cellColumns in *. lia.
  - intros cy' cx' Hcy' Hcx' Hne. rewrite Hcells.
    rewrite glyphOfCell_stamped_ne by (try assumption; lia).
    by apply glyphOfCell_backgroundCells.
  - intros Hr. subst cx.
    replace (Z.of_nat c * cw + fst off + cw ÷ 2) with (Z.of_nat c * cw + (fst off + cw ÷ 2))
      by lia.
    apply quot_cell; lia.
  - intros Hr. subst cy.
    replace (y * ch + baseline fs + snd off + ch ÷ 2)
      with (y * ch + (baseline fs + snd off + ch ÷ 2)) by lia.
    apply quot_cell; lia.
Qed.

End OneGlyph.

(** ** Closed instances: one glyph in a frame *)

(** Five spaces and the glyph [g] at column 5. *)
Definition glyphAtColumn5 (g : Z) : list Z := [32; 32; 32; 32; 32; g].

(** A 120 x 30 viewport whose row [y] carries [g] at column 5; the rows
    above it and the row below it are empty. *)
Definition oneGlyphFrame (y : nat) (g : Z) : RenderingPayload :=
  textPayload []
    (replicate y Sample.emptyRow
     ++ Sample.textRow (Some 1%positive) SingleWidth (glyphAtColumn5 g)
     :: [Sample.emptyRow]).

Lemma render_one_glyph_witness :
  exists b' e,
    Render (oneGlyphFrame 3 65) initialBackend = Ok tt b'
    /\ lookupGlyph (Some 1%positive) SingleWidth 65 b' = Some e
    /\ shadingType e <> Default
    /\ glyphOfCell (_cells b') 3 5 = Some (texcoord e)
    /\ glyphOfCell (_cells b') 3 4 = Some (noGlyph, noGlyph)
    /\ glyphOfCell (_cells b') 4 5 = Some (noGlyph, noGlyph).
Proof.
  destruct (render_one_glyph (H := Sample.platform) (oneGlyphFrame 3 65) initialBackend
              1%positive (glyphAtColumn5 65) 5 65 (replicate 3 Sample.emptyRow)
              [Sample.emptyRow] (8, 0, 12) (0, 0))
    as (b' & e & Hrun & Hlk & Hshade & _ & _ & Hcell & Hrest & Hcx & Hcy);
    [by_eval | by_eval | by_eval | by_eval | by_eval | by_eval | reflexivity | by_eval
     | by_eval | by_eval | by_eval | by_eval | by_eval | by_eval | by_eval |].
  exists b', e.
  rewrite Hcx, Hcy in Hcell, Hrest by by_eval.
  split; [exact Hrun |]. split; [exact Hlk |]. split; [exact Hshade |].
  split; [exact Hcell |].
  split; apply Hrest; by_eval.
Defined.

(** C7 as stated fails for a glyph whose ink lies next to the baseline: the
    full stop of row 3, column 5 is stamped into the cell of row 4, and the
    cell at column 5 of row 3 keeps the sentinel. *)
Lemma render_full_stop_row_below :
  let run := Render (oneGlyphFrame 3 46) initialBackend in
  faultOf run = None
  /\ shadingType <$> lookupGlyph (Some 1%positive) SingleWidth 46 (stateOf run)
     = Some TextGrayscale
  /\ glyphOfCell (_cells (stateOf run)) 3 5 = Some (noGlyph, noGlyph)
  /\ glyphOfCell (_cells (stateOf run)) 4 5 = Some (0, 0)
  /\ noGlyph = 4294967295.
Proof. by_eval. Qed.

(** * Further properties of the backend *)

(** ** Settings updates *)

Section SettingsUpdate.
Context `{Platform}.

(** The resources [_handleSettingsUpdate] creates or recreates in state [b]
    for the payload [p], in the order of the calls. *)
Definition settingsEvents (p : RenderingPayload) (b : BackendD3D) : list Event :=
  let fontChanged := negb (_fontGeneration b =? font_generation (font (s p))) in
  let miscChanged := negb (_miscGeneration b =? misc_generation (misc (s p))) in
  let cellCountChanged := negb (bool_decide (_viewportCellCount b = viewportCellCount (s p))) in
  let shader :=
    if miscChanged then customShaderAvailable (misc (s p)) else _customPixelShader b in
  let shaderView := if miscChanged then false else _customRenderTargetView b in
  (if _renderTargetView b then [] else [CreateRenderTargetView])
  ++ (if fontChanged then [UpdateFontDependents] else [])
  ++ (if miscChanged then [RecreateCustomShader] else [])
  ++ (if cellCountChanged then [RecreateBackgroundColorBitmap] else [])
  ++ (if shader && negb shaderView then [RecreateCustomRenderTargetView] else [])
  ++ [RecreateConstBuffer].

(** The five members [_handleSettingsUpdate] assigns last. *)
Definition stampsOf (b : BackendD3D) : Z * Z * Z * (Z * Z) * (Z * Z) :=
  (_generation b, _fontGeneration b, _miscGeneration b, _targetSize b, _viewportCellCount b).

Definition stampsOfPayload (p : RenderingPayload) : Z * Z * Z * (Z * Z) * (Z * Z) :=
  (generation (s p), font_generation (font (s p)), misc_generation (misc (s p)),
   targetSize (s p), viewportCellCount (s p)).

(** What the tests of [_handleSettingsUpdate] read. *)
Definition tested (b : BackendD3D) :=
  (_fontGeneration b, _miscGeneration b, _viewportCellCount b,
   (_customPixelShader b, _customRenderTargetView b)).

Lemma trace_handleSettingsUpdate p b :
  trace (_handleSettingsUpdate p b) = trace b ++ settingsEvents p b.
Proof.
  unfold _handleSettingsUpdate, settingsEvents. cbv zeta.
  set (b1 := if _renderTargetView b then b else _).
  assert (H1 : trace b1 = trace b ++ (if _renderTargetView b then [] else [CreateRenderTargetView])
               /\ tested b1 = tested b).
  { subst b1. destruct (_renderTargetView b); [by rewrite app_nil_r | split; reflexivity]. }
  clearbody b1. destruct H1 as [Ht1 Ho1].
  injection Ho1 as Hf1 Hm1 Hc1 Hs1 Hv1. rewrite Hf1, Hm1, Hc1.
  set (fontChanged := negb (_fontGeneration b =? _)).
  set (miscChanged := negb (_miscGeneration b =? _)).
  set (cellCountChanged := negb (bool_decide _)).
  set (b2 := if fontChanged then _updateFontDependents p b1 else b1).
  assert (H2 : trace b2 = trace b1 ++ (if fontChanged then [UpdateFontDependents] else [])
               /\ tested b2 = tested b1).
  { subst b2. destruct fontChanged; [split; reflexivity | by rewrite app_nil_r]. }
  clearbody b2. destruct H2 as [Ht2 Ho2]. injection Ho2 as _ _ _ Hs2 Hv2.
  set (b3 := if miscChanged then _recreateCustomShader p b2 else b2).
  assert (H3 : trace b3 = trace b2 ++ (if miscChanged then [RecreateCustomShader] else [])
               /\ _customPixelShader b3 =
                    (if miscChanged then customShaderAvailable (misc (s p))
                     else _customPixelShader b2)
               /\ _customRenderTargetView b3 =
                    (if miscChanged then false else _customRenderTargetView b2)).
  { subst b3. destruct miscChanged; [repeat split; reflexivity | by rewrite app_nil_r]. }
  clearbody b3. destruct H3 as (Ht3 & Hs3 & Hv3).
  set (b4 := if cellCountChanged then _recreateBackgroundColorBitmap p b3 else b3).
  assert (H4 : trace b4 = trace b3 ++ (if cellCountChanged then [RecreateBackgroundColorBitmap] else [])
               /\ _customPixelShader b4 = _customPixelShader b3
               /\ _customRenderTargetView b4 = _customRenderTargetView b3).
  { subst b4. destruct cellCountChanged; [repeat split; reflexivity | by rewrite app_nil_r]. }
  clearbody b4. destruct H4 as (Ht4 & Hs4 & Hv4).
  rewrite Hs4, Hv4, Hs3, Hv3, Hs2, Hv2, Hs1, Hv1.
  match goal with
  | |- context [if ?c then _recreateCustomRenderTargetView p b4 else b4] => set (view := c)
  end.
  set (b5 := if view then _recreateCustomRenderTargetView p b4 else b4).
  assert (H5 : trace b5 = trace b4 ++ (if view then [RecreateCustomRenderTargetView] else [])).
  { subst b5. destruct view; [reflexivity | by rewrite app_nil_r]. }
  clearbody b5.
  change (trace (adoptGenerations p (_recreateConstBuffer p b5)))
    with (trace b5 ++ [RecreateConstBuffer]).
  rewrite H5, Ht4, Ht3, Ht2, Ht1. by rewrite <- !app_assoc.
Qed.

Lemma stampsOf_handleSettingsUpdate p b :
  stampsOf (_handleSettingsUpdate p b) = stampsOfPayload p.
Proof. reflexivity. Qed.

Lemma settingsEvents_all p b : forallb settingsEvent (settingsEvents p b) = true.
Proof.
  unfold settingsEvents. cbv zeta. rewrite !forallb_app.
  repeat match goal with
  | |- context [if ?c then _ else _] => destruct c
  end; reflexivity.
Qed.

Lemma filter_settingsEvent_all evs :
  forallb settingsEvent evs = true -> List.filter settingsEvent evs = evs.
Proof.
  induction evs as [| e evs IH]; [reflexivity |]. cbn [forallb List.filter].
  intros [He Hevs]%andb_true_iff. by rewrite He, IH.
Qed.

Lemma filter_settingsEvent_none evs :
  forallb (fun e => negb (settingsEvent e)) evs = true -> List.filter settingsEvent evs = [].
Proof.
  induction evs as [| e evs IH]; [reflexivity |]. cbn [forallb List.filter].
  intros [He Hevs]%andb_true_iff. apply negb_true_iff in He. by rewrite He, IH.
Qed.

(** The stamps and the views and shader that only a settings update (or
    [ReleaseResources]) writes. *)
Definition keepsStamps (b b' : BackendD3D) : Prop :=
  stampsOf b' = stampsOf b
  /\ (_renderTargetView b', _customRenderTargetView b', _customPixelShader b')
     = (_renderTargetView b, _customRenderTargetView b, _customPixelShader b).

#[export] Instance keepsStamps_frame : CellFrame keepsStamps.
Proof.
  assert (Htrans : forall a b c, keepsStamps a b -> keepsStamps b c -> keepsStamps a c).
  { intros a b c [H1 H2] [H3 H4]. split; congruence. }
  refine {| cellFrame_glyphFrame :=
              {| glyphFrame_frame := {| frame_trans := Htrans |} |} |};
    intros; split; reflexivity.
Qed.

(** [Render] after its first statement. *)
Definition drawFrame (p : RenderingPayload) : M unit :=
  bind (_drawBackground p) (fun _ =>
  bind (_drawText p) (fun _ =>
  bind (modify (_flushQuads p)) (fun _ =>
  modify (fun b => if _customPixelShader b then log ExecuteCustomShader b else b)))).

Lemma Render_unfold p b :
  Render p b =
    drawFrame p (if _generation b =? generation (s p) then b else _handleSettingsUpdate p b).
Proof. reflexivity. Qed.

Lemma stable_drawFrame R `{!CellFrame R} p :
  (forall v b, R b (set_backgroundBitmapGeneration v b)) ->
  stable R (drawFrame p).
Proof.
  intros Hgen. unfold drawFrame. stab R.
  - by apply (stable_drawBackground R).
  - apply (stable_drawText R).
  - apply (frame_flushQuads R).
  - destruct (_customPixelShader b); [apply frame_log; reflexivity | apply frame_refl].
Qed.

End SettingsUpdate.

(** X1.  [_handleSettingsUpdate] appends to the trace exactly the creations
    listed by [settingsEvents]: the render target view when it is missing, the
    font dependents when the font stamp differs, the custom shader when the
    misc stamp differs, the background colour bitmap when the viewport cell
    count differs, the custom render target view when there is a shader
    without one, and the constant buffer always; it leaves the five stamps
    equal to those of the payload. *)
Theorem handleSettingsUpdate_recreates `{Platform} (p : RenderingPayload) (b : BackendD3D) :
  let b' := _handleSettingsUpdate p b in
  since b b' = settingsEvents p b
  /\ stampsOf b' = stampsOfPayload p
  /\ (In CreateRenderTargetView (since b b') <-> _renderTargetView b = false)
  /\ (In UpdateFontDependents (since b b') <->
      _fontGeneration b <> font_generation (font (s p)))
  /\ (In RecreateCustomShader (since b b') <->
      _miscGeneration b <> misc_generation (misc (s p)))
  /\ (In RecreateBackgroundColorBitmap (since b b') <->
      _viewportCellCount b <> viewportCellCount (s p))
  /\ In RecreateConstBuffer (since b b').
Proof.
  intros b'.
  assert (Hsince : since b b' = settingsEvents p b)
    by (apply since_app, trace_handleSettingsUpdate).
  rewrite Hsince. split; [reflexivity |]. split; [reflexivity |].
  unfold settingsEvents. cbv zeta.
  rewrite !in_app_iff.
  destruct (_renderTargetView b);
    destruct (Z.eqb_spec (_fontGeneration b) (font_generation (font (s p))));
    destruct (Z.eqb_spec (_miscGeneration b) (misc_generation (misc (s p))));
    destruct (bool_decide_reflect (_viewportCellCount b = viewportCellCount (s p)));
    cbn [negb In];
    repeat split; try tauto; try (intros; discriminate);
    try (intros Hin; exfalso;
         repeat match type of Hin with
                | _ \/ _ => destruct Hin as [Hin | Hin]
                | In _ (if ?c then _ else _) => destruct c; cbn [In] in Hin
                | _ = _ => discriminate Hin
                | False => destruct Hin
                end);
    try (intros _; cbn [In]; tauto).
Qed.

Lemma render_stamps_and_events `{Platform} (p : RenderingPayload) (b : BackendD3D) :
  let b' := stateOf (Render p b) in
  List.filter settingsEvent (since b b')
    = (if _generation b =? generation (s p) then [] else settingsEvents p b)
  /\ stampsOf b'
     = (if _generation b =? generation (s p) then stampsOf b else stampsOfPayload p).
Proof.
  intros b'. subst b'. rewrite Render_unfold.
  set (b1 := if _generation b =? generation (s p) then b else _handleSettingsUpdate p b).
  destruct (stable_drawFrame drawingOnly p
              (fun v x => ex_intro _ [] (conj (eq_sym (app_nil_r _)) eq_refl)) b1)
    as (evs & Htrace & Hdraw).
  destruct (stable_drawFrame keepsStamps p
              (fun v x => conj eq_refl eq_refl) b1) as [Hstamps _].
  rewrite Hstamps. subst b1.
  destruct (_generation b =? generation (s p)).
  - split; [| reflexivity].
    rewrite (since_app _ _ _ Htrace). by apply filter_settingsEvent_none.
  - split; [| reflexivity].
    rewrite trace_handleSettingsUpdate, <- app_assoc in Htrace.
    rewrite (since_app _ _ _ Htrace), List.filter_app.
    rewrite (filter_settingsEvent_none _ Hdraw), app_nil_r.
    apply filter_settingsEvent_all, settingsEvents_all.
Qed.


(** ** Views and shader *)

Section Views.
Context `{Platform}.




End Views.


(** ** Drawing the same frame again *)

Section Replay.
Context `{Platform}.
Variable p : RenderingPayload.

(** Every entry of [a] is an entry of [b]. *)
Definition cache_le (a b : BackendD3D) : Prop :=
  forall f r g e, lookupGlyph f r g a = Some e -> lookupGlyph f r g b = Some e.

(** The two halves of a split glyph are cached together: if one line
    rendition of a double-height glyph is missing, so is the other. *)
Definition paired (a : BackendD3D) : Prop :=
  forall f r g,
    isDoubleHeight r = true -> splits p f r g = true ->
    lookupGlyph f r g a = None -> lookupGlyph f (otherLineRendition r) g a = None.

(** [b'] differs from [b] in the grid and in empty font face slots at most. *)
Record calm (b b' : BackendD3D) : Prop := {
  calm_trace : trace b' = trace b;
  calm_lookup : forall f r g, lookupGlyph f r g b' = lookupGlyph f r g b;
  calm_began : _d2dBeganDrawing b' = _d2dBeganDrawing b;
  calm_cellBuffer : _cellBuffer b' = _cellBuffer b;
  calm_shader : _customPixelShader b' = _customPixelShader b;
}.

Lemma calm_refl b : calm b b.
Proof. by split. Qed.

Lemma calm_trans a b c : calm a b -> calm b c -> calm a c.
Proof.
  intros [] []. split; try congruence;
    intros f r g; by rewrite calm_lookup1, calm_lookup0.
Qed.

Lemma calm_set_cells c b : calm b (set_cells c b).
Proof. by split. Qed.

Lemma calm_insertFontFace f b : calm b (insertFontFace f b).
Proof.
  split; try (unfold insertFontFace; destruct f as [ff |]; [destruct (_ !! ff) |]; reflexivity).
  intros f' r g. apply lookupGlyph_insertFontFace.
Qed.

Lemma cache_le_refl a : cache_le a a.
Proof. by intros f r g e. Qed.

Lemma cache_le_trans a b c : cache_le a b -> cache_le b c -> cache_le a c.
Proof. intros Hab Hbc f r g e Hl. by apply Hbc, Hab. Qed.

Lemma cache_le_calm_r a b b' : calm b b' -> cache_le a b -> cache_le a b'.
Proof. intros Hc Hle f r g e Hl. rewrite (calm_lookup _ _ Hc). by apply Hle. Qed.

Lemma cache_le_calm a a' : calm a a' -> cache_le a a'.
Proof. intros Hc f r g e Hl. by rewrite (calm_lookup _ _ Hc). Qed.

Lemma paired_calm a a' : calm a a' -> paired a -> paired a'.
Proof.
  intros Hc Hp f r g Hdh Hs. rewrite !(calm_lookup _ _ Hc). by apply Hp.
Qed.

Lemma otherLineRendition_involutive r :
  isDoubleHeight r = true -> otherLineRendition (otherLineRendition r) = r.
Proof. by destruct r. Qed.

Lemma isDoubleHeight_other r : isDoubleHeight (otherLineRendition r) = true.
Proof. by destruct r. Qed.

Lemma splits_other f r g :
  isDoubleHeight r = true -> splits p f (otherLineRendition r) g = splits p f r g.
Proof. intros Hdh. destruct f as [ff |]; [| reflexivity]. by destruct r. Qed.

Lemma noFailedPack_split a b c :
  extends a b -> extends b c -> noFailedPack (since a c) = true ->
  noFailedPack (since a b) = true /\ noFailedPack (since b c) = true.
Proof.
  intros [e1 H1] [e2 H2] Hno.
  rewrite (since_app _ _ _ H1), (since_app _ _ _ H2).
  assert (H3 : trace c = trace a ++ (e1 ++ e2)) by (by rewrite H2, H1, app_assoc).
  rewrite (since_app _ _ _ H3) in Hno. unfold noFailedPack in *.
  rewrite forallb_app in Hno. by apply andb_true_iff in Hno.
Qed.

(** A computation that a second run repeats from the cache: on a run from
    [a] to [a'] without a failed pack it only adds entries, keeps split halves
    together, and from any state [b] with the grid of [a] and the entries of
    [a'] it returns the same value, writes the same grid and rasterises
    nothing. *)
Definition replayable {A} (c : M A) : Prop :=
  stable extends c
  /\ forall a v a',
       c a = Ok v a' -> noFailedPack (since a a') = true -> paired a ->
       cache_le a a' /\ paired a'
       /\ forall b, _cells b = _cells a -> cache_le a' b ->
            exists b', c b = Ok v b' /\ _cells b' = _cells a' /\ calm b b'.

Lemma replayable_bind {A B} (c : M A) (k : A -> M B) :
  replayable c -> (forall x, replayable (k x)) -> replayable (bind c k).
Proof.
  intros [Hec Hc] Hk. split.
  - apply (stable_bind extends); [exact Hec | intros x; apply Hk].
  - intros a v a' Hrun Hno Hp. rewrite bind_run in Hrun.
    destruct (c a) as [x a1 | fl a1] eqn:Hrun1; [| discriminate].
    destruct (Hk x) as [Hek Hkx].
    pose proof (stable_ok extends _ _ _ _ Hec Hrun1) as Hext1.
    pose proof (stable_ok extends _ _ _ _ Hek Hrun) as Hext2.
    destruct (noFailedPack_split _ _ _ Hext1 Hext2 Hno) as [Hno1 Hno2].
    destruct (Hc a x a1 Hrun1 Hno1 Hp) as (Hle1 & Hp1 & Hre1).
    destruct (Hkx a1 v a' Hrun Hno2 Hp1) as (Hle2 & Hp2 & Hre2).
    split; [by eapply cache_le_trans |]. split; [exact Hp2 |].
    intros b Hcells Hle.
    destruct (Hre1 b Hcells (cache_le_trans _ _ _ Hle2 Hle)) as (b1 & Hb1 & Hcells1 & Hcalm1).
    destruct (Hre2 b1 Hcells1 (cache_le_calm_r _ _ _ Hcalm1 Hle)) as (b2 & Hb2 & Hcells2 & Hcalm2).
    exists b2. rewrite bind_run, Hb1. split; [exact Hb2 |].
    split; [exact Hcells2 | by eapply calm_trans].
Qed.

(** A computation whose outcome does not depend on the state and that
    leaves the state as it is. *)
Definition stateless {A} (c : M A) : Prop :=
  exists r : A + Fault,
    forall a, c a = match r with inl v => Ok v a | inr fl => Fail fl a end.

Lemma replayable_stateless {A} (c : M A) : stateless c -> replayable c.
Proof.
  intros [r Hr]. split.
  - intros a. rewrite Hr. destruct r; apply (frame_refl (R := extends)).
  - intros a v a' Hrun _ Hp. rewrite Hr in Hrun. destruct r as [v0 | fl]; [| discriminate].
    injection Hrun as <- <-.
    split; [apply cache_le_refl |]. split; [exact Hp |].
    intros b Hcells _. exists b. rewrite Hr. split; [reflexivity |].
    split; [exact Hcells | apply calm_refl].
Qed.

Lemma stateless_ret {A} (v : A) : stateless (ret v).
Proof. by exists (inl v). Qed.

Lemma stateless_throw {A} fl : stateless (throw (A := A) fl).
Proof. by exists (inr fl). Qed.

Lemma stateless_index {A} (l : list A) i : stateless (index l i).
Proof. unfold index. destruct (l !! i); [apply stateless_ret | apply stateless_throw]. Qed.

Lemma stateless_bind {A B} (c : M A) (k : A -> M B) :
  stateless c -> (forall x, stateless (k x)) -> stateless (bind c k).
Proof.
  intros [[v | fl] Hr] Hk.
  - destruct (Hk v) as [r' Hr']. exists r'. intros a. by rewrite bind_run, Hr, Hr'.
  - exists (inr fl). intros a. by rewrite bind_run, Hr.
Qed.

Lemma stateless_glyphAt row f x : stateless (glyphAt row f x).
Proof.
  unfold glyphAt. apply stateless_bind; [apply stateless_index |]. intros g0.
  destruct (bool_decide (f = None) && is_leading_surrogate g0); [| apply stateless_ret].
  apply stateless_bind; [apply stateless_index | intros g1; apply stateless_ret].
Qed.

(** Updates of the grid that read nothing else. *)
Lemma replayable_cells (F : list Cell -> list Cell) :
  replayable (modify (fun b => set_cells (F (_cells b)) b)).
Proof.
  split.
  - apply stable_modify. intros b. apply (frame_cells (R := extends)).
  - intros a v a' Hrun _ Hp. injection Hrun as <- <-.
    split; [apply cache_le_calm, calm_set_cells |].
    split; [by eapply paired_calm; [apply calm_set_cells |] |].
    intros b Hcells _. eexists. split; [reflexivity |].
    cbn [_cells set_cells]. split; [by rewrite Hcells | apply calm_set_cells].
Qed.

Lemma replayable_insertFontFace f : replayable (modify (insertFontFace f)).
Proof.
  split.
  - apply stable_modify. intros b. apply (frame_insertFontFace extends).
  - intros a v a' Hrun _ Hp. injection Hrun as <- <-.
    pose proof (calm_insertFontFace f a) as Hcalm.
    split; [by apply cache_le_calm |]. split; [by eapply paired_calm |].
    intros b Hcells _. eexists. split; [reflexivity |].
    split; [| apply calm_insertFontFace].
    unfold insertFontFace. destruct f as [ff |]; [| exact Hcells].
    by destruct (_glyphAtlasMap b !! ff), (_glyphAtlasMap a !! ff).
Qed.

Lemma stable_fetchGlyph R `{!GlyphFrame R} r f g : stable R (fetchGlyph p r f g).
Proof.
  unfold fetchGlyph. apply (stable_bind R); [apply (stable_get R) |].
  intros [e |]; [apply (stable_ret R) | apply (stable_drawGlyph R)].
Qed.

(** A glyph is rasterised once: the entry the first run gets, from the
    cache or from [_drawGlyph], is the one the second run finds. *)
Lemma replayable_fetchGlyph r f g : replayable (fetchGlyph p r f g).
Proof.
  split; [apply (stable_fetchGlyph extends) |].
  intros a e a1 Hrun Hno Hp. unfold fetchGlyph, get in Hrun. rewrite bind_run in Hrun.
  destruct (lookupGlyph f r g a) as [e0 |] eqn:Hl.
  - injection Hrun as <- <-.
    split; [apply cache_le_refl |]. split; [exact Hp |].
    intros b Hcells Hle. exists b. unfold fetchGlyph, get. rewrite bind_run, (Hle _ _ _ _ Hl).
    split; [reflexivity |]. split; [exact Hcells | apply calm_refl].
  - destruct (drawGlyph_spec p r f g a e a1 Hl Hrun) as (Hl1 & Hcells1 & _ & Hsib & Hframe).
    specialize (Hframe Hno).
    assert (Hkeys : forall k,
              In k (writtenKeys (splits p f r g) f r g) ->
              k = (f, r, g)
              \/ (isDoubleHeight r = true /\ splits p f r g = true
                  /\ k = (f, otherLineRendition r, g))).
    { intros k. unfold writtenKeys. cbn [In].
      destruct (isDoubleHeight r), (splits p f r g); cbn [andb In]; intuition auto. }
    assert (Hin : forall k,
              k = (f, r, g)
              \/ (isDoubleHeight r = true /\ splits p f r g = true
                  /\ k = (f, otherLineRendition r, g)) ->
              In k (writtenKeys (splits p f r g) f r g)).
    { intros k [-> | (Hdh & Hs & ->)]; unfold writtenKeys; [by left |].
      rewrite Hdh, Hs. cbn. auto. }
    assert (Hwritten : forall f' r' g',
              In (f', r', g') (writtenKeys (splits p f r g) f r g) ->
              lookupGlyph f' r' g' a = None /\ is_Some (lookupGlyph f' r' g' a1)).
    { intros f' r' g' [[= -> -> ->] | (Hdh & Hs & [= -> -> ->])]%Hkeys.
      - split; [exact Hl | by rewrite Hl1].
      - split; [by apply Hp | by apply Hsib]. }
    assert (Hdec : forall k, In k (writtenKeys (splits p f r g) f r g)
                             \/ ~ In k (writtenKeys (splits p f r g) f r g)).
    { intros k. destruct (in_dec (fun x y => decide (x = y)) k
                            (writtenKeys (splits p f r g) f r g)); auto. }
    split; [| split].
    + intros f' r' g' e' Hl'.
      destruct (Hdec (f', r', g')) as [Hw | Hw].
      * destruct (Hwritten _ _ _ Hw) as [Hnone _]. congruence.
      * by rewrite Hframe.
    + intros f' r' g' Hdh' Hs' Hnone'.
      destruct (Hdec (f', r', g')) as [Hw | Hw].
      { destruct (Hwritten _ _ _ Hw) as [_ [e' He']]. congruence. }
      rewrite Hframe in Hnone' by exact Hw.
      destruct (Hdec (f', otherLineRendition r', g')) as [Hw' | Hw'].
      * exfalso. apply Hw, Hin.
        apply Hkeys in Hw' as [[= -> Hr ->] | (Hdh & Hs & [= -> Hr ->])].
        -- right. rewrite <- Hr, isDoubleHeight_other, splits_other by exact Hdh'.
           repeat split; try assumption.
           by rewrite otherLineRendition_involutive.
        -- left. f_equal. f_equal.
           rewrite <- (otherLineRendition_involutive r'), Hr by exact Hdh'.
           by apply otherLineRendition_involutive.
      * rewrite Hframe by exact Hw'. by apply Hp.
    + intros b Hcells Hle. exists b. unfold fetchGlyph, get.
      rewrite bind_run, (Hle _ _ _ _ Hl1).
      split; [reflexivity |]. split; [by rewrite Hcells1 | apply calm_refl].
Qed.

Lemma replayable_stampGlyph l t e : replayable (stampGlyph (font (s p)) l t e).
Proof.
  unfold stampGlyph.
  destruct (_ || _); [apply replayable_stateless, stateless_throw |].
  destruct (cellOf (font (s p)) l t e) as [cy cx]. unfold setCellGlyph.
  destruct (_ && _); [| apply replayable_stateless, stateless_throw].
  apply (replayable_cells
           (alter (fun c => mkCell (background c) (foreground c)
                              (fst (texcoord e)) (snd (texcoord e)))
              (Z.to_nat (cy * cellColumns + cx)))).
Qed.

Lemma replayable_stampAt row baselineY scaleX scaleY x baselineX e :
  replayable (stampAt p row baselineY scaleX scaleY x baselineX e).
Proof.
  unfold stampAt. destruct (decide _); [apply replayable_stateless, stateless_ret |].
  apply replayable_bind; [apply replayable_stateless, stateless_index |].
  intros o. apply replayable_stampGlyph.
Qed.

Lemma replayable_ext {A} (c c' : M A) : (forall b, c b = c' b) -> replayable c' -> replayable c.
Proof.
  intros Heq [He Hc]. split.
  - intros b. rewrite Heq. apply He.
  - intros a v a' Hrun. rewrite Heq in Hrun. intros Hno Hp.
    destruct (Hc a v a' Hrun Hno Hp) as (Hle & Hp' & Hre).
    split; [exact Hle |]. split; [exact Hp' |].
    intros b Hcells Hle'. destruct (Hre b Hcells Hle') as (b' & Hb' & Hrest).
    exists b'. by rewrite Heq.
Qed.

Lemma replayable_glyphLoop row f baselineY scaleX scaleY to fuel :
  forall x baselineX,
    replayable (glyphLoop fuel p row f baselineY scaleX scaleY to x baselineX).
Proof.
  induction fuel as [| fuel IH]; intros x baselineX.
  - apply replayable_stateless, stateless_ret.
  - eapply replayable_ext; [intros b; apply glyphLoop_step |].
    destruct (x <? to)%nat; [| apply replayable_stateless, stateless_ret].
    apply replayable_bind; [apply replayable_stateless, stateless_glyphAt |]. intros gdx.
    apply replayable_bind; [apply replayable_fetchGlyph |]. intros e.
    apply replayable_bind; [apply replayable_stampAt |]. intros _.
    apply replayable_bind; [apply replayable_stateless, stateless_index |]. intros adv.
    apply IH.
Qed.

Lemma replayable_mappingLoop row baselineY scaleX scaleY ms :
  forall baselineX, replayable (mappingLoop p row baselineY scaleX scaleY ms baselineX).
Proof.
  induction ms as [| m ms IH]; intros baselineX; cbn [mappingLoop].
  - apply replayable_stateless, stateless_ret.
  - apply replayable_bind; [apply replayable_insertFontFace |]. intros _.
    apply replayable_bind; [apply replayable_glyphLoop |]. intros q. apply IH.
Qed.

Lemma replayable_drawRow y row : replayable (drawRow p y row).
Proof.
  unfold drawRow. cbv zeta.
  apply replayable_bind; [apply replayable_mappingLoop |].
  intros _. apply replayable_stateless, stateless_ret.
Qed.

Lemma replayable_rowLoop rs : forall y, replayable (rowLoop p y rs).
Proof.
  induction rs as [| row rs IH]; intros y; cbn [rowLoop].
  - apply replayable_stateless, stateless_ret.
  - apply replayable_bind; [apply replayable_drawRow | intros _; apply IH].
Qed.

Lemma drawBackground_inv a a1 :
  _drawBackground p a = Ok tt a1 ->
  a1 = set_cells (backgroundCells p)
         (if _backgroundBitmapGeneration a =? colorBitmapGenerations0 p then a
          else _uploadBackgroundBitmap p a)
  /\ (cellCount <= length (backgroundBitmap p))%nat
  /\ (cellCount <= length (foregroundBitmap p))%nat.
Proof.
  unfold _drawBackground. rewrite bind_run. unfold modify at 1. cbn beta iota.
  destruct (length (backgroundBitmap p) <? cellCount)%nat eqn:Hbg; [discriminate |].
  destruct (length (foregroundBitmap p) <? cellCount)%nat eqn:Hfg; [discriminate |].
  cbn [orb]. unfold modify. intros [= <-].
  apply Nat.ltb_ge in Hbg, Hfg. by repeat split.
Qed.

Lemma drawBackground_again b :
  (cellCount <= length (backgroundBitmap p))%nat ->
  (cellCount <= length (foregroundBitmap p))%nat ->
  _backgroundBitmapGeneration b = colorBitmapGenerations0 p ->
  _drawBackground p b = Ok tt (set_cells (backgroundCells p) b).
Proof.
  intros Hbg Hfg Hgen. unfold _drawBackground. rewrite bind_run. unfold modify at 1.
  cbn beta iota. rewrite Hgen, Z.eqb_refl.
  by rewrite (proj2 (Nat.ltb_ge _ _) Hbg), (proj2 (Nat.ltb_ge _ _) Hfg).
Qed.

Lemma drawText_inv a a3 :
  _drawText p a = Ok tt a3 ->
  exists a2',
    rowLoop p 0 (rows p)
      (if _fontChangedResetGlyphAtlas a then _resetGlyphAtlas p a else a) = Ok tt a2'
    /\ a3 = _d2dEndDrawing a2'.
Proof.
  unfold _drawText. rewrite bind_run. unfold modify at 1. cbn beta iota.
  rewrite bind_run.
  destruct (rowLoop p 0 (rows p) _) as [[] a2' | fl a2']; [| discriminate].
  unfold modify. intros [= <-]. by exists a2'.
Qed.

Lemma fontChanged_resetGlyphAtlas a : _fontChangedResetGlyphAtlas (_resetGlyphAtlas p a) = false.
Proof. unfold _resetGlyphAtlas. by destruct (atlasSize _). Qed.

(** The statements of [Render] after the rows. *)
Definition endFrame (b : BackendD3D) : BackendD3D :=
  let b := _flushQuads p (_d2dEndDrawing b) in
  if _customPixelShader b then log ExecuteCustomShader b else b.

Lemma endFrame_fields a :
  _d2dBeganDrawing (endFrame a) = false
  /\ _cellBuffer (endFrame a) = true
  /\ _cells (endFrame a) = _cells a
  /\ (forall f r g, lookupGlyph f r g (endFrame a) = lookupGlyph f r g a)
  /\ keepsSettings a (endFrame a)
  /\ extends a (endFrame a).
Proof.
  assert (Hframe : forall R, Frame R -> R a (endFrame a)).
  { intros R HR. unfold endFrame. cbv zeta.
    set (b := _flushQuads p (_d2dEndDrawing a)).
    assert (Hb : R a b).
    { apply (frame_trans a (_d2dEndDrawing a));
        [apply (frame_d2dEndDrawing R) | apply (frame_flushQuads R)]. }
    destruct (_customPixelShader b); [| exact Hb].
    apply (frame_trans a b); [exact Hb | apply frame_log; reflexivity]. }
  split; [| split; [| split; [| split; [| split]]]].
  - unfold endFrame, _flushQuads, _d2dEndDrawing, log. cbv zeta.
    destruct (_d2dBeganDrawing a) eqn:Hbegan; fields;
      repeat match goal with
      | |- context [if ?c then _ else _] => destruct c; fields
      end; try reflexivity; exact Hbegan.
  - unfold endFrame, _flushQuads, _d2dEndDrawing, log. cbv zeta.
    destruct (_d2dBeganDrawing a); fields;
      destruct (_cellBuffer a) eqn:Hbuf; fields;
      repeat match goal with
      | |- context [if ?c then _ else _] => destruct c; fields
      end; try reflexivity; exact Hbuf.
  - apply (Hframe keepsCells _).
  - intros f r g. apply lookupGlyph_sameGlyphs, (Hframe sameGlyphs _).
  - apply (Hframe keepsSettings _).
  - apply (Hframe extends _).
Qed.

Lemma endFrame_again b :
  _d2dBeganDrawing b = false -> _cellBuffer b = true ->
  endFrame b = (if _customPixelShader b then log ExecuteCustomShader (log Dispatch b)
                else log Dispatch b).
Proof.
  intros Hbegan Hbuf. unfold endFrame, _flushQuads, _d2dEndDrawing. cbv zeta.
  by rewrite Hbegan, Hbuf.
Qed.

Lemma drawFrame_inv a b1 :
  drawFrame p a = Ok tt b1 ->
  exists a1 a2',
    _drawBackground p a = Ok tt a1
    /\ rowLoop p 0 (rows p)
         (if _fontChangedResetGlyphAtlas a1 then _resetGlyphAtlas p a1 else a1) = Ok tt a2'
    /\ b1 = endFrame a2'.
Proof.
  unfold drawFrame. rewrite bind_run.
  destruct (_drawBackground p a) as [[] a1 | fl a1]; [| discriminate].
  rewrite bind_run.
  destruct (_drawText p a1) as [[] a3 | fl a3] eqn:Htext; [| discriminate].
  destruct (drawText_inv _ _ Htext) as (a2' & Hrows & ->).
  rewrite bind_run. unfold modify. intros [= <-].
  by exists a1, a2'.
Qed.

Lemma lookupGlyph_handleSettingsUpdate f r g b :
  lookupGlyph f r g (_handleSettingsUpdate p b) = lookupGlyph f r g b.
Proof.
  unfold _handleSettingsUpdate. cbv zeta.
  set (b1 := if _renderTargetView b then b else _).
  assert (H1 : sameGlyphs b b1) by (subst b1; by destruct (_renderTargetView b)).
  clearbody b1.
  set (b2 := if negb (_fontGeneration b1 =? _) then _ else b1).
  assert (H2 : sameGlyphs b1 b2) by (subst b2; by destruct (negb _)).
  clearbody b2.
  set (b3 := if negb (_miscGeneration b1 =? _) then _ else b2).
  assert (H3 : sameGlyphs b2 b3) by (subst b3; by destruct (negb _)).
  clearbody b3.
  set (b4 := if negb (bool_decide _) then _ else b3).
  assert (H4 : sameGlyphs b3 b4) by (subst b4; by destruct (negb _)).
  clearbody b4.
  set (b5 := if _ && _ then _ else b4).
  assert (H5 : sameGlyphs b4 b5) by (subst b5; by destruct (_ && _)).
  clearbody b5.
  change (lookupGlyph f r g b5 = lookupGlyph f r g b).
  by rewrite (lookupGlyph_sameGlyphs _ _ _ _ _ H5), (lookupGlyph_sameGlyphs _ _ _ _ _ H4),
    (lookupGlyph_sameGlyphs _ _ _ _ _ H3), (lookupGlyph_sameGlyphs _ _ _ _ _ H2),
    (lookupGlyph_sameGlyphs _ _ _ _ _ H1).
Qed.

(** X4.  Drawing an unchanged frame again.  If a frame completed without the
    packer ever refusing a glyph, rendering the same payload again completes,
    leaves the same cell grid and the same glyph cache, and does nothing but
    dispatch the grid (and run the custom shader, if any): no settings update,
    no bitmap upload, no atlas reset, no rasterisation.  The starting cache
    is one in which the halves of split double-height glyphs are cached
    together, as every rasterisation leaves them; the cache after the frame
    is again such a cache. *)
Theorem render_twice b0 b1 :
  paired b0 ->
  Render p b0 = Ok tt b1 ->
  noFailedPack (since b0 b1) = true ->
  exists b2,
    Render p b1 = Ok tt b2
    /\ _cells b2 = _cells b1
    /\ since b1 b2 = Dispatch :: (if _customPixelShader b1 then [ExecuteCustomShader] else [])
    /\ (forall f r g, lookupGlyph f r g b2 = lookupGlyph f r g b1)
    /\ paired b1.
Proof.
  intros Hp0 Hrun Hno.
  rewrite Render_unfold in Hrun.
  set (a0 := if _generation b0 =? generation (s p) then b0 else _handleSettingsUpdate p b0) in *.
  assert (Hgen0 : _generation a0 = generation (s p)).
  { subst a0. destruct (Z.eqb_spec (_generation b0) (generation (s p))); [assumption | reflexivity]. }
  assert (Hlk0 : forall f r g, lookupGlyph f r g a0 = lookupGlyph f r g b0).
  { intros f r g. subst a0. destruct (_ =? _); [reflexivity | apply lookupGlyph_handleSettingsUpdate]. }
  assert (Hext0 : extends b0 a0).
  { subst a0. destruct (_ =? _); [apply (frame_refl (R := extends)) |].
    exists (settingsEvents p b0). apply trace_handleSettingsUpdate. }
  clearbody a0.
  pose proof (stable_ok keepsStamps _ _ _ _
                (stable_drawFrame keepsStamps p (fun v x => conj eq_refl eq_refl)) Hrun)
    as [Hstamps _].
  destruct (drawFrame_inv _ _ Hrun) as (a1 & a2' & Hbg & Hrows & Hb1).
  destruct (drawBackground_inv _ _ Hbg) as (Ha1 & Hlenb & Hlenf).
  set (a2 := if _fontChangedResetGlyphAtlas a1 then _resetGlyphAtlas p a1 else a1) in *.
  (* facts about the state before the rows *)
  assert (Hext1 : extends a0 a1).
  { exact (stable_ok extends _ _ _ _
             (stable_drawBackground extends p
                (fun v x => ex_intro _ [] (eq_sym (app_nil_r _)))) Hbg). }
  assert (Hlk1 : forall f r g, lookupGlyph f r g a1 = lookupGlyph f r g a0).
  { intros f r g. rewrite Ha1. by destruct (_ =? _). }
  assert (Hgen1 : _backgroundBitmapGeneration a1 = colorBitmapGenerations0 p).
  { rewrite Ha1. destruct (Z.eqb_spec (_backgroundBitmapGeneration a0) (colorBitmapGenerations0 p));
      [assumption | reflexivity]. }
  assert (Hcells1 : _cells a1 = backgroundCells p) by (by rewrite Ha1).
  assert (Hext2 : extends a1 a2).
  { subst a2. destruct (_fontChangedResetGlyphAtlas a1);
      [apply (frame_resetGlyphAtlas extends) | apply (frame_refl (R := extends))]. }
  assert (Hflag2 : _fontChangedResetGlyphAtlas a2 = false).
  { subst a2. destruct (_fontChangedResetGlyphAtlas a1) eqn:Hflag;
      [apply fontChanged_resetGlyphAtlas | exact Hflag]. }
  assert (Hcells2 : _cells a2 = backgroundCells p).
  { subst a2. destruct (_fontChangedResetGlyphAtlas a1); [| exact Hcells1].
    by rewrite cells_resetGlyphAtlas. }
  assert (Hset2 : keepsSettings a1 a2).
  { subst a2. destruct (_fontChangedResetGlyphAtlas a1);
      [apply (frame_resetGlyphAtlas keepsSettings) | apply (frame_refl (R := keepsSettings))]. }
  assert (Hp2 : paired a2).
  { subst a2. destruct (_fontChangedResetGlyphAtlas a1).
    - intros f r g _ _ _. apply lookupGlyph_resetGlyphAtlas.
    - intros f r g Hdh Hs. rewrite !Hlk1, !Hlk0. by apply Hp0. }
  (* the rows of the first frame *)
  destruct (replayable_rowLoop (rows p) 0) as [Herows Hreplay].
  pose proof (stable_ok extends _ _ _ _ Herows Hrows) as Hext3.
  destruct (endFrame_fields a2') as (Hbegan & Hbuf & Hcells & Hlk & Hset & Hext4).
  rewrite <- Hb1 in Hbegan, Hbuf, Hcells, Hlk, Hset, Hext4.
  assert (Hno2 : noFailedPack (since a2 a2') = true).
  { assert (Hext02 : extends b0 a2).
    { eapply (frame_trans (R := extends)); [| exact Hext2].
      eapply (frame_trans (R := extends)); [exact Hext0 | exact Hext1]. }
    assert (Hext2b : extends a2 b1) by (eapply (frame_trans (R := extends)); eassumption).
    destruct (noFailedPack_split _ _ _ Hext02 Hext2b Hno) as [_ Hno'].
    by destruct (noFailedPack_split _ _ _ Hext3 Hext4 Hno'). }
  destruct (Hreplay a2 tt a2' Hrows Hno2 Hp2) as (_ & Hp2' & Hagain).
  pose proof (stable_ok keepsSettings _ _ _ _ (stable_rowLoop keepsSettings p 0 (rows p)) Hrows)
    as Hset3.
  (* the second frame *)
  assert (Hgen : _generation b1 = generation (s p)).
  { unfold stampsOf in Hstamps. injection Hstamps as Hg _ _ _ _. by rewrite Hg. }
  assert (Hbgen : _backgroundBitmapGeneration b1 = colorBitmapGenerations0 p).
  { destruct Hset as (_ & -> & _). destruct Hset3 as (_ & -> & _).
    destruct Hset2 as (_ & -> & _). exact Hgen1. }
  assert (Hflag : _fontChangedResetGlyphAtlas b1 = false).
  { destruct Hset as (_ & _ & Hf & _). apply Hf.
    destruct Hset3 as (_ & _ & Hf3 & _). by apply Hf3. }
  set (c1 := set_cells (backgroundCells p) b1).
  destruct (Hagain c1) as (c2 & Hrows2 & Hcells2' & Hcalm).
  { by rewrite Hcells2. }
  { intros f r g e Hl. change (lookupGlyph f r g b1 = Some e). by rewrite Hlk. }
  exists (endFrame c2).
  assert (Hagain2 : endFrame c2 =
            (if _customPixelShader b1 then log ExecuteCustomShader (log Dispatch c2)
             else log Dispatch c2)).
  { rewrite endFrame_again.
    - by rewrite (calm_shader _ _ Hcalm).
    - by rewrite (calm_began _ _ Hcalm).
    - by rewrite (calm_cellBuffer _ _ Hcalm). }
  split; [| split; [| split; [| split]]].
  - rewrite Render_unfold, Hgen, Z.eqb_refl. unfold drawFrame.
    rewrite bind_run, (drawBackground_again b1 Hlenb Hlenf Hbgen). fold c1.
    rewrite bind_run. unfold _drawText. rewrite bind_run. unfold modify at 1. cbn beta iota.
    change (_fontChangedResetGlyphAtlas c1) with (_fontChangedResetGlyphAtlas b1).
    rewrite Hflag, bind_run, Hrows2. reflexivity.
  - rewrite Hagain2, Hcells.
    destruct (_customPixelShader b1); exact Hcells2'.
  - apply since_app. rewrite Hagain2.
    destruct (_customPixelShader b1); unfold log; fields;
      rewrite (calm_trace _ _ Hcalm); change (trace c1) with (trace b1);
      by rewrite <- ?app_assoc.
  - intros f r g. rewrite Hagain2.
    assert (Hl : lookupGlyph f r g c2 = lookupGlyph f r g b1)
      by (by rewrite (calm_lookup _ _ Hcalm)).
    by destruct (_customPixelShader b1).
  - intros f r g Hdh Hs. rewrite !Hlk. by apply Hp2'.
Qed.

End Replay.

Lemma faultOf_None (r : Result unit) : faultOf r = None -> r = Ok tt (stateOf r).
Proof. destruct r as [[] b | fl b]; cbn; congruence. Qed.

Lemma paired_initialBackend `{Platform} p : paired p initialBackend.
Proof. intros f r g _ _ _. by destruct f. Qed.


Lemma render_twice_witness :
  let p := oneGlyphFrame 3 65 in
  let b1 := stateOf (Render p initialBackend) in
  exists b2, Render p b1 = Ok tt b2 /\ _cells b2 = _cells b1 /\ since b1 b2 = [Dispatch].
Proof.
  intros p b1.
  destruct (render_twice p initialBackend b1) as (b2 & Hrun & Hcells & Hsince & _).
  - apply paired_initialBackend.
  - apply faultOf_None. by_eval.
  - by_eval.
  - exists b2. split; [exact Hrun |]. split; [exact Hcells |].
    rewrite Hsince. by_eval.
Defined.

(** ** The shape of the atlas *)

(** X5.  The texture a reset asks for is the smallest power-of-two area that
    holds the target area (less than twice the target), its width is its
    height or twice its height, and both sides lie between 1024 and 8192. *)
Theorem resetGlyphAtlas_smallest_near_square `{Platform}
    (p : RenderingPayload) (b : BackendD3D) :
  let area := atlasArea (cellSize (font (s p))) (targetSize (s p))
                (width (_rectPacker b)) (height (_rectPacker b)) in
  let u := width (_rectPacker (_resetGlyphAtlas p b)) in
  let v := height (_rectPacker (_resetGlyphAtlas p b)) in
  (u = v \/ u = 2 * v)
  /\ 1024 <= v <= u /\ u <= 8192
  /\ area <= u * v < 2 * area.
Proof.
  intros area u v.
  pose proof (atlasArea_range (cellSize (font (s p))) (targetSize (s p))
                (width (_rectPacker b)) (height (_rectPacker b))) as Hr.
  fold area in Hr.
  assert (Huv : atlasSize area = (u, v)).
  { subst u v. rewrite resetGlyphAtlas_rectPacker. fold area.
    destruct (atlasSize area); reflexivity. }
  clearbody u v area.
  destruct (atlasSize_pow2 _ Hr) as (i & j & Hj & Hi & Hij & Hsz & Hge & Hlt).
  rewrite Huv in Hsz. injection Hsz as -> ->.
  unfold minArea, maxArea, D3D10_REQ_TEXTURE2D_U_OR_V_DIMENSION in Hr.
  assert (Hcase : i = j \/ i = j + 1) by lia.
  assert (Hpow : 2 ^ (j + 1) = 2 * 2 ^ j) by (rewrite Z.pow_add_r by lia; lia).
  assert (Hmono : 2 ^ j <= 2 ^ i) by (apply Z.pow_le_mono_r; lia).
  assert (Hmax : 2 ^ i <= 2 ^ 13) by (apply Z.pow_le_mono_r; lia).
  assert (Hj10 : 10 <= j).
  { destruct (Z_lt_le_dec j 10) as [Hsmall |]; [exfalso | assumption].
    assert (2 ^ j <= 2 ^ 9) by (apply Z.pow_le_mono_r; lia).
    assert (2 ^ i <= 2 ^ 10) by (apply Z.pow_le_mono_r; lia).
    change (2 ^ 9) with 512 in *. change (2 ^ 10) with 1024 in *.
    assert (0 < 2 ^ j) by (apply Z.pow_pos_nonneg; lia).
    nia. }
  assert (Hmin : 2 ^ 10 <= 2 ^ j) by (apply Z.pow_le_mono_r; lia).
  change (2 ^ 10) with 1024 in *. change (2 ^ 13) with 8192 in *.
  split; [destruct Hcase as [-> | ->]; [by left | right; exact Hpow] |].
  repeat split; lia.
Qed.

(** ** The grid after a frame *)

Section GridColours.
Context `{Platform}.

(** The colours of the cells, without their glyph coordinates. *)
Definition coloursOf (cells : list Cell) : list (Z * Z) :=
  (fun c => (background c, foreground c)) <$> cells.

Definition keepsColours (b b' : BackendD3D) : Prop :=
  coloursOf (_cells b') = coloursOf (_cells b).

Lemma coloursOf_stamp i tx ty cells :
  coloursOf (alter (fun c => mkCell (background c) (foreground c) tx ty) i cells)
  = coloursOf cells.
Proof.
  unfold coloursOf. revert i. induction cells as [| c cells IH]; intros [| i]; try reflexivity.
  cbn. f_equal. apply IH.
Qed.

#[export] Instance keepsColours_frame : StampFrame keepsColours.
Proof.
  assert (Htrans : forall a b c, keepsColours a b -> keepsColours b c -> keepsColours a c).
  { unfold keepsColours. intros a b c Hab Hbc. by rewrite Hbc. }
  refine {| stampFrame_glyphFrame :=
              {| glyphFrame_frame := {| frame_trans := Htrans |} |} |};
    intros; try reflexivity.
  apply coloursOf_stamp.
Qed.

Lemma lookup_coloursOf cells i :
  coloursOf cells !! i = (fun c => (background c, foreground c)) <$> cells !! i.
Proof. apply list_lookup_fmap. Qed.

End GridColours.

(** X6.  Text drawing never touches a cell's colours and never changes the
    number of cells: after a completed frame the grid has 30 x 120 cells and
    cell [i] carries the colours found at index [i] of the payload's two
    bitmaps, whatever was stamped. *)
Theorem render_cell_colours `{Platform} (p : RenderingPayload) (b b' : BackendD3D) :
  Render p b = Ok tt b' ->
  length (_cells b') = cellCount
  /\ forall i, (i < cellCount)%nat ->
       exists c, _cells b' !! i = Some c
                 /\ backgroundBitmap p !! i = Some (background c)
                 /\ foregroundBitmap p !! i = Some (foreground c).
Proof.
  intros Hrun. rewrite Render_unfold in Hrun.
  destruct (drawFrame_inv _ _ _ Hrun) as (a1 & a2' & Hbg & Hrows & ->).
  destruct (drawBackground_inv _ _ _ Hbg) as (Ha1 & Hlenb & Hlenf).
  assert (Hcells1 : _cells a1 = backgroundCells p) by (by rewrite Ha1).
  pose proof (stable_ok keepsColours _ _ _ _ (stable_rowLoop keepsColours p 0 (rows p)) Hrows)
    as Hcol.
  unfold keepsColours in Hcol.
  destruct (endFrame_fields p a2') as (_ & _ & -> & _).
  assert (Hcol' : coloursOf (_cells a2') = coloursOf (backgroundCells p)).
  { rewrite Hcol. destruct (_fontChangedResetGlyphAtlas a1);
      [by rewrite cells_resetGlyphAtlas, Hcells1 | by rewrite Hcells1]. }
  assert (Hlen : length (_cells a2') = cellCount).
  { rewrite <- (length_backgroundCells p Hlenb Hlenf).
    apply (f_equal length) in Hcol'. unfold coloursOf in Hcol'.
    by rewrite !length_fmap in Hcol'. }
  split; [exact Hlen |].
  intros i Hi.
  destruct (lookup_lt_is_Some_2 (_cells a2') i) as [c Hc]; [lia |].
  exists c. split; [exact Hc |].
  assert (Hi' : coloursOf (_cells a2') !! i = Some (background c, foreground c))
    by (by rewrite lookup_coloursOf, Hc).
  rewrite Hcol', lookup_coloursOf in Hi'. unfold backgroundCells in Hi'.
  rewrite lookup_zip_with, !lookup_take_lt in Hi' by exact Hi.
  destruct (backgroundBitmap p !! i) as [bg |]; [| discriminate].
  destruct (foregroundBitmap p !! i) as [fg |]; [| discriminate].
  cbn in Hi'. by injection Hi' as <- <-.
Qed.

Lemma render_cell_colours_witness :
  let p := oneGlyphFrame 3 65 in
  let b' := stateOf (Render p initialBackend) in
  length (_cells b') = cellCount
  /\ exists c, _cells b' !! 365%nat = Some c
               /\ foregroundBitmap p !! 365%nat = Some (foreground c).
Proof.
  intros p b'.
  destruct (render_cell_colours p initialBackend b') as [Hlen Hcol].
  - apply faultOf_None. by_eval.
  - split; [exact Hlen |].
    destruct (Hcol 365%nat) as (c & Hc & _ & Hfg); [apply Nat.ltb_lt; reflexivity |].
    exists c. by split.
Defined.

(** ** What a frame leaves behind *)

(** X7.  A completed frame leaves the backend settled: Direct2D drawing is
    ended, the cell buffer exists, the deferred atlas reset has been carried
    out, the background bitmap generation and the overall generation are
    those of the payload, and the last thing the frame did was to dispatch
    the grid, or to run the custom shader when there is one. *)
Theorem render_settles `{Platform} (p : RenderingPayload) (b b' : BackendD3D) :
  Render p b = Ok tt b' ->
  _d2dBeganDrawing b' = false
  /\ _cellBuffer b' = true
  /\ _fontChangedResetGlyphAtlas b' = false
  /\ _backgroundBitmapGeneration b' = colorBitmapGenerations0 p
  /\ _generation b' = generation (s p)
  /\ last (trace b') = Some (if _customPixelShader b' then ExecuteCustomShader else Dispatch).
Proof.
  intros Hrun.
  destruct (render_stamps_and_events p b) as [_ Hstamps]. rewrite Hrun in Hstamps.
  cbn [stateOf] in Hstamps.
  rewrite Render_unfold in Hrun.
  set (a0 := if _generation b =? generation (s p) then b else _handleSettingsUpdate p b) in *.
  assert (Hgen0 : _generation a0 = generation (s p)).
  { subst a0. destruct (Z.eqb_spec (_generation b) (generation (s p))); [assumption | reflexivity]. }
  assert (Hgen : _generation b' = generation (s p)).
  { destruct (_generation b =? generation (s p)) eqn:Heq;
      unfold stampsOf, stampsOfPayload in Hstamps; injection Hstamps as Hg _ _ _ _;
      [| exact Hg].
    rewrite Hg. by apply Z.eqb_eq. }
  clearbody a0.
  destruct (drawFrame_inv _ _ _ Hrun) as (a1 & a2' & Hbg & Hrows & Hb').
  destruct (drawBackground_inv _ _ _ Hbg) as (Ha1 & _ & _).
  destruct (endFrame_fields p a2') as (Hbegan & Hbuf & _ & _ & Hset & _).
  rewrite <- Hb' in Hbegan, Hbuf, Hset.
  pose proof (stable_ok keepsSettings _ _ _ _ (stable_rowLoop keepsSettings p 0 (rows p)) Hrows)
    as Hset3.
  set (a2 := if _fontChangedResetGlyphAtlas a1 then _resetGlyphAtlas p a1 else a1) in *.
  assert (Hflag2 : _fontChangedResetGlyphAtlas a2 = false).
  { subst a2. destruct (_fontChangedResetGlyphAtlas a1) eqn:Hflag;
      [apply fontChanged_resetGlyphAtlas | exact Hflag]. }
  assert (Hset2 : keepsSettings a1 a2).
  { subst a2. destruct (_fontChangedResetGlyphAtlas a1);
      [apply (frame_resetGlyphAtlas keepsSettings) | apply (frame_refl (R := keepsSettings))]. }
  split; [exact Hbegan |]. split; [exact Hbuf |].
  split; [| split; [| split; [exact Hgen |]]].
  - destruct Hset as (_ & _ & Hf & _). apply Hf.
    destruct Hset3 as (_ & _ & Hf3 & _). by apply Hf3.
  - destruct Hset as (_ & -> & _). destruct Hset3 as (_ & -> & _).
    destruct Hset2 as (_ & -> & _). rewrite Ha1.
    destruct (Z.eqb_spec (_backgroundBitmapGeneration a0) (colorBitmapGenerations0 p));
      [assumption | reflexivity].
  - rewrite Hb'. unfold endFrame. cbv zeta.
    set (b3 := _flushQuads p (_d2dEndDrawing a2')).
    assert (Hlast : last (trace b3) = Some Dispatch).
    { subst b3. unfold _flushQuads. cbv zeta. unfold log at 1. fields. apply last_snoc. }
    destruct (_customPixelShader b3) eqn:Hshader.
    + unfold log. fields. rewrite Hshader. apply last_snoc.
    + by rewrite Hshader.
Qed.

Lemma render_settles_witness :
  let b' := stateOf (Render fullHD initialBackend) in
  _d2dBeganDrawing b' = false /\ last (trace b') = Some Dispatch.
Proof.
  intros b'.
  destruct (render_settles fullHD initialBackend b') as (Hbegan & _ & _ & _ & _ & Hlast).
  - apply faultOf_None. by_eval.
  - split; [exact Hbegan |]. rewrite Hlast. by_eval.
Defined.

(** ** Atlas overflow *)

Section Overflow.
Context `{Platform}.

Lemma began_resetGlyphAtlas p b : _d2dBeganDrawing (_resetGlyphAtlas p b) = true.
Proof.
  unfold _resetGlyphAtlas. destruct (atlasSize _) as [u v].
  unfold log. fields. unfold _d2dBeginDrawing.
  match goal with
  | |- context [if _d2dBeganDrawing ?x then _ else _] =>
      destruct (_d2dBeganDrawing x) eqn:Hb; fields; [exact Hb | reflexivity]
  end.
Qed.

Lemma cellBuffer_afterOverflow p w h b : _cellBuffer (afterOverflow p w h b) = true.
Proof.
  unfold afterOverflow.
  set (x := _flushQuads p _).
  assert (Hx : _cellBuffer x = true).
  { subst x. unfold _flushQuads. cbv zeta. unfold log at 1. fields.
    match goal with
    | |- context [if _cellBuffer ?y then _ else _] => destruct (_cellBuffer y) eqn:Hy
    end; [exact Hy | reflexivity]. }
  clearbody x.
  destruct (frame_resetGlyphAtlas keepsSettings p x) as (_ & _ & _ & Hbuf). by apply Hbuf.
Qed.

Lemma lookupGlyph_afterOverflow p w h f r g b :
  lookupGlyph f r g (afterOverflow p w h b) = None.
Proof. unfold afterOverflow. apply lookupGlyph_resetGlyphAtlas. Qed.

Lemma began_afterOverflow p w h b : _d2dBeganDrawing (afterOverflow p w h b) = true.
Proof. unfold afterOverflow. apply began_resetGlyphAtlas. Qed.

(** The events of an overflow, in order. *)
Definition overflowEvents (p : RenderingPayload) (w h : Z) (b : BackendD3D) : list Event :=
  let x := _flushQuads p (_d2dEndDrawing (log (PackRects w h false) b)) in
  let uv := atlasSize (atlasArea (cellSize (font (s p))) (targetSize (s p))
                         (width (_rectPacker x)) (height (_rectPacker x))) in
  (if _d2dBeganDrawing b then [EndDraw] else [])
  ++ (if _cellBuffer b then [] else [CreateCellBuffer])
  ++ Dispatch
  :: (if negb (fst uv =? width (_rectPacker x)) || negb (snd uv =? height (_rectPacker x))
      then [ResizeGlyphAtlas (fst uv) (snd uv)] else [])
  ++ [ResetGlyphAtlas].

Lemma trace_afterOverflow_events p w h b :
  trace (afterOverflow p w h b) = trace b ++ PackRects w h false :: overflowEvents p w h b.
Proof.
  unfold afterOverflow, overflowEvents.
  rewrite resetGlyphAtlas_trace, trace_flushQuads, trace_d2dEndDrawing. cbv zeta.
  change (trace (log ?e ?x)) with (trace x ++ [e]).
  change (_d2dBeganDrawing (log ?e ?x)) with (_d2dBeganDrawing x).
  assert (Hbuf : _cellBuffer (_d2dEndDrawing (log (PackRects w h false) b)) = _cellBuffer b).
  { unfold _d2dEndDrawing. change (_d2dBeganDrawing (log ?e ?x)) with (_d2dBeganDrawing x).
    by destruct (_d2dBeganDrawing b). }
  rewrite Hbuf. rewrite <- !app_assoc. reflexivity.
Qed.

End Overflow.

(** X8.  When the packer refuses a rectangle, the grid stamped so far is
    dispatched and then the atlas is reset, whether the retry succeeds or
    throws: afterwards no glyph is cached any more, Direct2D drawing is open
    and the cell buffer exists, while the grid itself is left as it was, so
    that it still holds the coordinates stamped before the reset. *)
Theorem drawGlyphAtlasAllocate_overflow `{Platform}
    (p : RenderingPayload) (w h : Z) (b : BackendD3D) :
  tryPack w h b = None ->
  let b' := stateOf (_drawGlyphAtlasAllocate p w h b) in
  _cells b' = _cells b
  /\ (forall f r g, lookupGlyph f r g b' = None)
  /\ _d2dBeganDrawing b' = true
  /\ _cellBuffer b' = true
  /\ exists evs1 evs2 ok,
       since b b' = PackRects w h false :: evs1 ++ Dispatch :: evs2
                    ++ [ResetGlyphAtlas; PackRects w h ok]
       /\ ~ In ResetGlyphAtlas evs1 /\ ~ In Dispatch evs2.
Proof.
  intros Hfull b'. subst b'. rewrite drawGlyphAtlasAllocate_run, Hfull.
  pose proof (cells_afterOverflow p w h b) as Hcells.
  pose proof (fun f r g => lookupGlyph_afterOverflow p w h f r g b) as Hlk.
  pose proof (began_afterOverflow p w h b) as Hbegan.
  pose proof (cellBuffer_afterOverflow p w h b) as Hbuf.
  pose proof (trace_afterOverflow_events p w h b) as Htrace.
  assert (Hev : exists evs1 evs2,
            overflowEvents p w h b = evs1 ++ Dispatch :: evs2 ++ [ResetGlyphAtlas]
            /\ ~ In ResetGlyphAtlas evs1 /\ ~ In Dispatch evs2).
  { unfold overflowEvents. cbv zeta. eexists (_ ++ _), _.
    split; [rewrite <- app_assoc; reflexivity |]. split.
    - rewrite in_app_iff.
      destruct (_d2dBeganDrawing b), (_cellBuffer b); cbn; intuition discriminate.
    - destruct (negb _ || negb _); cbn; intuition discriminate. }
  destruct Hev as (evs1 & evs2 & Hev & Hno1 & Hno2).
  generalize dependent (afterOverflow p w h b). intros a Hcells Hlk Hbegan Hbuf Htrace.
  assert (Hboth : forall ok (y : BackendD3D),
            _cells y = _cells a ->
            (forall f r g, lookupGlyph f r g y = lookupGlyph f r g a) ->
            _d2dBeganDrawing y = _d2dBeganDrawing a ->
            _cellBuffer y = _cellBuffer a ->
            trace y = trace a ++ [PackRects w h ok] ->
            _cells y = _cells b
            /\ (forall f r g, lookupGlyph f r g y = None)
            /\ _d2dBeganDrawing y = true
            /\ _cellBuffer y = true
            /\ exists evs1 evs2 ok,
                 since b y = PackRects w h false :: evs1 ++ Dispatch :: evs2
                              ++ [ResetGlyphAtlas; PackRects w h ok]
                 /\ ~ In ResetGlyphAtlas evs1 /\ ~ In Dispatch evs2).
  { intros ok y Hc Hl Hb Hcb Ht.
    split; [congruence |]. split; [intros f r g; by rewrite Hl |].
    split; [congruence |]. split; [congruence |].
    exists evs1, evs2, ok. split; [| by split].
    apply since_app. rewrite Ht, Htrace, Hev. rewrite <- (app_assoc (trace b)).
    f_equal. cbn [app]. f_equal. rewrite <- (app_assoc evs1). f_equal. cbn [app]. f_equal.
    by rewrite <- app_assoc. }
  destruct (tryPack w h a) as [[n xy] |]; cbn [stateOf].
  - by apply (Hboth true).
  - by apply (Hboth false).
Qed.

Lemma drawGlyphAtlasAllocate_overflow_witness :
  let b' := stateOf (_drawGlyphAtlasAllocate fullHD 8 12 initialBackend) in
  _cells b' = _cells initialBackend /\ _d2dBeganDrawing b' = true.
Proof.
  intros b'.
  destruct (drawGlyphAtlasAllocate_overflow (H := Sample.platform) fullHD 8 12 initialBackend)
    as (Hcells & _ & Hbegan & _); [by_eval |].
  by split.
Defined.

(** ** Whitespace and split glyphs *)

(** X9.  A font glyph without ink is cached as whitespace without touching
    the atlas: rasterising it after a miss returns the blank entry (shading
    type [Default], which the text loop never stamps), adds exactly that
    entry to the cache, also on a double-height row, and leaves the packer,
    the trace, the grid and the Direct2D state as they were. *)
Theorem drawGlyph_whitespace `{Platform}
    (p : RenderingPayload) (ff : FontFace) (r : LineRendition) (g : Z) (b : BackendD3D) :
  inkEmpty (font (s p)) ff r g = true ->
  lookupGlyph (Some ff) r g b = None ->
  exists b',
    _drawGlyph p r (Some ff) g b = Ok (blankEntry g) b'
    /\ shadingType (blankEntry g) = Default
    /\ lookupGlyph (Some ff) r g b' = Some (blankEntry g)
    /\ (forall f' r' g', (f', r', g') <> (Some ff, r, g) ->
        lookupGlyph f' r' g' b' = lookupGlyph f' r' g' b)
    /\ _rectPacker b' = _rectPacker b
    /\ trace b' = trace b
    /\ _cells b' = _cells b
    /\ _d2dBeganDrawing b' = _d2dBeganDrawing b.
Proof.
  intros Hink Hmiss.
  exists (storeGlyph (Some ff) r (blankEntry g) b).
  split.
  { by rewrite drawGlyph_font_unfold, Hink, (drawGlyphAllocateEntry_miss _ _ _ _ Hmiss). }
  split; [reflexivity |].
  split; [by rewrite lookupGlyph_storeGlyph, decide_True |].
  split; [| by repeat split].
  intros f' r' g' Hne. rewrite lookupGlyph_storeGlyph. by rewrite decide_False.
Qed.

Lemma drawGlyph_whitespace_witness :
  let p := textPayload [] [] in
  exists b',
    _drawGlyph p DoubleHeightTop (Some 1%positive) 32 (ready p) = Ok (blankEntry 32) b'
    /\ _rectPacker b' = _rectPacker (ready p)
    /\ lookupGlyph (Some 1%positive) DoubleHeightBottom 32 b' = None.
Proof.
  intros p.
  destruct (drawGlyph_whitespace (H := Sample.platform) p 1%positive DoubleHeightTop 32 (ready p))
    as (b' & Hrun & _ & _ & Hframe & Hpacker & _); [by_eval | by_eval |].
  exists b'. split; [exact Hrun |]. split; [exact Hpacker |].
  rewrite Hframe by discriminate. by_eval.
Defined.

(** X10.  Rasterising a glyph on a double-height row, when it reaches the
    atlas (a builtin glyph, or a font glyph with ink), caches the other half
    under the other line rendition as well: a lookup for either half hits
    afterwards, so the row of the other half fetches it without any
    rasterisation, event or change of state. *)
Theorem drawGlyph_caches_both_halves `{Platform}
    (p : RenderingPayload) (r : LineRendition) (f : option FontFace) (g : Z)
    (b : BackendD3D) (e : AtlasGlyphEntry) (b' : BackendD3D) :
  isDoubleHeight r = true ->
  splits p f r g = true ->
  lookupGlyph f r g b = None ->
  _drawGlyph p r f g b = Ok e b' ->
  lookupGlyph f r g b' = Some e
  /\ exists e2,
       lookupGlyph f (otherLineRendition r) g b' = Some e2
       /\ fetchGlyph p (otherLineRendition r) f g b' = Ok e2 b'.
Proof.
  intros Hdh Hs Hmiss Hrun.
  destruct (drawGlyph_spec p r f g b e b' Hmiss Hrun) as (Hl & _ & _ & Hsib & _).
  split; [exact Hl |].
  destruct (Hsib Hdh Hs) as [e2 He2]. exists e2. split; [exact He2 |].
  unfold fetchGlyph, get. by rewrite bind_run, He2.
Qed.

Lemma drawGlyph_caches_both_halves_witness :
  let p := textPayload [] [] in
  let run := _drawGlyph p DoubleHeightTop (Some 1%positive) 65 (ready p) in
  is_Some (lookupGlyph (Some 1%positive) DoubleHeightBottom 65 (stateOf run)).
Proof.
  intros p run.
  assert (Hrun : exists e, run = Ok e (stateOf run)).
  { destruct (entryOf run) as [e |] eqn:He; [| exfalso; revert He; by_eval].
    exists e. by apply entryOf_Some. }
  destruct Hrun as [e Hrun].
  destruct (drawGlyph_caches_both_halves (H := Sample.platform) p DoubleHeightTop
              (Some 1%positive) 65 (ready p) e (stateOf run))
    as (_ & e2 & He2 & _); [reflexivity | by_eval | by_eval | exact Hrun |].
  by exists e2.
Defined.

(** ** Surrogate pairs of builtin glyphs *)

(** X11.  In a mapping without font face the text loop combines a leading
    surrogate with the index after it and steps over both.  It does so
    without looking at the length of [glyphIndices]: a leading surrogate in
    the last position makes it read one index past the end, before any glyph
    is looked up, and the state is left as it was. *)
Theorem glyphLoop_surrogates `{Platform}
    (p : RenderingPayload) (row : ShapedRow) (baselineY scaleX scaleY : Q)
    (to x : nat) (baselineX : Q) (fuel : nat) (g0 : Z) (b : BackendD3D) :
  (x < to)%nat ->
  glyphIndices row !! x = Some g0 ->
  is_leading_surrogate g0 = true ->
  (forall g1, glyphIndices row !! (x + 1)%nat = Some g1 ->
     glyphLoop (S fuel) p row None baselineY scaleX scaleY to x baselineX b =
       bind (fetchGlyph p (lineRendition row) None (combine_surrogates g0 g1)) (fun e =>
       bind (stampAt p row baselineY scaleX scaleY x baselineX e) (fun _ =>
       bind (index (glyphAdvances row) x) (fun adv =>
       glyphLoop fuel p row None baselineY scaleX scaleY to (x + 2)%nat
         (baselineX + adv)%Q))) b)
  /\ (glyphIndices row !! (x + 1)%nat = None ->
      glyphLoop (S fuel) p row None baselineY scaleX scaleY to x baselineX b =
        Fail IndexOutOfBounds b).
Proof.
  intros Hx Hg0 Hlead.
  assert (Hat : forall g1 : option Z,
            glyphIndices row !! (x + 1)%nat = g1 ->
            glyphAt row None x b =
              match g1 with
              | Some g1 => Ok (combine_surrogates g0 g1, 2%nat) b
              | None => Fail IndexOutOfBounds b
              end).
  { intros g1 Hg1. unfold glyphAt, index. rewrite bind_run, Hg0. unfold ret at 1.
    cbn beta iota. rewrite bool_decide_true by reflexivity. rewrite Hlead. cbn [andb].
    rewrite bind_run, Hg1. by destruct g1. }
  rewrite glyphLoop_step, (proj2 (Nat.ltb_lt x to) Hx), bind_run.
  split.
  - intros g1 Hg1. by rewrite (Hat _ Hg1).
  - intros Hg1. by rewrite (Hat _ Hg1).
Qed.

Lemma glyphLoop_surrogates_witness :
  let p := textPayload [] [] in
  let lone := Sample.textRow None SingleWidth [0xD83D] in
  glyphLoop 1 p lone None 15 1 1 1 0 0 (ready p) = Fail IndexOutOfBounds (ready p).
Proof.
  intros p lone.
  destruct (glyphLoop_surrogates (H := Sample.platform) p lone 15 1 1 1 0 0 0 0xD83D (ready p))
    as [_ Hlone]; [apply Nat.ltb_lt; reflexivity | reflexivity | reflexivity |].
  apply Hlone. reflexivity.
Defined.

(** ** The ligature feature *)

(** X12.  Of the font features only the first standard-ligatures entry
    counts: ligatures are disabled exactly when its parameter is zero,
    whatever entries follow it, and they are enabled when there is no such
    entry. *)
Theorem ligaturesDisabled_first_entry (before after : list (Z * Z)) (parameter : Z) :
  Forall (fun f => fst f <> DWRITE_FONT_FEATURE_TAG_STANDARD_LIGATURES) before ->
  ligaturesDisabled before = false
  /\ ligaturesDisabled
       (before ++ (DWRITE_FONT_FEATURE_TAG_STANDARD_LIGATURES, parameter) :: after)
     = (parameter =? 0).
Proof.
  induction 1 as [| [tag v] before Htag _ [IH1 IH2]]; cbn [ligaturesDisabled app].
  - by rewrite Z.eqb_refl.
  - cbn [fst] in Htag. by rewrite (proj2 (Z.eqb_neq _ _) Htag).
Qed.

Lemma ligaturesDisabled_first_entry_witness :
  ligaturesDisabled
    ([(1, 0)] ++ (DWRITE_FONT_FEATURE_TAG_STANDARD_LIGATURES, 1)
              :: [(DWRITE_FONT_FEATURE_TAG_STANDARD_LIGATURES, 0)]) = false.
Proof.
  destruct (ligaturesDisabled_first_entry [(1, 0)]
              [(DWRITE_FONT_FEATURE_TAG_STANDARD_LIGATURES, 0)] 1) as [_ ->].
  - repeat constructor. cbn. discriminate.
  - reflexivity.
Defined.

(** ** States the backend can be in *)




(** ** The soft font bitmap ([_drawSoftFontGlyph], the copy loop)

    Every [u16] of the pattern is one row of the glyph, most significant bit
    first; the loop writes one [u32] pixel per column and shifts the row left
    in its 16 bits. *)

(** The inner loop: [width] pixels from [srcBits]. *)
Fixpoint softFontRow (width : nat) (srcBits : Z) : list Z :=
  match width with
  | O => []
  | S width' =>
      (if Z.land srcBits 0x8000 =? 0 then 0x00000000 else 0xffffffff)
      :: softFontRow width' (u16 (Z.shiftl srcBits 1))
  end.

(** [bitmapData] once both loops are through. *)
Definition softFontBitmapData (width : nat) (data : list Z) : list Z :=
  concat (softFontRow width <$> data).

Lemma land_0x8000 (d : Z) : (Z.land d 0x8000 =? 0) = negb (Z.testbit d 15).
Proof.
  change 0x8000 with (2 ^ 15).
  destruct (Z.testbit d 15) eqn:Hbit; cbn [negb].
  - apply Z.eqb_neq. intros Hz.
    assert (Ht : Z.testbit (Z.land d (2 ^ 15)) 15 = true)
      by (rewrite Z.land_spec, Hbit, Z.pow2_bits_true by lia; reflexivity).
    rewrite Hz, Z.bits_0 in Ht. discriminate.
  - apply Z.eqb_eq, Z.bits_inj'. intros n Hn.
    rewrite Z.land_spec, Z.bits_0, Z.pow2_bits_eqb by lia.
    destruct (Z.eqb_spec 15 n) as [<- | Hne]; [by rewrite Hbit | apply andb_false_r].
Qed.

Lemma testbit_u16_shiftl (d k : Z) :
  k <= 15 -> Z.testbit (u16 (Z.shiftl d 1)) k = Z.testbit d (k - 1).
Proof.
  intros Hk. unfold u16.
  destruct (Z_lt_le_dec k 0) as [Hneg | Hpos].
  - by rewrite !Z.testbit_neg_r by lia.
  - rewrite Z.mod_pow2_bits_low by lia. by rewrite Z.shiftl_spec by lia.
Qed.

Lemma softFontRow_length width d : length (softFontRow width d) = width.
Proof. revert d. induction width as [| w IH]; intros d; cbn; [reflexivity | by rewrite IH]. Qed.

Lemma softFontRow_lookup width :
  forall d x, (x < width)%nat ->
    softFontRow width d !! x
    = Some (if Z.testbit d (15 - Z.of_nat x) then 0xffffffff else 0).
Proof.
  induction width as [| w IH]; intros d x Hx; [lia |].
  destruct x as [| x]; cbn [softFontRow lookup list_lookup].
  - rewrite land_0x8000. change (15 - Z.of_nat 0) with 15. by destruct (Z.testbit d 15).
  - rewrite IH by lia. rewrite testbit_u16_shiftl by lia.
    by replace (15 - Z.of_nat x - 1) with (15 - Z.of_nat (S x)) by lia.
Qed.

(** X14.  The soft font bitmap holds [width] pixels for every row of the
    pattern, so for a pattern slice of [height] rows it fills the
    [width * height] buffer exactly; the pixel of row [y], column [x] is
    opaque white exactly when bit [15 - x] of the row's pattern word is set,
    and transparent from column 16 on. *)
Theorem softFontBitmapData_pixels (width : nat) (data : list Z) :
  length (softFontBitmapData width data) = (width * length data)%nat
  /\ forall y x d,
       data !! y = Some d -> (x < width)%nat ->
       softFontBitmapData width data !! (y * width + x)%nat
       = Some (if Z.testbit d (15 - Z.of_nat x) then 0xffffffff else 0x00000000)
       /\ ((16 <= x)%nat ->
           softFontBitmapData width data !! (y * width + x)%nat = Some 0x00000000).
Proof.
  unfold softFontBitmapData. split.
  - induction data as [| d data IH]; cbn [fmap list_fmap concat length]; [lia |].
    rewrite length_app, softFontRow_length.
    change (length (concat (list_fmap Z (list Z) (softFontRow width) data)))
      with (length (concat (softFontRow width <$> data))).
    rewrite IH. lia.
  - assert (Hpix : forall y x d,
              data !! y = Some d -> (x < width)%nat ->
              concat (softFontRow width <$> data) !! (y * width + x)%nat
              = Some (if Z.testbit d (15 - Z.of_nat x) then 0xffffffff else 0)).
    { induction data as [| d0 data IH]; intros y x d Hd Hx; [discriminate |].
      cbn [fmap list_fmap concat].
      change (concat (list_fmap Z (list Z) (softFontRow width) data))
        with (concat (softFontRow width <$> data)).
      destruct y as [| y].
      - injection Hd as ->. cbn [Nat.mul Nat.add].
        rewrite lookup_app_l by (rewrite softFontRow_length; lia).
        by apply softFontRow_lookup.
      - rewrite lookup_app_r by (rewrite softFontRow_length; lia).
        rewrite softFontRow_length.
        replace (S y * width + x - width)%nat with (y * width + x)%nat by lia.
        by apply IH. }
    intros y x d Hd Hx. split; [by apply Hpix |].
    intros H16. rewrite (Hpix y x d Hd Hx).
    by rewrite Z.testbit_neg_r by lia.
Qed.

Lemma softFontBitmapData_pixels_witness :
  softFontBitmapData 4 [0xA000; 0x5000] !! (1 * 4 + 1)%nat = Some 0xffffffff.
Proof.
  destruct (softFontBitmapData_pixels 4 [0xA000; 0x5000]) as [_ Hpix].
  destruct (Hpix 1%nat 1%nat 0x5000) as [-> _]; [reflexivity | lia | reflexivity].
Defined.

(** ** Builtin glyphs *)

(** X15.  A builtin glyph rasterised after a miss on a row that is not
    double height takes one atlas rectangle of a whole cell, two cells wide on
    a double-width row, and its entry sits on the cell: offset
    [(0, -baseline)], the size of the rectangle, no overlap split.  Its
    shading type is [TextBuiltinGlyph] unless it is a soft-font character; a
    soft-font character met while no soft font is loaded is cached as
    whitespace, shading type [Default], after its rectangle has been taken
    from the packer all the same.  The allocation is the last event of the
    call. *)
Theorem drawBuiltinGlyph_entry `{Platform}
    (p : RenderingPayload) (r : LineRendition) (g : Z)
    (b : BackendD3D) (e : AtlasGlyphEntry) (b' : BackendD3D) :
  let fs := font (s p) in
  let w := if isDoubleWidth r then 2 * fst (cellSize fs) else fst (cellSize fs) in
  let h := snd (cellSize fs) in
  isDoubleHeight r = false ->
  lookupGlyph None r g b = None ->
  _drawBuiltinGlyph p r None g b = Ok e b' ->
  glyphIndex e = g
  /\ overlapSplit e = false
  /\ offset e = (0, i16 (- (if isDoubleWidth r then u16 (baseline fs) else baseline fs)))
  /\ size e = (u16 w, u16 h)
  /\ (IsSoftFontChar g = false -> shadingType e = TextBuiltinGlyph)
  /\ (IsSoftFontChar g = true -> softFontPattern fs = [] -> shadingType e = Default)
  /\ last (since b b') = Some (PackRects w h true)
  /\ lookupGlyph None r g b' = Some e.
Proof.
  intros fs w h Hdh Hmiss Hrun.
  assert (Hw : builtinWidth fs r = w).
  { unfold builtinWidth. subst w. destruct (isDoubleWidth r); [| reflexivity].
    rewrite Z.shiftl_mul_pow2 by lia. change (2 ^ 1) with 2. lia. }
  assert (Hh : builtinHeight fs r = h).
  { unfold builtinHeight. rewrite Hdh. by destruct (isDoubleWidth r). }
  assert (Hb : builtinBaseline fs r = if isDoubleWidth r then u16 (baseline fs) else baseline fs).
  { unfold builtinBaseline. rewrite Hdh. by destruct (isDoubleWidth r). }
  rewrite drawBuiltinGlyph_unfold in Hrun. fold fs in Hrun. rewrite Hw, Hh in Hrun.
  rewrite bind_run in Hrun.
  destruct (_drawGlyphAtlasAllocate p w h b) as [xy b1 | fl b1] eqn:Halloc; [| discriminate].
  rewrite bind_run in Hrun. unfold modify at 1 in Hrun. cbn beta iota in Hrun.
  rewrite bind_run in Hrun.
  assert (Hsh : exists sh b3,
    (if IsSoftFontChar g then _drawSoftFontGlyph p g else ret TextBuiltinGlyph)
      (_d2dBeginDrawing b1) = Ok sh b3
    /\ sameGlyphs (_d2dBeginDrawing b1) b3
    /\ _cells b3 = _cells (_d2dBeginDrawing b1) /\ trace b3 = trace (_d2dBeginDrawing b1)
    /\ (IsSoftFontChar g = false -> sh = TextBuiltinGlyph)
    /\ (IsSoftFontChar g = true -> softFontPattern fs = [] -> sh = Default)).
  { destruct (IsSoftFontChar g).
    - unfold _drawSoftFontGlyph. cbv zeta. fold fs.
      destruct (bool_decide _ || _) eqn:Hshort.
      + eexists _, _. split; [reflexivity |]. repeat split. discriminate.
      + eexists _, _. split; [reflexivity |]. repeat split; [discriminate |].
        intros _ Hempty. rewrite Hempty in Hshort. unfold safe_slice_len in Hshort.
        rewrite drop_nil, take_nil in Hshort. by rewrite bool_decide_true in Hshort.
    - eexists _, _. split; [reflexivity |]. repeat split. discriminate. }
  destruct Hsh as (sh & b3 & Hshrun & [Hs1 Hs2] & Hc3 & Ht3 & Hbuiltin & Hsoft).
  rewrite Hshrun in Hrun.
  destruct (sameGlyphs_d2dBeginDrawing b1) as [Hd1 Hd2].
  assert (Hlast : last (since b b1) = Some (PackRects w h true)).
  { rewrite drawGlyphAtlasAllocate_run in Halloc.
    destruct (tryPack w h b) as [[n xy1] |].
    - injection Halloc as _ <-. by rewrite (since_app _ _ [PackRects w h true]).
    - destruct (tryPack w h (afterOverflow p w h b)) as [[n xy1] |]; [| discriminate].
      injection Halloc as _ <-.
      rewrite (since_app _ _ (PackRects w h false :: overflowEvents p w h b
                              ++ [PackRects w h true])).
      + rewrite app_comm_cons. apply last_snoc.
      + rewrite trace_packed, trace_afterOverflow_events, <- app_assoc. reflexivity. }
  pose proof Hrun as Hcommit.
  eapply (commit_after_allocate p r None g _ _ _ b xy b1 b3) in Hrun;
    [ | exact Hmiss
      | intros; reflexivity
      | exact Halloc
      | split; congruence
      | rewrite Hc3; apply cells_d2dBeginDrawing
      | rewrite Ht3; apply trace_d2dBeginDrawing ].
  destruct Hrun as (Hlk & _ & _ & _ & Hsingle & _ & _).
  specialize (Hsingle Hdh).
  assert (Htrace : trace b' = trace b1).
  { assert (Hmiss3 : lookupGlyph None r g b3 = None).
    { rewrite (lookupGlyph_sameGlyphs _ _ _ _ _ (conj Hs1 Hs2)),
        (lookupGlyph_sameGlyphs _ _ _ _ _ (conj Hd1 Hd2)).
      destruct (drawGlyphAtlasAllocate_lookup p w h b xy b1 None r g Halloc)
        as (_ & [-> | ->] & _); auto. }
    destruct (commitGlyph_miss p r None g (builtinFill fs r sh xy) b3 Hmiss3)
      as (e' & b'' & Hrun' & _ & _ & _ & _ & _ & _ & Htr); [intros; reflexivity |].
    rewrite Hrun' in Hcommit. injection Hcommit as _ <-.
    by rewrite Htr, Ht3, trace_d2dBeginDrawing. }
  assert (Hfields : glyphIndex e = g /\ overlapSplit e = false
                    /\ offset e = (0, i16 (- builtinBaseline fs r))
                    /\ size e = (u16 (builtinWidth fs r), u16 (builtinHeight fs r))
                    /\ shadingType e = sh).
  { rewrite Hsingle. by repeat split. }
  destruct Hfields as (Hg & Hov & Hoff & Hsize & Hshade).
  rewrite Hw, Hh in Hsize. rewrite Hb in Hoff.
  split; [exact Hg |]. split; [exact Hov |]. split; [exact Hoff |]. split; [exact Hsize |].
  split; [intros Hc; rewrite Hshade; by apply Hbuiltin |].
  split; [intros Hc Hempty; rewrite Hshade; by apply Hsoft |].
  split; [unfold since in *; by rewrite Htrace | exact Hlk].
Qed.

Lemma drawBuiltinGlyph_entry_witness :
  let p := textPayload [] [] in
  let run := _drawBuiltinGlyph p DoubleWidth None 0xEF20 (ready p) in
  exists e, run = Ok e (stateOf run)
            /\ size e = (20, 20) /\ shadingType e = Default
            /\ last (since (ready p) (stateOf run)) = Some (PackRects 20 20 true).
Proof.
  intros p run.
  assert (Hrun : exists e, run = Ok e (stateOf run)).
  { destruct (entryOf run) as [e |] eqn:He; [| exfalso; revert He; by_eval].
    exists e. by apply entryOf_Some. }
  destruct Hrun as [e Hrun]. exists e. split; [exact Hrun |].
  destruct (drawBuiltinGlyph_entry (H := Sample.platform) p DoubleWidth 0xEF20 (ready p) e
              (stateOf run)) as (_ & _ & _ & Hsize & _ & Hsoft & Hlast & _);
    [reflexivity | by_eval | exact Hrun |].
  split; [exact Hsize |]. split; [apply Hsoft; reflexivity | exact Hlast].
Defined.

(** ** Growth after an overflow *)

(** X16.  A reset at least doubles the area of the atlas whenever twice the
    current area is within both caps, 1.25 times the surface area and
    [maxArea]: the retry after an overflow then runs in an atlas at least
    twice as large as the one that was full. *)
Theorem resetGlyphAtlas_doubles `{Platform} (p : RenderingPayload) (b : BackendD3D) :
  let w := width (_rectPacker b) in
  let h := height (_rectPacker b) in
  let u := width (_rectPacker (_resetGlyphAtlas p b)) in
  let v := height (_rectPacker (_resetGlyphAtlas p b)) in
  0 <= w -> 0 <= h ->
  2 * (w * h) <= maxAreaByFont (targetSize (s p)) ->
  2 * (w * h) <= maxArea ->
  2 * (w * h) <= u * v.
Proof.
  intros w h u v Hw Hh Hsurface Hmax.
  set (area := atlasArea (cellSize (font (s p))) (targetSize (s p)) w h).
  assert (Hr : minArea <= area <= maxArea) by apply atlasArea_range.
  assert (Huv : atlasSize area = (u, v)).
  { subst u v. rewrite resetGlyphAtlas_rectPacker. fold w h area.
    destruct (atlasSize area); reflexivity. }
  assert (Harea : 2 * (w * h) <= area).
  { subst area. unfold atlasArea. apply clamp_ge; [| exact Hmax | vm_compute; discriminate].
    assert (Hgrowth : minAreaByGrowth w h = 2 * (w * h)).
    { unfold minAreaByGrowth. unfold maxArea, D3D10_REQ_TEXTURE2D_U_OR_V_DIMENSION in Hmax.
      rewrite !u32_mul_l, <- Z.mul_assoc, u32_mul_l, u32_id; nia. }
    rewrite Hgrowth. lia. }
  clearbody u v area.
  destruct (atlasSize_pow2 _ Hr) as (i & j & _ & _ & _ & Hsz & Hge & _).
  rewrite Huv in Hsz. injection Hsz as -> ->. lia.
Qed.

Lemma resetGlyphAtlas_doubles_witness :
  let b := ready fullHD in
  2 * (width (_rectPacker b) * height (_rectPacker b))
  <= width (_rectPacker (_resetGlyphAtlas fullHD b))
     * height (_rectPacker (_resetGlyphAtlas fullHD b)).
Proof.
  intros b.
  apply (resetGlyphAtlas_doubles (H := Sample.platform) fullHD b); by_eval.
Defined.

(** ** The cell of a stamp *)

(** X17.  The text loop divides as C does, towards zero.  For a pixel
    position at or right of the grid's left edge the column is the cell that
    holds the position shifted by half a cell; a position less than one cell
    left of the edge is stamped into column 0 as well, and only from one
    whole cell to the left on does the column become negative.  Rows
    likewise. *)
Theorem cellOf_towards_zero (fs : FontSettings) (l t : Z) (e : AtlasGlyphEntry) :
  let cw := fst (cellSize fs) in
  let ch := snd (cellSize fs) in
  let x := l + fst (offset e) + cw ÷ 2 in
  let y := t + snd (offset e) + ch ÷ 2 in
  let cx := snd (cellOf fs l t e) in
  let cy := fst (cellOf fs l t e) in
  0 < cw -> 0 < ch ->
  (0 <= x -> cx * cw <= x < (cx + 1) * cw)
  /\ (- cw < x < cw -> cx = 0)
  /\ (x <= - cw -> cx < 0)
  /\ (0 <= y -> cy * ch <= y < (cy + 1) * ch)
  /\ (- ch < y < ch -> cy = 0)
  /\ (y <= - ch -> cy < 0).
Proof.
  intros cw ch x y cx cy Hcw Hch.
  assert (Hquot : forall a c, 0 < c ->
            (0 <= a -> (a ÷ c) * c <= a < (a ÷ c + 1) * c)
            /\ (- c < a < c -> a ÷ c = 0)
            /\ (a <= - c -> a ÷ c < 0)).
  { intros a c Hc.
    pose proof (Z.quot_rem' a c) as Hqr.
    split; [| split].
    - intros Ha. pose proof (Z.rem_bound_pos a c Ha Hc). lia.
    - intros Ha. destruct (Z_lt_le_dec a 0) as [Hneg | Hpos].
      + pose proof (Z.rem_bound_pos_neg a c ltac:(lia) ltac:(lia)) as Hrem. nia.
      + apply Z.quot_small. lia.
    - intros Ha. pose proof (Z.rem_bound_pos_neg a c ltac:(lia) ltac:(lia)) as Hrem. nia. }
  subst cx cy. unfold cellOf. cbv zeta. cbn [fst snd]. fold cw ch x y.
  destruct (Hquot x cw Hcw) as (H1 & H2 & H3).
  destruct (Hquot y ch Hch) as (H4 & H5 & H6).
  repeat split; auto; try (by apply H1); try (by apply H4).
Qed.

Lemma cellOf_towards_zero_witness :
  snd (cellOf (Sample.sampleFont []) (-12) 15 (blankEntry 0)) = 0.
Proof.
  destruct (cellOf_towards_zero (Sample.sampleFont []) (-12) 15 (blankEntry 0))
    as (_ & Hzero & _); [reflexivity | reflexivity |].
  apply Hzero. vm_compute. split; reflexivity.
Defined.

(** ** The curly underline ([_updateFontDependents], first block)

    [duTop], [duBottom] are the positions of the two lines of the double
    underline and [duHeight] the height of a line, taken from the font
    settings into [int]s; the results are narrowed to [u16]. *)

(** [(_curlyLineHalfHeight, (_curlyUnderline.position, _curlyUnderline.height))] *)
Definition curlyUnderline (cellHeight duTop duBottom duHeight : Z) : Q * (Z * Z) :=
  let height := Z.max 3 (duBottom + duHeight - duTop) in
  let position := Z.min duTop (cellHeight - height) in
  ((inject_Z height * (1 # 2))%Q, (u16 position, u16 height)).

(** X18.  The curly underline is at least 3 pixels high; in a cell that can
    hold it, it never reaches below the cell and never starts below the
    upper line of the double underline; when the double underline spans at
    least 3 pixels inside the cell the curly line takes exactly its span;
    [_curlyLineHalfHeight] is half its height.  In a cell lower than the
    line the narrowed position wraps around. *)
Theorem curlyUnderline_within_cell (cellHeight duTop duBottom duHeight : Z) :
  let position := fst (snd (curlyUnderline cellHeight duTop duBottom duHeight)) in
  let height := snd (snd (curlyUnderline cellHeight duTop duBottom duHeight)) in
  let half := fst (curlyUnderline cellHeight duTop duBottom duHeight) in
  in_u16 cellHeight -> in_u16 duTop ->
  duBottom + duHeight - duTop < 2 ^ 16 ->
  3 <= height
  /\ (half == inject_Z height / 2)%Q
  /\ (height <= cellHeight ->
      position + height <= cellHeight /\ position <= duTop)
  /\ (3 <= duBottom + duHeight - duTop -> duBottom + duHeight <= cellHeight ->
      position = duTop /\ position + height = duBottom + duHeight)
  /\ (cellHeight < height -> position = 2 ^ 16 + cellHeight - height).
Proof.
  intros position height half Hcell Htop Hspan.
  unfold in_u16 in *. subst position height half. unfold curlyUnderline. cbv zeta.
  cbn [fst snd].
  set (height := Z.max 3 (duBottom + duHeight - duTop)).
  assert (Hh : 3 <= height < 2 ^ 16) by (subst height; lia).
  rewrite (u16_id height) by lia.
  split; [lia |]. split; [field |].
  split; [| split].
  - intros Hfit. rewrite u16_id by lia. lia.
  - intros H3 Hin. rewrite u16_id by lia. subst height. lia.
  - intros Hlow. rewrite Z.min_r by lia. unfold u16.
    replace (cellHeight - height) with ((2 ^ 16 + cellHeight - height) + (-1) * 2 ^ 16) by lia.
    rewrite Z.mod_add by lia. apply Z.mod_small. lia.
Qed.

Lemma curlyUnderline_within_cell_witness :
  snd (curlyUnderline 20 16 18 1) = (16, 3).
Proof.
  destruct (curlyUnderline_within_cell 20 16 18 1) as (_ & _ & _ & Hspan & _);
    [unfold in_u16; lia | unfold in_u16; lia | lia |].
  destruct (Hspan ltac:(lia) ltac:(lia)) as [Hpos Hsum].
  rewrite (surjective_pairing (snd (curlyUnderline 20 16 18 1))).
  apply pair_equal_spec. split; [exact Hpos | lia].
Defined.

(** ** The time given to the custom shader ([_executeCustomShader])

    [queryPerfFreq] and [queryPerfCount] return [u64]s;
    [_customShaderPerfTickMod = freq * 1000] is set by [_recreateCustomShader]
    and the remainder is cast to [int] before it is scaled to seconds. *)

Definition u64 (z : Z) : Z := z mod 2 ^ 64.

(** [static_cast<int>(now % _customShaderPerfTickMod)] *)
Definition customShaderTicks (freq now : Z) : Z :=
  i32 (u64 now mod u64 (freq * 1000)).

(** X19.  The tick count handed to the custom shader wraps every 1000
    seconds, as intended, as long as 1000 seconds of ticks fit an [int], that
    is for counter frequencies up to 2147483 Hz; then it lies in
    [[0, freq * 1000)].  For any higher frequency the cast to [int] wraps
    first: at the counter value [2 ^ 31] the tick count is [- 2 ^ 31], a
    negative time. *)
Theorem customShaderTicks_range (freq now : Z) :
  0 < freq -> 0 <= now < 2 ^ 64 ->
  (freq * 1000 <= 2 ^ 31 ->
     customShaderTicks freq now = now mod (freq * 1000)
     /\ 0 <= customShaderTicks freq now < freq * 1000)
  /\ (2 ^ 31 < freq * 1000 < 2 ^ 64 -> customShaderTicks freq (2 ^ 31) = - 2 ^ 31).
Proof.
  intros Hfreq Hnow. unfold customShaderTicks, u64. split.
  - intros Hfit. rewrite (Z.mod_small now (2 ^ 64)), (Z.mod_small (freq * 1000)) by lia.
    pose proof (Z.mod_pos_bound now (freq * 1000) ltac:(lia)) as Hm.
    rewrite i32_id by lia. split; [reflexivity | exact Hm].
  - intros Hbig. rewrite (Z.mod_small (2 ^ 31) (2 ^ 64)), (Z.mod_small (freq * 1000)) by lia.
    rewrite (Z.mod_small (2 ^ 31)) by lia. reflexivity.
Qed.

Lemma customShaderTicks_range_witness :
  customShaderTicks 10000000 (2 ^ 31) = - 2 ^ 31
  /\ 0 <= customShaderTicks 1000000 (2 ^ 31) < 1000000 * 1000.
Proof.
  split.
  - apply (customShaderTicks_range 10000000 (2 ^ 31)); lia.
  - apply (customShaderTicks_range 1000000 (2 ^ 31)); lia.
Defined.

(** ** The MacType check ([_checkMacTypeVersion])

    [info] is the [dwFileVersionMS] of the loaded [MacType.Core.dll], major
    version in the high and minor version in the low 16 bits, or nothing when
    the module or its version resource is not found. *)

Definition _checkMacTypeVersion (info : option Z) : bool :=
  match info with
  | None => false
  | Some dwFileVersionMS => dwFileVersionMS <? Z.lor (Z.shiftl 1 16) 2023
  end.

Lemma lor_shiftl_16 (major minor : Z) :
  0 <= major -> 0 <= minor < 2 ^ 16 ->
  Z.lor (Z.shiftl major 16) minor = major * 2 ^ 16 + minor.
Proof.
  intros Hmajor Hminor.
  rewrite <- Z.shiftl_mul_pow2 by lia.
  rewrite <- Z.lxor_lor, <- Z.add_nocarry_lxor; try reflexivity;
    apply Z.bits_inj'; intros n Hn; rewrite Z.land_spec, Z.bits_0;
    destruct (Z_lt_le_dec n 16) as [Hlow | Hhigh].
  all: try (rewrite Z.shiftl_spec_low by lia; reflexivity).
  all: assert (Hbit : Z.testbit minor n = false)
         by (destruct (Z.eq_dec minor 0) as [-> | Hnz]; [apply Z.bits_0 |];
             apply Z.bits_above_log2; [lia |];
             assert (Z.log2 minor < 16) by (apply Z.log2_lt_pow2; lia); lia).
  all: rewrite Hbit; apply andb_false_r.
Qed.

(** X20.  MacType is reported faulty exactly when it is loaded and its
    version [major.minor] is below 1.2023: major version 0, or major version
    1 with a minor version below 2023.  Without the module, or without its
    version information, nothing is reported. *)
Theorem checkMacTypeVersion_threshold (major minor : Z) :
  0 <= major < 2 ^ 16 -> 0 <= minor < 2 ^ 16 ->
  _checkMacTypeVersion None = false
  /\ (_checkMacTypeVersion (Some (Z.lor (Z.shiftl major 16) minor)) = true
      <-> major = 0 \/ (major = 1 /\ minor < 2023)).
Proof.
  intros Hmajor Hminor. split; [reflexivity |].
  unfold _checkMacTypeVersion.
  rewrite (lor_shiftl_16 major minor), (lor_shiftl_16 1 2023) by lia.
  rewrite Z.ltb_lt. lia.
Qed.

Lemma checkMacTypeVersion_threshold_witness :
  _checkMacTypeVersion (Some (Z.lor (Z.shiftl 1 16) 2022)) = true.
Proof.
  apply (checkMacTypeVersion_threshold 1 2022); lia.
Defined.

(** ** Font glyphs with ink *)

(** X21.  A font glyph with ink, rasterised after a miss on a row that is
    not double height into a packer that has room for it, gets the rectangle
    of its rounded ink box: the entry's offset is the box's top left corner
    relative to the pen, its size the box's extent and its atlas coordinates
    the place the packer chose; a colour glyph is shaded [TextPassthrough],
    any other glyph with the text shading type of the font.  The grid is not
    touched and no other key of the cache changes. *)
Theorem drawGlyph_ink_entry `{Platform}
    (p : RenderingPayload) (ff : FontFace) (r : LineRendition) (g : Z)
    (b : BackendD3D) (n : stbrp_nodes) (xy : Z * Z) :
  let fs := font (s p) in
  let box := inkBox fs ff r g in
  let w := fst (snd box) - fst (fst box) in
  let h := snd (snd box) - snd (fst box) in
  isDoubleHeight r = false ->
  inkEmpty fs ff r g = false ->
  lookupGlyph (Some ff) r g b = None ->
  tryPack w h b = Some (n, xy) ->
  exists e b',
    fetchGlyph p r (Some ff) g b = Ok e b'
    /\ lookupGlyph (Some ff) r g b' = Some e
    /\ offset e = (i16 (fst (fst box)), i16 (snd (fst box)))
    /\ size e = (u16 w, u16 h)
    /\ texcoord e = (u16 (fst xy), u16 (snd xy))
    /\ shadingType e
       = (if colorGlyphs fs && TranslateColorGlyphRun ff (u16 g) then TextPassthrough
          else _textShadingType b)
    /\ _cells b' = _cells b
    /\ (forall f' r' g', (f', r', g') <> (Some ff, r, g) ->
        lookupGlyph f' r' g' b' = lookupGlyph f' r' g' b).
Proof.
  intros fs box w h Hdh Hink Hmiss Hpack.
  assert (Hsize : inkSize fs ff r g = (w, h)).
  { unfold inkSize. subst w h box. by destruct (inkBox fs ff r g) as [[bl bt] [br bb]]. }
  destruct (fetchGlyph_ink p ff r g b n xy Hdh Hink Hmiss) as (b' & Hrun & Hlk & Hframe & Hcells).
  { fold fs. by rewrite Hsize. }
  fold fs in Hrun, Hlk.
  exists (inkEntry fs ff r g b xy), b'.
  split; [exact Hrun |]. split; [exact Hlk |].
  assert (Hfields :
    offset (inkEntry fs ff r g b xy) = (i16 (fst (fst box)), i16 (snd (fst box)))
    /\ size (inkEntry fs ff r g b xy) = (u16 w, u16 h)
    /\ shadingType (inkEntry fs ff r g b xy)
       = (if colorGlyphs fs && TranslateColorGlyphRun ff (u16 g) then TextPassthrough
          else _textShadingType b)).
  { unfold inkEntry, fontFill. subst w h box.
    by destruct (inkBox fs ff r g) as [[bl bt] [br bb]]. }
  destruct Hfields as (Hoff & Hsz & Hshade).
  split; [exact Hoff |]. split; [exact Hsz |].
  split; [apply texcoord_inkEntry |]. split; [exact Hshade |].
  split; [exact Hcells | exact Hframe].
Qed.

Lemma drawGlyph_ink_entry_witness :
  let p := textPayload [] [] in
  exists e b',
    fetchGlyph p SingleWidth (Some 1%positive) 65 (ready p) = Ok e b'
    /\ offset e = (1, -12) /\ size e = (8, 12) /\ texcoord e = (0, 0).
Proof.
  intros p.
  destruct (drawGlyph_ink_entry (H := Sample.platform) p 1%positive SingleWidth 65 (ready p)
              (8, 0, 12) (0, 0))
    as (e & b' & Hrun & _ & Hoff & Hsize & Htex & _);
    [reflexivity | by_eval | by_eval | by_eval |].
  exists e, b'. split; [exact Hrun |]. split; [exact Hoff |]. split; [exact Hsize | exact Htex].
Defined.

(** ** The loop over a mapping ends *)

Section LoopEnds.
Context `{Platform}.

Lemma glyphAt_step row f x gdx b b' :
  glyphAt row f x b = Ok gdx b' -> (1 <= snd gdx)%nat.
Proof.
  unfold glyphAt, index, bind, ret, throw.
  destruct (glyphIndices row !! x) as [g0 |]; [| discriminate].
  destruct (bool_decide (f = None) && is_leading_surrogate g0).
  - destruct (glyphIndices row !! (x + 1)%nat); [| discriminate].
    intros [= <- _]. cbn. lia.
  - intros [= <- _]. cbn. lia.
Qed.

Lemma glyphLoop_fuel p row f baselineY scaleX scaleY to fuel1 :
  forall fuel2 x baselineX b,
    (to - x <= fuel1)%nat -> (to - x <= fuel2)%nat ->
    glyphLoop fuel1 p row f baselineY scaleX scaleY to x baselineX b
    = glyphLoop fuel2 p row f baselineY scaleX scaleY to x baselineX b.
Proof.
  induction fuel1 as [| fuel1 IH]; intros fuel2 x baselineX b H1 H2.
  - by rewrite !glyphLoop_done by lia.
  - destruct fuel2 as [| fuel2]; [by rewrite !glyphLoop_done by lia |].
    rewrite !glyphLoop_step. destruct (x <? to)%nat eqn:Hx; [| reflexivity].
    apply Nat.ltb_lt in Hx. rewrite ?bind_run.
    destruct (glyphAt row f x b) as [gdx b1 | fl b1] eqn:Hat; [| reflexivity].
    pose proof (glyphAt_step _ _ _ _ _ _ Hat) as Hdx.
    rewrite ?bind_run. destruct (fetchGlyph p _ f _ b1) as [e b2 | fl b2]; [| reflexivity].
    rewrite ?bind_run. destruct (stampAt p row _ _ _ x baselineX e b2) as [[] b3 | fl b3];
      [| reflexivity].
    rewrite ?bind_run. destruct (index (glyphAdvances row) x b3) as [adv b4 | fl b4];
      [| reflexivity].
    apply IH; lia.
Qed.

End LoopEnds.

(** X22.  The loop over a font mapping advances by one or two glyph indices
    per iteration, so it is through after at most [glyphsTo - glyphsFrom]
    iterations: any larger bound on the number of iterations gives the same
    result and the same state, and a mapping with [glyphsTo <= glyphsFrom]
    does nothing at all. *)
Theorem glyphLoop_ends `{Platform}
    (p : RenderingPayload) (row : ShapedRow) (f : option FontFace)
    (baselineY scaleX scaleY : Q) (to x : nat) (baselineX : Q) (b : BackendD3D) :
  (forall more,
     glyphLoop (to - x + more) p row f baselineY scaleX scaleY to x baselineX b
     = glyphLoop (to - x) p row f baselineY scaleX scaleY to x baselineX b)
  /\ ((to <= x)%nat ->
      forall fuel,
        glyphLoop fuel p row f baselineY scaleX scaleY to x baselineX b = Ok baselineX b).
Proof.
  split.
  - intros more. apply glyphLoop_fuel; lia.
  - intros Hx fuel. by apply glyphLoop_done.
Qed.

Lemma glyphLoop_ends_witness :
  let p := textPayload [] [] in
  glyphLoop 7 p Sample.emptyRow None 15 1 1 0 0 0 (ready p) = Ok 0%Q (ready p).
Proof.
  intros p.
  destruct (glyphLoop_ends (H := Sample.platform) p Sample.emptyRow None 15 1 1 0 0 0 (ready p))
    as [_ Hdone].
  apply Hdone. lia.
Defined.

(** ** Resets that keep the texture *)

(** X23.  All target areas between two consecutive powers of two give the
    same texture size, so a reset whose target area stays in the bracket of
    the current size, as after resizing the window by a few pixels, does not
    recreate the atlas texture. *)
Theorem atlasSize_bracket `{Platform} (p : RenderingPayload) (b : BackendD3D) (k : Z) :
  let area := atlasArea (cellSize (font (s p))) (targetSize (s p))
                (width (_rectPacker b)) (height (_rectPacker b)) in
  (forall a1 a2,
     minArea <= a1 <= maxArea -> minArea <= a2 <= maxArea ->
     2 ^ k < a1 <= 2 ^ (k + 1) -> 2 ^ k < a2 <= 2 ^ (k + 1) ->
     atlasSize a1 = atlasSize a2)
  /\ (forall a,
        minArea <= a <= maxArea ->
        2 ^ k < a <= 2 ^ (k + 1) -> 2 ^ k < area <= 2 ^ (k + 1) ->
        atlasSize a = (width (_rectPacker b), height (_rectPacker b)) ->
        since b (_resetGlyphAtlas p b) = [ResetGlyphAtlas]).
Proof.
  intros area.
  assert (Hsame : forall a1 a2,
            minArea <= a1 <= maxArea -> minArea <= a2 <= maxArea ->
            2 ^ k < a1 <= 2 ^ (k + 1) -> 2 ^ k < a2 <= 2 ^ (k + 1) ->
            atlasSize a1 = atlasSize a2).
  { intros a1 a2 H1 H2 Hb1 Hb2.
    assert (Hk : 0 <= k).
    { destruct (Z_lt_le_dec k 0) as [Hneg |]; [| assumption].
      rewrite (Z.pow_neg_r 2 k) in Hb1 by lia.
      assert (2 ^ (k + 1) <= 1).
      { destruct (Z.eq_dec k (-1)) as [-> | Hne]; [reflexivity |].
        rewrite (Z.pow_neg_r 2 (k + 1)) by lia. lia. }
      unfold minArea in H1. lia. }
    assert (Hlog : forall a, minArea <= a <= maxArea -> 2 ^ k < a <= 2 ^ (k + 1) ->
              BitScanReverse (u32 (a - 1)) = k).
    { intros a Ha Hb. unfold BitScanReverse.
      unfold minArea, maxArea, D3D10_REQ_TEXTURE2D_U_OR_V_DIMENSION in Ha.
      rewrite u32_id by lia. apply Z.log2_unique; [exact Hk |].
      replace (2 ^ Z.succ k) with (2 ^ (k + 1)) by (f_equal; lia). lia. }
    unfold atlasSize. by rewrite (Hlog a1 H1 Hb1), (Hlog a2 H2 Hb2). }
  split; [exact Hsame |].
  intros a Ha Hb Harea Hsize.
  assert (Hr : minArea <= area <= maxArea) by apply atlasArea_range.
  apply since_app. rewrite resetGlyphAtlas_trace. cbv zeta. fold area.
  rewrite <- (Hsame a area Ha Hr Hb Harea), Hsize. cbn [fst snd].
  by rewrite !Z.eqb_refl.
Qed.

Lemma atlasSize_bracket_witness :
  let b3 := _resetGlyphAtlas (H := Sample.platform) fullHD
              (_resetGlyphAtlas fullHD (_resetGlyphAtlas fullHD initialBackend)) in
  atlasSize (1920 * 1080) = atlasSize (1921 * 1081)
  /\ since b3 (_resetGlyphAtlas fullHD b3) = [ResetGlyphAtlas].
Proof.
  intros b3. split.
  - pose proof (atlasSize_bracket (H := Sample.platform) fullHD initialBackend 20)
      as Hb.
    cbv zeta in Hb. destruct Hb as [Hsame _].
    apply (Hsame (1920 * 1080) (1921 * 1081)); clear; vm_compute; split;
      first [reflexivity | discriminate].
  - pose proof (atlasSize_bracket (H := Sample.platform) fullHD b3 21) as Hb.
    cbv zeta in Hb. destruct Hb as [_ Hkeep].
    apply (Hkeep (2048 * 2048)).
    + clear; vm_compute; split; first [reflexivity | discriminate].
    + clear; vm_compute; split; first [reflexivity | discriminate].
    + clear Hkeep; vm_compute; split; first [reflexivity | discriminate].
    + clear Hkeep; vm_compute; reflexivity.
Defined.
